(** * Lighthouse smoke-test runner and timings summarizer

    A shallow embedding of
    - [lighthouse-cli/test/smokehouse/smokehouse.js] (module [Smokehouse]) and
    - [lighthouse-core/scripts/timings.js], in the two revisions the
      repository holds (modules [Timings] and [Collection]),
    with the properties of their specification stated and proved below.

    JavaScript strings are modelled by [string]; a character stands for one
    code unit, so the model covers text whose code units are below 256.
    JavaScript numbers are IEEE 754 binary64 values, modelled by the
    kernel's primitive floats.  What the scripts call but do not define (the
    tool they spawn, [Math.random], [JSON.parse], [new URL], [localeCompare])
    is a parameter of the model. *)

From Stdlib Require Import ZArith Ascii String List Sorting.Sorted Permutation.
From Stdlib Require Import Floats Uint63.
From stdpp Require Import base option list strings gmap pretty.

Local Open Scope Z_scope.
Local Open Scope stdpp_scope.

(** ** JavaScript string primitives used by the two scripts *)

Module JS.

(** [s.startsWith(p)], also the meaning of the anchored pattern [/^p/]. *)
Fixpoint startsWith (p s : string) : bool :=
  match p, s with
  | EmptyString, _ => true
  | String a p', String b s' => if Ascii.eqb a b then startsWith p' s' else false
  | String _ _, EmptyString => false
  end.

(** [s.includes(p)], also the meaning of the unanchored literal pattern [/p/]. *)
Fixpoint includes (p s : string) : bool :=
  startsWith p s ||
  match s with
  | EmptyString => false
  | String _ s' => includes p s'
  end.

(** [s.substr(n)]: the string from index [n] on, empty when [n] is past the
    end. *)
Fixpoint substr (n : nat) (s : string) : string :=
  match n, s with
  | O, _ => s
  | S n', String _ s' => substr n' s'
  | S _, EmptyString => EmptyString
  end.

(** [s.substr(0, n)]: the first [n] code units. *)
Fixpoint take (n : nat) (s : string) : string :=
  match n, s with
  | S n', String c s' => String c (take n' s')
  | _, _ => EmptyString
  end.

(** [s.split(sep)] for a non-empty separator.  [skip] counts the code units
    of a separator occurrence that are still to be passed over. *)
Fixpoint split_go (sep : string) (skip : nat) (s : string) : list string :=
  match s with
  | EmptyString => [EmptyString]
  | String c s' =>
      match skip with
      | S k => split_go sep k s'
      | O =>
          if startsWith sep s
          then EmptyString :: split_go sep (String.length sep - 1) s'
          else match split_go sep O s' with
               | l :: ls => String c l :: ls
               | [] => [String c EmptyString]
               end
      end
  end.

Definition split (sep s : string) : list string := split_go sep O s.

(** [parts.join(sep)]. *)
Fixpoint join (sep : string) (parts : list string) : string :=
  match parts with
  | [] => EmptyString
  | [p] => p
  | p :: ps => p +:+ sep +:+ join sep ps
  end.

Definition is_alnum (c : ascii) : bool :=
  let n := N_of_ascii c in
  ((48 <=? n) && (n <=? 57) || (65 <=? n) && (n <=? 90) || (97 <=? n) && (n <=? 122))%N.

(** [s.replace(/[^a-zA-Z0-9]/g, '_')]. *)
Fixpoint escape_non_alnum (s : string) : string :=
  match s with
  | EmptyString => EmptyString
  | String c s' => String (if is_alnum c then c else "_"%char) (escape_non_alnum s')
  end.

Definition LF : string := String "010"%char EmptyString.

(** [Boolean(s)] of a string. *)
Definition nonempty (s : string) : bool :=
  match s with EmptyString => false | String _ _ => true end.

Definition DQUOTE : ascii := "034"%char.
Definition BACKSLASH : ascii := "092"%char.

Definition hex_digit (n : N) : ascii :=
  ascii_of_N (if (n <? 10)%N then 48 + n else 87 + n)%N.

(** The escape [JSON.stringify] writes for one code unit inside a string. *)
Definition quote_char (c : ascii) : string :=
  let n := N_of_ascii c in
  let esc (x : ascii) := String BACKSLASH (String x EmptyString) in
  if Ascii.eqb c DQUOTE then esc DQUOTE
  else if Ascii.eqb c BACKSLASH then esc BACKSLASH
  else if (n =? 8)%N then esc "b"%char
  else if (n =? 9)%N then esc "t"%char
  else if (n =? 10)%N then esc "n"%char
  else if (n =? 12)%N then esc "f"%char
  else if (n =? 13)%N then esc "r"%char
  else if (n <? 32)%N
       then String BACKSLASH
              ("u00" +:+ String (hex_digit (n / 16)) (String (hex_digit (n mod 16)) EmptyString))
  else String c EmptyString.

Fixpoint quote_chars (s : string) : string :=
  match s with
  | EmptyString => EmptyString
  | String c s' => quote_char c +:+ quote_chars s'
  end.

Definition JSON_quote (s : string) : string :=
  String DQUOTE (quote_chars s +:+ String DQUOTE EmptyString).

(** [JSON.stringify(lines, null, 2)] of an array of strings. *)
Definition JSON_stringify_lines (lines : list string) : string :=
  match lines with
  | [] => "[]"
  | _ => "[" +:+ LF +:+ join ("," +:+ LF) (map (fun l => "  " +:+ JSON_quote l) lines)
             +:+ LF +:+ "]"
  end.

End JS.

(** ** Node's [crypto.createHash('md5').update(s).digest('hex')] *)

Module Crypto.

Definition w32 (x : Z) : Z := x mod 2 ^ 32.

Definition rotl (x c : Z) : Z :=
  w32 (Z.lor (Z.shiftl x c) (Z.shiftr x (32 - c))).

Definition not32 (x : Z) : Z := Z.lxor x 0xffffffff.

Definition md5_s : list Z :=
  [7; 12; 17; 22; 7; 12; 17; 22; 7; 12; 17; 22; 7; 12; 17; 22;
   5; 9; 14; 20; 5; 9; 14; 20; 5; 9; 14; 20; 5; 9; 14; 20;
   4; 11; 16; 23; 4; 11; 16; 23; 4; 11; 16; 23; 4; 11; 16; 23;
   6; 10; 15; 21; 6; 10; 15; 21; 6; 10; 15; 21; 6; 10; 15; 21].

Definition md5_K : list Z :=
  [0xd76aa478; 0xe8c7b756; 0x242070db; 0xc1bdceee;
   0xf57c0faf; 0x4787c62a; 0xa8304613; 0xfd469501;
   0x698098d8; 0x8b44f7af; 0xffff5bb1; 0x895cd7be;
   0x6b901122; 0xfd987193; 0xa679438e; 0x49b40821;
   0xf61e2562; 0xc040b340; 0x265e5a51; 0xe9b6c7aa;
   0xd62f105d; 0x02441453; 0xd8a1e681; 0xe7d3fbc8;
   0x21e1cde6; 0xc33707d6; 0xf4d50d87; 0x455a14ed;
   0xa9e3e905; 0xfcefa3f8; 0x676f02d9; 0x8d2a4c8a;
   0xfffa3942; 0x8771f681; 0x6d9d6122; 0xfde5380c;
   0xa4beea44; 0x4bdecfa9; 0xf6bb4b60; 0xbebfbc70;
   0x289b7ec6; 0xeaa127fa; 0xd4ef3085; 0x04881d05;
   0xd9d4d039; 0xe6db99e5; 0x1fa27cf8; 0xc4ac5665;
   0xf4292244; 0x432aff97; 0xab9423a7; 0xfc93a039;
   0x655b59c3; 0x8f0ccc92; 0xffeff47d; 0x85845dd1;
   0x6fa87e4f; 0xfe2ce6e0; 0xa3014314; 0x4e0811a1;
   0xf7537e82; 0xbd3af235; 0x2ad7d2bb; 0xeb86d391].

(** The UTF-8 bytes of a string whose code units are below 256. *)
Fixpoint utf8 (s : string) : list Z :=
  match s with
  | EmptyString => []
  | String c s' =>
      let n := Z.of_N (N_of_ascii c) in
      if n <? 128 then n :: utf8 s'
      else Z.lor 0xC0 (Z.shiftr n 6) :: Z.lor 0x80 (Z.land n 0x3F) :: utf8 s'
  end.

(** [n] little-endian bytes of [x]. *)
Fixpoint le_bytes (n : nat) (x : Z) : list Z :=
  match n with
  | O => []
  | S n' => x mod 256 :: le_bytes n' (x / 256)
  end.

Definition pad (msg : list Z) : list Z :=
  let len := Z.of_nat (length msg) in
  msg ++ [0x80] ++ repeat 0 (Z.to_nat ((55 - len) mod 64)) ++ le_bytes 8 (8 * len).

(** The little-endian 32-bit words of a byte sequence. *)
Fixpoint words (fuel : nat) (bytes : list Z) : list Z :=
  match fuel, bytes with
  | S f, b0 :: b1 :: b2 :: b3 :: rest =>
      (b0 + 256 * (b1 + 256 * (b2 + 256 * b3))) :: words f rest
  | _, _ => []
  end.

Record state := State { sA : Z; sB : Z; sC : Z; sD : Z }.

Definition init : state :=
  State 0x67452301 0xefcdab89 0x98badcfe 0x10325476.

Definition step (M : list Z) (st : state) (i : Z) : state :=
  let '(State A B C D) := st in
  let '(F, g) :=
    if i <? 16 then (Z.lor (Z.land B C) (Z.land (not32 B) D), i)
    else if i <? 32 then (Z.lor (Z.land D B) (Z.land (not32 D) C), (5 * i + 1) mod 16)
    else if i <? 48 then (Z.lxor (Z.lxor B C) D, (3 * i + 5) mod 16)
    else (Z.lxor C (Z.lor B (not32 D)), (7 * i) mod 16) in
  let F' := w32 (F + A + nth (Z.to_nat i) md5_K 0 + nth (Z.to_nat g) M 0) in
  State D (w32 (B + rotl F' (nth (Z.to_nat i) md5_s 0))) B C.

Definition block (st : state) (M : list Z) : state :=
  let '(State A B C D) := st in
  let '(State A' B' C' D') := fold_left (step M) (map Z.of_nat (seq 0 64)) st in
  State (w32 (A + A')) (w32 (B + B')) (w32 (C + C')) (w32 (D + D')).

Fixpoint blocks (fuel : nat) (st : state) (ws : list Z) : state :=
  match fuel with
  | O => st
  | S f => blocks f (block st (firstn 16 ws)) (skipn 16 ws)
  end.

Definition hex_digit (n : Z) : ascii :=
  ascii_of_N (Z.to_N (if n <? 10 then 48 + n else 87 + n)).

Fixpoint hex (bytes : list Z) : string :=
  match bytes with
  | [] => EmptyString
  | b :: bs => String (hex_digit (b / 16)) (String (hex_digit (b mod 16)) (hex bs))
  end.

Definition md5_hex (s : string) : string :=
  let bytes := pad (utf8 s) in
  let ws := words (length bytes) bytes in
  let '(State A B C D) := blocks (Nat.div (length ws) 16) init ws in
  hex (le_bytes 4 A ++ le_bytes 4 B ++ le_bytes 4 C ++ le_bytes 4 D).

End Crypto.

(** ** The Lighthouse result (LHR) as far as the two scripts read it *)

Module LH.

Record RuntimeError := { code : string; message : string }.

Record TimingEntry := { name : string; duration : float }.

(** [rest] stands for the members the scripts never look into (audits,
    categories, ...). *)
Record Result := {
  requestedUrl : string;
  runtimeError : option RuntimeError;
  timing_entries : list TimingEntry;
  rest : string;
}.

End LH.

(** ** smokehouse.js *)

Module Smokehouse.

Definition PROTOCOL_TIMEOUT_EXIT_CODE : Z := 67.
Definition RETRIES : nat := 3.

(** *** Data *)

(** A parsed URL (the WHATWG record): [pre] is the serialization up to and
    including the path, [query] and [fragment] are absent ([None]) or hold
    the text after [?] and [#]. *)
Record URL := { pre : string; query : option string; fragment : option string }.

(** The [search] getter: empty for an absent or empty query. *)
Definition URL_search (u : URL) : string :=
  match query u with
  | Some (String c q) => "?" +:+ String c q
  | _ => ""
  end.

(** [url.search = '']: the query becomes absent. *)
Definition URL_clear_search (u : URL) : URL :=
  {| pre := pre u; query := None; fragment := fragment u |}.

(** The [href] getter: the serialization of the record. *)
Definition URL_href (u : URL) : string :=
  pre u +:+ match query u with Some q => "?" +:+ q | None => "" end
        +:+ match fragment u with Some f => "#" +:+ f | None => "" end.

(** The expected [lhr] of an expectation: the requested URL and the
    expected members, which only the report step reads. *)
Record ExpectedLhr := { e_requestedUrl : string; e_rest : string }.

(** [Smokehouse.ExpectedRunnerResult]; [stderr] is unset ([None]) in an
    expectation as authored. *)
Record Expected := { lhr : ExpectedLhr; stderr : option (list string) }.

Record RunnerResult := {
  r_lhr : LH.Result;
  r_artifacts : gmap string string;
  r_stderr : list string;
}.

Record Counts := { passed : nat; failed : nat }.

Inductive Stream := Out | Err.

#[global] Instance Stream_eq_dec : EqDecision Stream.
Proof. solve_decision. Defined.

(** The files (path to content), the two console streams in the order
    written, and how many times the tool was spawned and [Math.random]
    called so far. *)
Record World := {
  fs : gmap string string;
  console : list (Stream * string);
  spawned : nat;
  randoms : nat;
}.

Record SpawnResult := { status : option Z; stdout : string; sp_stderr : string }.

(** What the script gets from outside: the tool it spawns, library calls it
    does not define, and its command line and environment. *)
Record Externals := {
  (** the [n]-th run of [spawnSync(command, args)]: its result and the
      files it leaves *)
  spawnSync : nat -> string -> list string -> gmap string string ->
              SpawnResult * gmap string string;
  (** [Math.round(Math.random() * 100000)] at the [k]-th call *)
  randInt : nat -> nat;
  (** [new URL(s)]; [None] when it throws *)
  URL_new : string -> option URL;
  (** [JSON.parse] of a report and of a snapshot; [None] when it throws *)
  JSON_parse_lhr : string -> option LH.Result;
  JSON_parse_lines : string -> option (list string);
  (** [assetSaver.loadArtifacts(dir)]; [None] when it throws *)
  loadArtifacts : gmap string string -> string -> option (gmap string string);
  (** the structured comparison of [collateResults] and [report] *)
  compareLhr : RunnerResult -> ExpectedLhr -> Counts;
  log_dim : string; log_reset : string;
  greenify : string -> string; redify : string -> string;
  dirname : string;
  configPath : string;
  cli_u : bool;
  cli_debug : bool;
  env_LH_SMOKE_DEBUG : bool;
  env_APPVEYOR : bool;
}.

(** *** Control: return, [process.exit(code)], or an uncaught exception *)

Inductive Outcome (A : Type) : Type :=
| Ok (a : A) (w : World)
| Exit (code : option Z) (w : World)
| Throw (error : string) (w : World)
| OutOfFuel.
Arguments Ok {A} a w.
Arguments Exit {A} code w.
Arguments Throw {A} error w.
Arguments OutOfFuel {A}.

Definition M (A : Type) : Type := World -> Outcome A.

Definition ret {A} (a : A) : M A := fun w => Ok a w.

Definition bind {A B} (m : M A) (k : A -> M B) : M B :=
  fun w =>
    match m w with
    | Ok a w' => k a w'
    | Exit c w' => Exit c w'
    | Throw e w' => Throw e w'
    | OutOfFuel => OutOfFuel
    end.

Notation "'let*' x ':=' m 'in' k" := (bind m (fun x => k))
  (at level 10, x name, m at level 100, k at level 200).
Notation "m ;; k" := (bind m (fun _ => k))
  (at level 100, k at level 200, right associativity).

Definition process_exit {A} (code : option Z) : M A := fun w => Exit code w.
Definition throw {A} (error : string) : M A := fun w => Throw error w.

Definition console_log (line : string) : M unit :=
  fun w => Ok tt {| fs := fs w; console := console w ++ [(Out, line)];
                    spawned := spawned w; randoms := randoms w |}.

Definition console_error (line : string) : M unit :=
  fun w => Ok tt {| fs := fs w; console := console w ++ [(Err, line)];
                    spawned := spawned w; randoms := randoms w |}.

Definition when (b : bool) (m : M unit) : M unit := if b then m else ret tt.

Definition existsSync (path : string) : M bool :=
  fun w => Ok (bool_decide (is_Some (fs w !! path))) w.

(** [fs.readFileSync(path, 'utf8')]; throws when the file is absent. *)
Definition readFileSync (path : string) : M string :=
  fun w => match fs w !! path with
           | Some content => Ok content w
           | None => Throw "ENOENT" w
           end.

Definition writeFileSync (path content : string) : M unit :=
  fun w => Ok tt {| fs := <[path := content]> (fs w); console := console w;
                    spawned := spawned w; randoms := randoms w |}.

(** [fs.unlinkSync(path)]; throws when the file is absent. *)
Definition unlinkSync (path : string) : M unit :=
  fun w => match fs w !! path with
           | Some _ => Ok tt {| fs := delete path (fs w); console := console w;
                                spawned := spawned w; randoms := randoms w |}
           | None => Throw "ENOENT" w
           end.

(** [rimraf.sync(dir)]: the directory and everything below it go. *)
Definition rimraf_sync (dir : string) : M unit :=
  fun w => Ok tt {| fs := filter (fun kv => JS.startsWith (dir +:+ "/") kv.1 = false
                                            /\ kv.1 <> dir) (fs w);
                    console := console w;
                    spawned := spawned w; randoms := randoms w |}.

Definition Math_random_int (ext : Externals) : M nat :=
  fun w => Ok (randInt ext (randoms w))
              {| fs := fs w; console := console w;
                 spawned := spawned w; randoms := S (randoms w) |}.

Definition spawn (ext : Externals) (command : string) (args : list string) : M SpawnResult :=
  fun w => let '(r, files) := spawnSync ext (spawned w) command args (fs w) in
           Ok r {| fs := files; console := console w;
                   spawned := S (spawned w); randoms := randoms w |}.

(** [Boolean(exitCode)] and [String(exitCode)] of a [number | null]. *)
Definition truthy (exitCode : option Z) : bool :=
  match exitCode with Some c => negb (c =? 0) | None => false end.

Definition show (exitCode : option Z) : string :=
  match exitCode with Some c => pretty c | None => "null" end.

Definition weekdays : list string := ["Mon"; "Tue"; "Wed"; "Thu"; "Fri"; "Sat"; "Sun"].

(** [/^(Mon|Tue|Wed|Thu|Fri|Sat|Sun)/.test(line)] *)
Definition startsWithWeekday (line : string) : bool :=
  existsb (fun d => JS.startsWith d line) weekdays.

(** [/:(warn|error)/.test(line)] *)
Definition hasMarker (line : string) : bool :=
  JS.includes ":warn" line || JS.includes ":error" line.

(** [new Date().toUTCString().length]: the string has the fixed layout
    [Www, dd Mmm yyyy hh:mm:ss GMT] for every date of a four-digit year. *)
Definition timestampLength : nat := String.length "Tue, 03 Nov 2026 01:24:00 GMT".

Definition stripTimestamp (line : string) : string :=
  if startsWithWeekday line then JS.substr (timestampLength + 1) line else line.

(** The [map]/[filter] pipeline of [runLighthouse] on the split lines. *)
Definition normalizeLines (lines : list string) : list string :=
  filter (fun line => hasMarker line = true) (map stripTimestamp lines).

Definition normalizeStderr (stderr : string) : list string :=
  normalizeLines (JS.split JS.LF stderr).

(** *** [runLighthouse] *)

Definition outputPathOf (randInt : nat) : string :=
  "smokehouse-" +:+ pretty randInt +:+ ".report.json".

Definition artifactsDirectoryOf (randInt : nat) : string :=
  "./.tmp/smokehouse-artifacts-" +:+ pretty randInt.

Definition lighthouseArgs (ext : Externals) (url configPath : string) (randInt : nat)
  : list string :=
  [ "lighthouse-cli/index.js";
    url;
    "--config-path=" +:+ configPath;
    "--output-path=" +:+ outputPathOf randInt;
    "--output=json";
    "-G=" +:+ artifactsDirectoryOf randInt;
    "-A=" +:+ artifactsDirectoryOf randInt;
    "--port=0" ]
  ++ (if env_APPVEYOR ext then ["--throttling.cpuSlowdownMultiplier=1"] else []).

Definition retryMessage : string :=
  "  Lighthouse error: timed out waiting for debugger connection. Retrying...".

Definition commandLine (ext : Externals) (command : string) (args : list string) : string :=
  log_dim ext +:+ "$ " +:+ command +:+ " " +:+ JS.join " " args +:+ " " +:+ log_reset ext.

(** The [do ... while] loop; [fuel] bounds the iterations, [runCount] is
    the loop's counter on entry to the body. *)
Fixpoint spawnLoop (ext : Externals) (fuel : nat) (args : list string) (runCount : nat)
  : M SpawnResult :=
  match fuel with
  | O => fun _ => OutOfFuel
  | S fuel' =>
      when (0 <? runCount)%nat (console_log retryMessage) ;;
      let runCount := S runCount in
      console_log (commandLine ext "node" args) ;;
      let* runResults := spawn ext "node" args in
      if bool_decide (status runResults = Some PROTOCOL_TIMEOUT_EXIT_CODE)
         && (runCount <=? RETRIES)%nat
      then spawnLoop ext fuel' args runCount
      else ret runResults
  end.

Definition inconsistencyMessage (exitCode : option Z) (lhr : LH.Result) : string :=
  "Lighthouse did not exit with an error correctly, exiting with " +:+ show exitCode
  +:+ " but with runtimeError '"
  +:+ match LH.runtimeError lhr with Some e => LH.code e | None => "undefined" end
  +:+ "'".

Definition runLighthouse (ext : Externals) (url configPath : string) (isDebug : bool)
  : M RunnerResult :=
  let isDebug := isDebug || env_LH_SMOKE_DEBUG ext in
  let* randInt := Math_random_int ext in
  let outputPath := outputPathOf randInt in
  let artifactsDirectory := artifactsDirectoryOf randInt in
  let args := lighthouseArgs ext url configPath randInt in
  let* runResults := spawnLoop ext (S RETRIES) args 0 in
  when isDebug
    (console_log ("STDOUT: " +:+ stdout runResults) ;;
     console_error ("STDERR: " +:+ sp_stderr runResults)) ;;
  let exitCode := status runResults in
  (if bool_decide (exitCode = Some PROTOCOL_TIMEOUT_EXIT_CODE) then
     console_error ("Lighthouse debugger connection timed out " +:+ pretty RETRIES
                    +:+ " times. Giving up.") ;;
     process_exit (Some 1)
   else
     let* outputExists := existsSync outputPath in
     if negb outputExists then
       console_error ("Lighthouse run failed to produce a report and exited with "
                      +:+ show exitCode +:+ ". stderr to follow:") ;;
       console_error (sp_stderr runResults) ;;
       process_exit exitCode
     else ret tt) ;;
  let* json := readFileSync outputPath in
  let* lhr := match JSON_parse_lhr ext json with
              | Some lhr => ret lhr
              | None => throw "SyntaxError"
              end in
  let* artifacts := fun w => match loadArtifacts ext (fs w) artifactsDirectory with
                             | Some a => Ok a w
                             | None => Throw "loadArtifacts" w
                             end in
  (if isDebug then
     console_log ("LHR output available at:  " +:+ outputPath) ;;
     console_log ("Artifacts avaiable in:  " +:+ artifactsDirectory)
   else
     unlinkSync outputPath ;;
     rimraf_sync artifactsDirectory) ;;
  (if negb (Bool.eqb (truthy exitCode) (bool_decide (is_Some (LH.runtimeError lhr)))) then
     console_error (inconsistencyMessage exitCode lhr) ;;
     process_exit (Some 1)
   else ret tt) ;;
  ret {| r_lhr := lhr;
         r_artifacts := artifacts;
         r_stderr := normalizeStderr (sp_stderr runResults) |}.

(** *** [getSnapshotPath] *)

Definition getSnapshotPath (ext : Externals) (expected : Expected) : M string :=
  match URL_new ext (e_requestedUrl (lhr expected)) with
  | None => throw "TypeError: Invalid URL"
  | Some url =>
      let searchHash :=
        if JS.nonempty (URL_search url)
        then JS.take 6 (Crypto.md5_hex "url.search")
        else URL_search url in
      let url := URL_clear_search url in
      let escapedUrl := JS.escape_non_alnum (URL_href url) in
      let filename :=
        escapedUrl +:+ "_" +:+ (if JS.nonempty searchHash then searchHash else "")
        +:+ ".json" in
      ret (dirname ext +:+ "/snapshots/" +:+ filename)
  end.

(** *** The report step *)

(** Modelled from the spec: [smokehouse-report.js], which defines
    [collateResults] and [report], is not among the sources.  The spec has
    the step compare the structured result with the expected result and the
    error lines with the snapshot, and produce a pass/failed count pair; an
    expectation whose error lines are left unset skips the error-line
    comparison.  The structured comparison is the external [compareLhr]. *)
Definition compareStderr (actual : list string) (expected : option (list string)) : Counts :=
  match expected with
  | None => {| passed := 0; failed := 0 |}
  | Some lines =>
      if bool_decide (actual = lines)
      then {| passed := 1; failed := 0 |}
      else {| passed := 0; failed := 1 |}
  end.

(** Modelled from the spec: [report(collateResults(results, expected))], see
    [compareStderr]. *)
Definition report (ext : Externals) (results : RunnerResult) (expected : Expected) : Counts :=
  let c := compareLhr ext results (lhr expected) in
  let d := compareStderr (r_stderr results) (stderr expected) in
  {| passed := passed c + passed d; failed := failed c + failed d |}.

(** The exit status of the Node process: [process.exit(code)] with a
    [null] code exits with 0, an uncaught exception with 1. *)
Definition exitStatus {A} (o : Outcome A) : option Z :=
  match o with
  | Ok _ _ => Some 0
  | Exit (Some c) _ => Some c
  | Exit None _ => Some 0
  | Throw _ _ => Some 1
  | OutOfFuel => None
  end.

(** *** The loop over the expectations *)

Definition set_stderr (expected : Expected) (lines : list string) : Expected :=
  {| lhr := lhr expected; stderr := Some lines |}.

(** The body of [expectations.forEach]: the expectation as the body leaves
    it, and the counts of its report. *)
Definition processExpectation (ext : Externals) (expected : Expected)
  : M (Expected * Counts) :=
  let url := e_requestedUrl (lhr expected) in
  let updateSnaphots := cli_u ext in
  console_log ("Doing a run of '" +:+ url +:+ "'...") ;;
  let* results := runLighthouse ext url (configPath ext) (cli_debug ext) in
  (if bool_decide (is_Some (stderr expected))
   then throw "Do not set `stderr` directly." else ret tt) ;;
  let* snapshotPath := getSnapshotPath ext expected in
  let* snapshotExists := existsSync snapshotPath in
  let* expected :=
    if snapshotExists then
      if updateSnaphots then
        console_log ("Updated snapshot: " +:+ snapshotPath) ;;
        writeFileSync snapshotPath (JS.JSON_stringify_lines (r_stderr results)) ;;
        ret (set_stderr expected (r_stderr results))
      else
        let* expectedStderrJson := readFileSync snapshotPath in
        match JSON_parse_lines ext expectedStderrJson with
        | Some lines => ret (set_stderr expected lines)
        | None => throw "SyntaxError"
        end
    else
      if updateSnaphots then
        console_log ("Created snapshot: " +:+ snapshotPath) ;;
        writeFileSync snapshotPath (JS.JSON_stringify_lines (r_stderr results)) ;;
        ret (set_stderr expected (r_stderr results))
      else
        console_log ("Missing snapshot (run with -u to create): " +:+ snapshotPath) ;;
        ret expected in
  console_log ("Asserting expected results match those found. (" +:+ url +:+ ")") ;;
  ret (expected, report ext results expected).

(** [expectations.forEach(...)] with the two counters; the elements of the
    array are taken to be distinct objects, and come back as the loop leaves
    them. *)
Fixpoint forEach (ext : Externals) (expectations : list Expected)
  (passingCount failingCount : nat) : M (list Expected * (nat * nat)) :=
  match expectations with
  | [] => ret ([], (passingCount, failingCount))
  | expected :: more =>
      let* r := processExpectation ext expected in
      let* rs := forEach ext more (passingCount + passed r.2)%nat
                                  (failingCount + failed r.2)%nat in
      ret (r.1 :: rs.1, rs.2)
  end.

(** The script from the loop on. *)
Definition main (ext : Externals) (expectations : list Expected) : M unit :=
  let* r := forEach ext expectations 0 0 in
  let passingCount := r.2.1 in
  let failingCount := r.2.2 in
  when (0 <? passingCount)%nat
    (console_log (greenify ext (pretty passingCount +:+ " passing"))) ;;
  if (0 <? failingCount)%nat then
    console_log (redify ext (pretty failingCount +:+ " failing")) ;;
    process_exit (Some 1)
  else ret tt.

End Smokehouse.

(** ** timings.js *)

Module Timings.

(** *** Numbers *)

(** The number of an array length. *)
Definition of_nat (n : nat) : float := PrimFloat.of_uint63 (Uint63.of_Z (Z.of_nat n)).

Definition two52 : float := 4503599627370496%float.

(** [Math.floor]: below [2^52] in magnitude, adding and subtracting [2^52]
    rounds to an integer, which is lowered when it lies above [x];
    from [2^52] on every number is integral. *)
Definition Math_floor (x : float) : float :=
  if negb (PrimFloat.is_finite x) || PrimFloat.is_zero x || (two52 <=? PrimFloat.abs x)%float then x
  else
    let t := if (x <? 0)%float then ((x - two52) + two52)%float
             else ((x + two52) - two52)%float in
    if (x <? t)%float then (t - 1)%float else t.

(** [Math.round]: the nearest integral number, the one towards [+∞] on a
    tie; [+0] and [-0] for the arguments that round to zero. *)
Definition Math_round (x : float) : float :=
  if negb (PrimFloat.is_finite x) then x
  else
    let f := Math_floor x in
    if (f =? x)%float then x
    else if (0 <? x)%float && (x <? 0.5)%float then PrimFloat.zero
    else if (x <? 0)%float && (-0.5 <=? x)%float then PrimFloat.neg_zero
    else if (x - f <? 0.5)%float then f else (f + 1)%float.

(** One step of [Math.min] and [Math.max]: a NaN wins, [-0] is below [+0]. *)
Definition min2 (lowest x : float) : float :=
  if PrimFloat.is_nan lowest || PrimFloat.is_nan x then PrimFloat.nan
  else if (x <? lowest)%float then x
  else if (x =? lowest)%float && PrimFloat.get_sign x then x
  else lowest.

Definition max2 (highest x : float) : float :=
  if PrimFloat.is_nan highest || PrimFloat.is_nan x then PrimFloat.nan
  else if (highest <? x)%float then x
  else if (x =? highest)%float && negb (PrimFloat.get_sign x) then x
  else highest.

(** [Math.min(...values)] and [Math.max(...values)]. *)
Definition Math_min (values : list float) : float := fold_left min2 values PrimFloat.infinity.
Definition Math_max (values : list float) : float := fold_left max2 values PrimFloat.neg_infinity.

(** [x ** 2], which V8's [pow] computes as the product. *)
Definition square (x : float) : float := (x * x)%float.

(** *** [average] and [round] *)

(** [values.reduce((sum, value) => sum + value)]: a [TypeError] ([None]) on
    the empty array. *)
Definition reduce_sum (values : list float) : option float :=
  match values with
  | [] => None
  | first :: more => Some (fold_left PrimFloat.add more first)
  end.

Definition average (values : list float) : option float :=
  sum ← reduce_sum values;
  Some (sum / of_nat (length values))%float.

(** Round to the tenth. *)
Definition round (value : float) : float := (Math_round (value * 10) / 10)%float.

(** *** The samples per key *)

(** [measuresMap]: a [Map] from key to array, in insertion order. *)
Definition MeasuresMap := list (string * list float).

Fixpoint Map_get (key : string) (m : MeasuresMap) : option (list float) :=
  match m with
  | [] => None
  | (k, measures) :: m' => if String.eqb k key then Some measures else Map_get key m'
  end.

(** [measuresMap.set(key, measures)]: a new key goes last, an old one keeps
    its place. *)
Fixpoint Map_set (key : string) (measures : list float) (m : MeasuresMap) : MeasuresMap :=
  match m with
  | [] => [(key, measures)]
  | (k, old) :: m' =>
      if String.eqb k key then (k, measures) :: m' else (k, old) :: Map_set key measures m'
  end.

(** [measures.push(d)] on the array the map holds under [key]. *)
Fixpoint Map_push (key : string) (d : float) (m : MeasuresMap) : MeasuresMap :=
  match m with
  | [] => []
  | (k, measures) :: m' =>
      if String.eqb k key then (k, measures ++ [d]) :: m' else (k, measures) :: Map_push key d m'
  end.

Definition measuresKeyOf (lhr : LH.Result) (measureName : string) : string :=
  LH.requestedUrl lhr +:+ "@@@" +:+ measureName.

(** The body of the inner loop for one [measureName]; [None] is the thrown
    [Error('missing measure')].  [measureFilter] is the test of the
    case-insensitive pattern, when one was given. *)
Definition addMeasure (measureFilter : option (string -> bool)) (lhr : LH.Result)
  (measuresMap : MeasuresMap) (measureName : string) : option MeasuresMap :=
  if match measureFilter with Some test => negb (test measureName) | None => false end
  then Some measuresMap
  else
    let measuresKey := measuresKeyOf lhr measureName in
    let measuresMap :=
      match Map_get measuresKey measuresMap with
      | Some _ => measuresMap
      | None => Map_set measuresKey [] measuresMap
      end in
    match find (fun measure => String.eqb (LH.name measure) measureName)
               (LH.timing_entries lhr) with
    | None => None
    | Some measureEntry => Some (Map_push measuresKey (LH.duration measureEntry) measuresMap)
    end.

(** The inner loop over [lhr.timing.entries.map(entry => entry.name)]. *)
Definition addLhr (measureFilter : option (string -> bool)) (measuresMap : MeasuresMap)
  (lhr : LH.Result) : option MeasuresMap :=
  foldl (fun acc measureName => m ← acc; addMeasure measureFilter lhr m measureName)
        (Some measuresMap) (map LH.name (LH.timing_entries lhr)).

(** The outer loop over the result files of the collection, in the order of
    [readdirSync]. *)
Definition collectMeasures (measureFilter : option (string -> bool)) (lhrs : list LH.Result)
  : option MeasuresMap :=
  foldl (fun acc lhr => m ← acc; addLhr measureFilter m lhr) (Some []) lhrs.

(** *** The rows *)

(** A row of the summary; the script-level revision calls [measure]
    [measureName]. *)
Record Row := {
  measure : string;
  url : string;
  n : nat;
  mean : float;
  stdev : float;
  min : float;
  max : float;
}.

(** [const [url, measureName] = measuresKey.split('@@@')] *)
Definition splitKey (measuresKey : string) : string * string :=
  let parts := JS.split "@@@" measuresKey in
  (nth 0 parts "undefined", nth 1 parts "undefined").

Definition variance (measures : list float) (mean : float) : option float :=
  average (map (fun measure => square (measure - mean)) measures).

(** The row of [summarize()]. *)
Definition rowOf (entry : string * list float) : option Row :=
  let '(measuresKey, measures) := entry in
  let '(url, measureName) := splitKey measuresKey in
  mean ← average measures;
  let min := Math_min measures in
  let max := Math_max measures in
  v ← variance measures mean;
  let stdev := PrimFloat.sqrt v in
  Some {| measure := measureName; url := url; n := length measures;
          mean := round mean; stdev := round stdev;
          min := round min; max := round max |}.

(** The row of the script-level revision. *)
Definition rowOf_script (entry : string * list float) : option Row :=
  let '(measuresKey, measures) := entry in
  let '(url, measureName) := splitKey measuresKey in
  mean ← average measures;
  let min := Math_min measures in
  let max := Math_max measures in
  v ← variance measures mean;
  let stdev := PrimFloat.sqrt v in
  Some {| measure := measureName; url := url; n := length measures;
          mean := round mean; stdev := round stdev;
          min := min; max := max |}.

(** *** Sorting *)

(** [Array.prototype.sort(compare)], a stable sort: by insertion, an element
    going before the first one it does not come after. *)
Fixpoint insert {A} (compare : A -> A -> comparison) (x : A) (l : list A) : list A :=
  match l with
  | [] => [x]
  | y :: l' =>
      match compare x y with
      | Gt => y :: insert compare x l'
      | _ => x :: y :: l'
      end
  end.

Definition sort {A} (compare : A -> A -> comparison) (l : list A) : list A :=
  foldr (insert compare) [] l.

Section Summarize.

(** [a.localeCompare(b)]: the sign of the comparison in the default locale. *)
Variable localeCompare : string -> string -> comparison.

(** sort by {measure, url} *)
Definition compareRows (a b : Row) : comparison :=
  match localeCompare (measure a) (measure b) with
  | Eq => localeCompare (url a) (url b)
  | measureComp => measureComp
  end.

Definition compareRows_script (a b : Row) : comparison :=
  localeCompare (measure a) (measure b).

(** [summarize()] up to the printing: the rows, or [None] for a thrown
    error. *)
Definition summarize (measureFilter : option (string -> bool)) (lhrs : list LH.Result)
  : option (list Row) :=
  measuresMap ← collectMeasures measureFilter lhrs;
  results ← mapM rowOf measuresMap;
  Some (sort compareRows results).

(** The [argv.summarize] block of the script-level revision. *)
Definition summarize_script (measureFilter : option (string -> bool)) (lhrs : list LH.Result)
  : option (list Row) :=
  measuresMap ← collectMeasures measureFilter lhrs;
  results ← mapM rowOf_script measuresMap;
  Some (sort compareRows_script results).

End Summarize.

End Timings.

(** ** timings.js: the collection *)

Module Collection.

(** The options of the command line that the collection reads; [urls] is
    [None] when [--urls] was not given; [runs] is the number of turns that
    [i < argv.n] allows from [i = 0] on: [argv.n] itself when that is a
    natural number, none when [-n] was not given. *)
Record Argv := {
  name : string;
  urls : option (list string);
  runs : nat;
  lhFlags : string;
}.

(** The paths that exist, directories and files alike, and the commands run
    so far. *)
Record Disk := {
  paths : gset string;
  ran : list string;
}.

(** How a piece of the script ends: normally, or with an uncaught error. *)
Inductive Run : Type :=
| Finished (w : Disk)
| Thrown (error : string) (w : Disk).

Definition andThen (r : Run) (k : Disk -> Run) : Run :=
  match r with
  | Finished w => k w
  | Thrown error w => Thrown error w
  end.

Definition existsSync (path : string) (w : Disk) : bool := bool_decide (path ∈ paths w).

(** [fs.mkdirSync(path)], the parent being there. *)
Definition mkdirSync (path : string) (w : Disk) : Run :=
  if existsSync path w then Thrown "EEXIST" w
  else Finished {| paths := {[ path ]} ∪ paths w; ran := ran w |}.

(** Whether [path] is [dir] or lies below it. *)
Definition within (dir path : string) : bool :=
  String.eqb path dir || JS.startsWith (dir +:+ "/") path.

(** [rimraf.sync(dir)] *)
Definition rimraf_sync (dir : string) (w : Disk) : Run :=
  Finished {| paths := filter (fun path => within dir path = false) (paths w); ran := ran w |}.

Section Script.

(** [__dirname] *)
Variable dirname : string.

(** [execSync(cmd, {stdio: 'ignore'})] as the [k]-th command of the script:
    whether the command exits with status 0, and the paths it leaves. *)
Variable exec : nat -> string -> gset string -> bool * gset string.

Variable argv : Argv.

Definition LH_ROOT : string := dirname +:+ "/../..".
Definition ROOT_OUTPUT_DIR : string := LH_ROOT +:+ "/timings-data".
Definition outputDir : string := ROOT_OUTPUT_DIR +:+ "/" +:+ name argv.

(** An exit status other than 0 makes [execSync] throw. *)
Definition execSync (cmd : string) (w : Disk) : Run :=
  let '(ok, files) := exec (length (ran w)) cmd (paths w) in
  let w' := {| paths := files; ran := ran w ++ [cmd] |} in
  if ok then Finished w' else Thrown ("Command failed: " +:+ cmd) w'.

Definition reportPath (url : string) (i : nat) : string :=
  outputDir +:+ "/lhr-" +:+ JS.escape_non_alnum url +:+ "-" +:+ pretty i +:+ ".json".

Definition command (url : string) (i : nat) : string :=
  JS.join " "
    ["node";
     LH_ROOT +:+ "/lighthouse-cli";
     url;
     "--output-path=" +:+ reportPath url i;
     "--output=json";
     lhFlags argv].

(** [for (let i = ...; i < argv.n; i++)] with [todo] turns to go. *)
Fixpoint forRuns (url : string) (todo i : nat) (w : Disk) : Run :=
  match todo with
  | O => Finished w
  | S todo' => andThen (execSync (command url i) w) (forRuns url todo' (S i))
  end.

Fixpoint forUrls (us : list string) (w : Disk) : Run :=
  match us with
  | [] => Finished w
  | url :: more => andThen (forRuns url (runs argv) 0 w) (forUrls more)
  end.

(** [for (const url of argv.urls)]: a [TypeError] when there are no URLs to
    iterate. *)
Definition loops (w : Disk) : Run :=
  match urls argv with
  | None => Thrown "TypeError" w
  | Some us => forUrls us w
  end.

Definition ensureRoot (w : Disk) : Run :=
  if negb (existsSync ROOT_OUTPUT_DIR w) then mkdirSync ROOT_OUTPUT_DIR w else Finished w.

(** [collect()] *)
Definition collect (w : Disk) : Run :=
  andThen (ensureRoot w) (fun w =>
  if existsSync outputDir w then Thrown ("folder already exists: " +:+ outputDir) w
  else
    andThen (mkdirSync outputDir w) loops).

(** The [argv.collect] block of the script-level revision. *)
Definition collect_script (w : Disk) : Run :=
  andThen (ensureRoot w) (fun w =>
  andThen (if existsSync outputDir w then rimraf_sync outputDir w else Finished w) (fun w =>
  andThen (mkdirSync outputDir w) loops)).

End Script.

End Collection.

(** ** Fixtures: a scripted tool and simple library stand-ins *)

Module Fixtures.
Import Smokehouse.

(** [s] cut at the first [c]. *)
Fixpoint cut (c : ascii) (s : string) : string * option string :=
  match s with
  | EmptyString => (EmptyString, None)
  | String a s' =>
      if Ascii.eqb a c then (EmptyString, Some s')
      else let '(h, t) := cut c s' in (String a h, t)
  end.

(** The record of a URL that is already in its serialized form. *)
Definition parseURL (s : string) : option URL :=
  let '(beforeHash, frag) := cut "#" s in
  let '(p, q) := cut "?" beforeHash in
  Some {| pre := p; query := q; fragment := frag |}.

Definition lhrOk : LH.Result :=
  {| LH.requestedUrl := "https://x.test/"; LH.runtimeError := None;
     LH.timing_entries := []; LH.rest := "" |}.

Definition lhrFailed : LH.Result :=
  {| LH.requestedUrl := "https://x.test/";
     LH.runtimeError := Some {| LH.code := "NO_FCP"; LH.message := "" |};
     LH.timing_entries := []; LH.rest := "" |}.

(** Reports are the two texts [ok] and [failed]. *)
Definition parseReport (json : string) : option LH.Result :=
  if String.eqb json "ok" then Some lhrOk
  else if String.eqb json "failed" then Some lhrFailed
  else None.

(** A tool whose [n]-th run exits with the scripted status and error
    stream and writes the scripted report, if any, to the path of its
    [--output-path] argument. *)
Definition tool (script : nat -> option Z * string * option string)
  (n : nat) (command : string) (args : list string) (files : gmap string string)
  : SpawnResult * gmap string string :=
  let '(exitCode, errors, written) := script n in
  let outputPath := JS.substr 14 (nth 3 args "") in
  ({| status := exitCode; stdout := ""; sp_stderr := errors |},
   match written with Some json => <[outputPath := json]> files | None => files end).

Definition externals (script : nat -> option Z * string * option string) (u : bool)
  : Externals :=
  {| spawnSync := tool script;
     randInt := fun k => (k + 1)%nat;
     URL_new := parseURL;
     JSON_parse_lhr := parseReport;
     JSON_parse_lines := fun _ => None;
     loadArtifacts := fun _ _ => Some ∅;
     compareLhr := fun _ _ => {| passed := 1; failed := 0 |};
     log_dim := ""; log_reset := "";
     greenify := fun s => s; redify := fun s => s;
     dirname := "/smokehouse";
     configPath := "/smokehouse/config.js";
     cli_u := u;
     cli_debug := false;
     env_LH_SMOKE_DEBUG := false;
     env_APPVEYOR := false |}.

Definition world0 : World := {| fs := ∅; console := []; spawned := 0; randoms := 0 |}.

Definition expectation (requestedUrl : string) : Expected :=
  {| lhr := {| e_requestedUrl := requestedUrl; e_rest := "" |}; stderr := None |}.

(** The tool times out on every run, each time leaving a report that
    carries a runtime error. *)
Definition alwaysTimesOut (n : nat) : option Z * string * option string :=
  (Some 67, "", Some "failed").

(** The tool succeeds at once and warns on its error stream. *)
Definition succeeds (n : nat) : option Z * string * option string :=
  (Some 0, "Tue, 03 Nov 2026 01:24:00 GMT   status:warn slow", Some "ok").

(** The tool exits with status 1 and leaves a report without a runtime
    error. *)
Definition failsWithoutError (n : nat) : option Z * string * option string :=
  (Some 1, "", Some "ok").

End Fixtures.

(** * Properties *)

(** ** String primitives *)

Module JSFacts.
Import JS.

(** [p] occurs in [s]. *)
Definition Occurs (p s : string) : Prop := exists a b, s = a +:+ p +:+ b.

Lemma app_String a s t : String a s +:+ t = String a (s +:+ t).
Proof. reflexivity. Qed.

Lemma app_empty_l s : "" +:+ s = s.
Proof. reflexivity. Qed.

Lemma app_empty_r s : s +:+ "" = s.
Proof. induction s as [|a s IH]; [reflexivity | rewrite app_String, IH; reflexivity]. Qed.

Lemma app_assoc' s t u : (s +:+ t) +:+ u = s +:+ t +:+ u.
Proof. induction s as [|a s IH]; [reflexivity | rewrite !app_String, IH; reflexivity]. Qed.

Lemma length_app s t : String.length (s +:+ t) = (String.length s + String.length t)%nat.
Proof. induction s as [|a s IH]; [reflexivity | rewrite app_String; simpl; rewrite IH; reflexivity]. Qed.

Lemma startsWith_spec p s : startsWith p s = true <-> exists r, s = p +:+ r.
Proof.
  revert s. induction p as [|a p IH]; intros s; simpl.
  - split; [intros _; exists s; reflexivity | reflexivity].
  - destruct s as [|b s].
    + split; [discriminate | intros [r Hr]; discriminate].
    + destruct (Ascii.eqb a b) eqn:E.
      * apply Ascii.eqb_eq in E. subst b. rewrite IH. split.
        -- intros [r ->]. exists r. reflexivity.
        -- intros [r Hr]. rewrite app_String in Hr. injection Hr as ->. exists r. reflexivity.
      * apply Ascii.eqb_neq in E. split; [discriminate |].
        intros [r Hr]. rewrite app_String in Hr. injection Hr as -> _. congruence.
Qed.

Lemma includes_spec p s : includes p s = true <-> Occurs p s.
Proof.
  induction s as [|c s IH].
  - simpl. rewrite orb_false_r, startsWith_spec. split.
    + intros [r Hr]. exists "", r. exact Hr.
    + intros (a & b & H). destruct a as [|x a]; [exists b; exact H | discriminate].
  - cbn [includes]. rewrite orb_true_iff, IH, startsWith_spec. split.
    + intros [[r Hr] | (a & b & H)].
      * exists "", r. exact Hr.
      * exists (String c a), b. rewrite app_String, <- H. reflexivity.
    + intros (a & b & H). destruct a as [|x a].
      * left. exists b. exact H.
      * right. rewrite app_String in H. injection H as -> H. exists a, b. exact H.
Qed.

Lemma includes_false p s : includes p s = false <-> ~ Occurs p s.
Proof. rewrite <- includes_spec. destruct (includes p s); split; congruence. Qed.

(** [substr n] drops exactly [n] code units, or everything when there are
    fewer. *)
Lemma substr_spec n s :
  (exists p, s = p +:+ substr n s /\ String.length p = n) \/
  ((String.length s < n)%nat /\ substr n s = "").
Proof.
  revert s. induction n as [|n IH]; intros s.
  - left. exists "". split; reflexivity.
  - destruct s as [|c s]; simpl.
    + right. split; [lia | reflexivity].
    + destruct (IH s) as [(p & Hp & Hl) | [Hl He]].
      * left. exists (String c p). rewrite app_String, <- Hp. simpl. auto.
      * right. split; [lia | exact He].
Qed.

(** Splitting at line feeds. *)
Lemma split_LF_cons c s :
  split LF (String c s) =
  if Ascii.eqb "010" c then "" :: split LF s
  else match split LF s with l :: ls => String c l :: ls | [] => [String c ""] end.
Proof.
  unfold split. cbn [split_go LF startsWith String.length Nat.sub].
  destruct (Ascii.eqb "010" c); reflexivity.
Qed.

Lemma split_LF_nonempty s : split LF s <> [].
Proof.
  induction s as [|c s IH]; [discriminate |].
  rewrite split_LF_cons. destruct (Ascii.eqb "010" c); [discriminate |].
  destruct (split LF s); [contradiction | discriminate].
Qed.

Lemma join_cons sep l ls : ls <> [] -> join sep (l :: ls) = l +:+ sep +:+ join sep ls.
Proof. destruct ls; [contradiction | reflexivity]. Qed.

(** Joining the lines with line feeds gives the text back. *)
Lemma join_split_LF s : join LF (split LF s) = s.
Proof.
  induction s as [|c s IH]; [reflexivity |].
  rewrite split_LF_cons. pose proof (split_LF_nonempty s) as Hne.
  destruct (Ascii.eqb "010" c) eqn:E.
  - apply Ascii.eqb_eq in E. subst c. rewrite join_cons by exact Hne. rewrite IH. reflexivity.
  - destruct (split LF s) as [|l ls] eqn:Hs; [contradiction |].
    destruct ls as [|l' ls].
    + simpl in *. congruence.
    + rewrite join_cons by discriminate. rewrite join_cons in IH by discriminate.
      rewrite app_String, IH. reflexivity.
Qed.

Lemma includes_LF_cons c s :
  includes LF (String c s) = Ascii.eqb "010" c || includes LF s.
Proof. cbn [includes startsWith LF]. destruct (Ascii.eqb "010" c); reflexivity. Qed.

(** No line holds a line feed. *)
Lemma split_LF_lines s : Forall (fun l => includes LF l = false) (split LF s).
Proof.
  induction s as [|c s IH]; [repeat constructor |].
  rewrite split_LF_cons. destruct (Ascii.eqb "010" c) eqn:E.
  - constructor; [reflexivity | exact IH].
  - destruct (split LF s) as [|l ls]; [repeat constructor; rewrite includes_LF_cons, E; reflexivity |].
    inversion IH as [|? ? Hl Hls]; subst. constructor; [| exact Hls].
    rewrite includes_LF_cons, E. exact Hl.
Qed.

End JSFacts.

(** ** The text of a snapshot *)

Module JSONFacts.
Import JS JSFacts.

(** Reading back what [JSON.stringify] wrote, to see that the text
    determines the lines. *)

Definition unhex (c : ascii) : N :=
  let n := N_of_ascii c in
  if (n <? 58)%N then (n - 48)%N else (n - 87)%N.

(** The text of a quoted string up to its closing quote, unescaped, and what
    follows the quote. *)
Fixpoint unquote (s : string) : option (string * string) :=
  match s with
  | EmptyString => None
  | String c s' =>
      if Ascii.eqb c DQUOTE then Some (EmptyString, s')
      else if Ascii.eqb c BACKSLASH then
        match s' with
        | String "u" (String "0" (String "0" (String h (String l s'')))) =>
            '(t, rest) ← unquote s'';
            Some (String (ascii_of_N (16 * unhex h + unhex l)) t, rest)
        | String e s'' =>
            '(t, rest) ← unquote s'';
            let c' := match e with
                      | "b" => "008" | "t" => "009" | "n" => "010"
                      | "f" => "012" | "r" => "013" | _ => e
                      end%char in
            Some (String c' t, rest)
        | EmptyString => None
        end
      else '(t, rest) ← unquote s'; Some (String c t, rest)
  end.

Lemma unquote_quote_char c t :
  unquote (quote_char c +:+ t) = '(u, rest) ← unquote t; Some (String c u, rest).
Proof.
  destruct c as [[] [] [] [] [] [] [] []]; reflexivity.
Qed.

Lemma unquote_quote_chars s rest :
  unquote (quote_chars s +:+ String DQUOTE rest) = Some (s, rest).
Proof.
  induction s as [|c s IH]; [reflexivity |].
  cbn [quote_chars]. rewrite app_assoc', unquote_quote_char, IH. reflexivity.
Qed.


Definition item (line : string) : string := "  " +:+ JSON_quote line.

Definition items (lines : list string) : string := join ("," +:+ LF) (map item lines).

Definition closing : string := LF +:+ "]".

Lemma JSON_stringify_lines_items line lines :
  JSON_stringify_lines (line :: lines) = "[" +:+ LF +:+ items (line :: lines) +:+ closing.
Proof. reflexivity. Qed.

Lemma items_cons line lines rest :
  items (line :: lines) +:+ rest =
  "  " +:+ String DQUOTE (quote_chars line +:+ String DQUOTE
     match lines with
     | [] => rest
     | _ => "," +:+ LF +:+ items lines +:+ rest
     end).
Proof.
  unfold items, item, JSON_quote. destruct lines as [|l ls].
  - cbn [map join]. rewrite app_assoc'. f_equal. rewrite app_String. f_equal.
    rewrite app_assoc'. reflexivity.
  - cbn [map]. rewrite join_cons by discriminate.
    rewrite !app_assoc'. f_equal. rewrite app_String. f_equal.
    rewrite app_assoc'. reflexivity.
Qed.

Lemma items_inj lines1 : forall lines2,
  lines1 <> [] -> lines2 <> [] ->
  items lines1 +:+ closing = items lines2 +:+ closing -> lines1 = lines2.
Proof.
  induction lines1 as [|a l1 IH]; intros [|b l2] H1 H2 H; try contradiction.
  rewrite !items_cons in H. cbn in H. injection H as H.
  pose proof (unquote_quote_chars a
                match l1 with [] => closing | _ => "," +:+ LF +:+ items l1 +:+ closing end) as Ua.
  rewrite H, unquote_quote_chars in Ua. injection Ua as <- Ht.
  destruct l1 as [|a1 l1], l2 as [|b1 l2]; try discriminate Ht; [reflexivity |].
  f_equal. apply IH; try discriminate. cbn in Ht. injection Ht as Ht. symmetry. exact Ht.
Qed.

(** The text [JSON.stringify] writes for an array of strings determines the
    array. *)
Lemma JSON_stringify_lines_inj lines1 lines2 :
  JSON_stringify_lines lines1 = JSON_stringify_lines lines2 -> lines1 = lines2.
Proof.
  destruct lines1 as [|a l1], lines2 as [|b l2]; [reflexivity | | |].
  - rewrite JSON_stringify_lines_items. discriminate.
  - rewrite JSON_stringify_lines_items. discriminate.
  - rewrite !JSON_stringify_lines_items. intros H. cbn in H. injection H as H.
    apply items_inj; [discriminate | discriminate | exact H].
Qed.

End JSONFacts.

(** ** The keys of the summarizer *)

Module KeyFacts.
Import JS JSFacts Timings.

(** The character does not occur in the string. *)
Fixpoint lacks (c : ascii) (s : string) : Prop :=
  match s with
  | EmptyString => True
  | String a s' => a <> c /\ lacks c s'
  end.

Lemma split_go_nonempty sep skip s : split_go sep skip s <> [].
Proof.
  revert skip. induction s as [|c s IH]; intros skip; cbn; [discriminate |].
  destruct skip; [| apply IH].
  destruct (startsWith sep (String c s)); [discriminate |].
  destruct (split_go sep 0 s); discriminate.
Qed.

(** Text without the separator is one part. *)
Lemma split_one s : ~ Occurs "@@@" s -> split "@@@" s = [s].
Proof.
  unfold split. induction s as [|c s IH]; intros Hno; [reflexivity |].
  cbn [split_go]. destruct (startsWith "@@@" (String c s)) eqn:E.
  - exfalso. apply Hno. apply startsWith_spec in E as [r Hr]. exists "", r. exact Hr.
  - rewrite IH; [reflexivity |]. intros (a & b & H). apply Hno.
    exists (String c a), b. rewrite app_String, <- H. reflexivity.
Qed.

(** A key whose URL holds no [@] and whose measure name does not hold the
    separator splits into the URL and the measure name. *)
Lemma splitKey_measuresKeyOf lhr measureName :
  lacks "@" (LH.requestedUrl lhr) -> ~ Occurs "@@@" measureName ->
  splitKey (measuresKeyOf lhr measureName) = (LH.requestedUrl lhr, measureName).
Proof.
  intros Hurl Hname. unfold splitKey, measuresKeyOf, split.
  assert (H : split_go "@@@" 0 (LH.requestedUrl lhr +:+ "@@@" +:+ measureName)
              = [LH.requestedUrl lhr; measureName]).
  { induction (LH.requestedUrl lhr) as [|c u IH].
    - change ("" +:+ "@@@" +:+ measureName) with (String "@" (String "@" (String "@" measureName))).
      cbn. fold (split "@@@" measureName). rewrite (split_one _ Hname). reflexivity.
    - destruct Hurl as [Hc Hu]. rewrite app_String. cbn [split_go startsWith].
      apply Ascii.eqb_neq in Hc. rewrite Ascii.eqb_sym, Hc. rewrite (IH Hu). reflexivity. }
  rewrite H. reflexivity.
Qed.

(** Every key splits into two parts at least, so that both members of the
    row are strings. *)
Lemma split_measuresKeyOf lhr measureName :
  (2 <= length (split "@@@" (measuresKeyOf lhr measureName)))%nat.
Proof.
  assert (Hlen : forall skip s, (1 <= length (split_go "@@@" skip s))%nat).
  { intros skip s. pose proof (split_go_nonempty "@@@" skip s) as H.
    destruct (split_go "@@@" skip s); [exfalso; apply H; reflexivity | cbn; lia]. }
  unfold measuresKeyOf, split. induction (LH.requestedUrl lhr) as [|c u IH].
  - change ("" +:+ "@@@" +:+ measureName) with (String "@" (String "@" (String "@" measureName))).
    cbn. pose proof (Hlen 0%nat measureName). lia.
  - rewrite app_String. cbn [split_go].
    destruct (startsWith "@@@" (String c (u +:+ "@@@" +:+ measureName))).
    + cbn [length]. pose proof (Hlen (String.length "@@@" - 1)%nat (u +:+ "@@@" +:+ measureName)).
      lia.
    + destruct (split_go "@@@" 0 (u +:+ "@@@" +:+ measureName)); cbn in *; lia.
Qed.

End KeyFacts.

(** ** Normalization of the error stream *)

Module NormalizeFacts.
Import JS JSFacts Smokehouse.

(** The line carries a [:warn] or [:error] marker. *)
Definition Marked (line : string) : Prop := Occurs ":warn" line \/ Occurs ":error" line.

(** The line begins with a weekday name. *)
Definition Dated (line : string) : Prop := exists d r, d ∈ weekdays /\ line = d +:+ r.

Lemma hasMarker_spec line : hasMarker line = true <-> Marked line.
Proof. unfold hasMarker, Marked. rewrite orb_true_iff, !includes_spec. reflexivity. Qed.

#[local] Instance Marked_dec line : Decision (Marked line).
Proof.
  destruct (hasMarker line) eqn:E; [left | right]; rewrite <- hasMarker_spec; congruence.
Defined.

Lemma startsWithWeekday_spec line : startsWithWeekday line = true <-> Dated line.
Proof.
  unfold startsWithWeekday, Dated. rewrite existsb_exists. split.
  - intros (d & Hd & H). apply startsWith_spec in H as [r Hr].
    exists d, r. split; [apply list_elem_of_In; exact Hd | exact Hr].
  - intros (d & r & Hd & H). exists d. split; [apply list_elem_of_In; exact Hd |].
    apply startsWith_spec. exists r. exact H.
Qed.

(** What [stripTimestamp] does to a line: a dated line loses its first 30
    code units (all of them when it is shorter), any other line is kept. *)
Definition Stripped (line out : string) : Prop :=
  (Dated line /\
   ((exists p, line = p +:+ out /\ String.length p = 30%nat) \/
    ((String.length line < 30)%nat /\ out = ""))) \/
  (~ Dated line /\ out = line).

Lemma stripTimestamp_spec line : Stripped line (stripTimestamp line).
Proof.
  unfold Stripped, stripTimestamp.
  destruct (startsWithWeekday line) eqn:E.
  - left. split; [apply startsWithWeekday_spec; exact E |].
    exact (substr_spec (timestampLength + 1) line).
  - right. split; [| reflexivity].
    rewrite <- startsWithWeekday_spec, E. discriminate.
Qed.

Lemma normalizeLines_fixed lines :
  Forall (fun l => startsWithWeekday l = false /\ hasMarker l = true) lines ->
  normalizeLines lines = lines.
Proof.
  unfold normalizeLines. induction 1 as [|l ls [Hd Hm] _ IH]; [reflexivity |].
  cbn [map]. unfold stripTimestamp at 1. rewrite Hd.
  rewrite filter_cons_True by exact Hm. rewrite IH. reflexivity.
Qed.

Lemma normalizeLines_marked lines : Forall (fun l => hasMarker l = true) (normalizeLines lines).
Proof.
  apply Forall_forall. intros l Hl. unfold normalizeLines in Hl.
  apply list_elem_of_filter in Hl. tauto.
Qed.

(** C4: the normalized error lines of a raw stream are got by splitting it
    at line feeds, stripping the 30-unit timestamp prefix from each line
    that begins with a weekday name, and keeping exactly the stripped lines
    that carry a [:warn] or [:error] marker, in their order: the result is a
    subsequence of the stripped lines, each of its lines is marked, every
    marked stripped line is in it, and together with the unmarked stripped
    lines it makes up all of them. *)
Theorem normalizeStderr_keeps_marked_lines (raw : string) :
  let lines := split LF raw in
  let stripped := map stripTimestamp lines in
  join LF lines = raw /\
  Forall (fun l => ~ Occurs LF l) lines /\
  Forall2 Stripped lines stripped /\
  sublist (normalizeStderr raw) stripped /\
  (forall l, l ∈ normalizeStderr raw -> Marked l) /\
  (forall l, l ∈ stripped -> Marked l -> l ∈ normalizeStderr raw) /\
  normalizeStderr raw ++ filter (fun l => ~ Marked l) stripped ≡ₚ stripped.
Proof.
  intros lines stripped. unfold normalizeStderr, normalizeLines. fold lines. fold stripped.
  repeat split.
  - apply join_split_LF.
  - eapply Forall_impl; [apply split_LF_lines |]. intros l Hl. apply includes_false. exact Hl.
  - subst stripped. induction lines as [|l ls IH]; constructor;
      [apply stripTimestamp_spec | exact IH].
  - apply sublist_filter.
  - intros l Hl. apply list_elem_of_filter in Hl as [Hm _]. apply hasMarker_spec. exact Hm.
  - intros l Hl Hm. apply list_elem_of_filter. split; [apply hasMarker_spec; exact Hm | exact Hl].
  - rewrite <- (filter_app_complement (fun l => hasMarker l = true) stripped) at 3.
    f_equiv. erewrite list_filter_iff; [reflexivity |].
    intros l. rewrite <- hasMarker_spec. reflexivity.
Qed.

(** C5, as stated, fails: the stream line
    [Tue, 03 Nov 2026 01:24:00 GMT Mon:warn] normalizes to [Mon:warn], which
    begins with a weekday name, so normalizing again strips it to the empty
    line and drops it. *)
Lemma normalizeLines_not_idempotent :
  normalizeLines ["Tue, 03 Nov 2026 01:24:00 GMT Mon:warn"] = ["Mon:warn"] /\
  normalizeLines (normalizeLines ["Tue, 03 Nov 2026 01:24:00 GMT Mon:warn"]) = [] /\
  ~ (forall lines, normalizeLines (normalizeLines lines) = normalizeLines lines).
Proof.
  split; [reflexivity |]. split; [reflexivity |].
  intros H. specialize (H ["Tue, 03 Nov 2026 01:24:00 GMT Mon:warn"]). discriminate H.
Qed.

(** C5, amended: normalizing a normalized sequence again gives the same
    sequence when none of its lines begins with a weekday name. *)
Theorem normalizeLines_idempotent_undated (lines : list string) :
  Forall (fun l => startsWithWeekday l = false) (normalizeLines lines) ->
  normalizeLines (normalizeLines lines) = normalizeLines lines.
Proof.
  intros H. apply normalizeLines_fixed.
  pose proof (normalizeLines_marked lines) as Hm.
  rewrite Forall_forall in *. intros l Hl. split; [apply H | apply Hm]; exact Hl.
Qed.

Lemma normalizeLines_idempotent_undated_witness :
  normalizeLines
    (normalizeLines ["Tue, 03 Nov 2026 01:24:00 GMT   status:warn slow"; "ChromeLauncher"]) =
  normalizeLines ["Tue, 03 Nov 2026 01:24:00 GMT   status:warn slow"; "ChromeLauncher"].
Proof.
  apply (normalizeLines_idempotent_undated
           ["Tue, 03 Nov 2026 01:24:00 GMT   status:warn slow"; "ChromeLauncher"]).
  vm_compute. repeat constructor.
Defined.

End NormalizeFacts.

(** ** The runner *)

Module RunnerFacts.
Import JS Smokehouse.

(** The result and the files of the [i]-th attempt of a retry loop that
    starts with [n0] earlier spawns and the files [files0]. *)
Fixpoint attempt (ext : Externals) (args : list string) (n0 : nat)
  (files0 : gmap string string) (i : nat) : SpawnResult * gmap string string :=
  match i with
  | O => spawnSync ext n0 "node" args files0
  | S j => spawnSync ext (n0 + S j) "node" args (attempt ext args n0 files0 j).2
  end.

Lemma attempt_shift ext args n0 files0 i :
  attempt ext args (S n0) (attempt ext args n0 files0 0).2 i =
  attempt ext args n0 files0 (S i).
Proof.
  induction i as [|i IH]; simpl.
  - rewrite Nat.add_1_r. reflexivity.
  - simpl in IH. rewrite IH. replace (n0 + S (S i))%nat with (S (n0 + S i)) by lia. reflexivity.
Qed.

(** The lines a loop with [k] retries writes after its first command line. *)
Definition retryLines (ext : Externals) (args : list string) (k : nat)
  : list (Stream * string) :=
  concat (replicate k [(Out, retryMessage); (Out, commandLine ext "node" args)]).

Lemma spawnLoop_spec ext args fuel runCount w :
  (runCount <= RETRIES < fuel + runCount)%nat ->
  exists k,
    (k + runCount <= RETRIES)%nat /\
    let res := (attempt ext args (spawned w) (fs w) k).1 in
    spawnLoop ext fuel args runCount w =
      Ok res {| fs := (attempt ext args (spawned w) (fs w) k).2;
                console := console w
                  ++ (if (0 <? runCount)%nat then [(Out, retryMessage)] else [])
                  ++ (Out, commandLine ext "node" args) :: retryLines ext args k;
                spawned := spawned w + S k;
                randoms := randoms w |} /\
    (forall i, (i < k)%nat ->
       status (attempt ext args (spawned w) (fs w) i).1 = Some PROTOCOL_TIMEOUT_EXIT_CODE) /\
    (status res = Some PROTOCOL_TIMEOUT_EXIT_CODE -> (k + runCount)%nat = RETRIES).
Proof.
  revert runCount w. induction fuel as [|fuel IH]; intros runCount w Hfuel; [lia |].
  cbn [spawnLoop]. unfold bind at 1.
  set (w1 := {| fs := fs w;
                console := console w
                  ++ (if (0 <? runCount)%nat then [(Out, retryMessage)] else []);
                spawned := spawned w; randoms := randoms w |}).
  assert (Hw1 : when (0 <? runCount)%nat (console_log retryMessage) w = Ok tt w1).
  { subst w1. unfold when, console_log, ret. destruct (0 <? runCount)%nat; [reflexivity |].
    rewrite app_nil_r. destruct w; reflexivity. }
  rewrite Hw1. unfold bind at 1, console_log at 1. unfold bind at 1, spawn at 1.
  cbn [fs console spawned randoms w1].
  destruct (spawnSync ext (spawned w) "node" args (fs w)) as [r0 files0] eqn:Hsp.
  destruct (bool_decide (status r0 = Some PROTOCOL_TIMEOUT_EXIT_CODE)
            && (S runCount <=? RETRIES)%nat) eqn:Hc.
  - apply andb_true_iff in Hc as [Hst Hle].
    apply bool_decide_eq_true in Hst. apply Nat.leb_le in Hle.
    edestruct (IH (S runCount)) as (k & Hk & Hrun & Hpre & Hlast); [lia |].
    exists (S k). split; [lia |]. cbn zeta in *.
    rewrite Hrun. cbn [fs console spawned randoms].
    assert (Ha : forall i, attempt ext args (S (spawned w)) files0 i
                           = attempt ext args (spawned w) (fs w) (S i)).
    { intros i. rewrite <- attempt_shift. cbn [attempt]. rewrite Hsp. reflexivity. }
    rewrite !Ha. split; [| split].
    + f_equal. f_equal; [| lia].
      rewrite <- !app_assoc. reflexivity.
    + intros [|i] Hi.
      * cbn [attempt]. rewrite Hsp. exact Hst.
      * rewrite <- Ha. apply Hpre. lia.
    + intros H. rewrite <- Ha in H. rewrite Ha in H. specialize (Hlast ltac:(rewrite Ha; exact H)). lia.
  - exists 0%nat. split; [lia |]. cbn zeta. cbn [attempt]. rewrite Hsp. cbn [fst snd].
    unfold ret. split; [| split].
    + f_equal. f_equal; [| lia].
      unfold retryLines. cbn [replicate concat]. rewrite <- app_assoc. reflexivity.
    + intros i Hi. lia.
    + intros H. apply andb_false_iff in Hc as [Hc | Hc].
      * apply bool_decide_eq_false in Hc. contradiction.
      * apply Nat.leb_gt in Hc. lia.
Qed.

Definition afterRandom (w : World) : World :=
  {| fs := fs w; console := console w; spawned := spawned w; randoms := S (randoms w) |}.

Definition logged (line : string) (w : World) : World :=
  {| fs := fs w; console := console w ++ [(Out, line)];
     spawned := spawned w; randoms := randoms w |}.

(** [runLighthouse] from the end of the retry loop on. *)
Definition afterSpawn (ext : Externals) (isDebug : bool) (randInt : nat)
  (runResults : SpawnResult) : M RunnerResult :=
  let outputPath := outputPathOf randInt in
  let artifactsDirectory := artifactsDirectoryOf randInt in
  when isDebug
    (console_log ("STDOUT: " +:+ stdout runResults) ;;
     console_error ("STDERR: " +:+ sp_stderr runResults)) ;;
  let exitCode := status runResults in
  (if bool_decide (exitCode = Some PROTOCOL_TIMEOUT_EXIT_CODE) then
     console_error ("Lighthouse debugger connection timed out " +:+ pretty RETRIES
                    +:+ " times. Giving up.") ;;
     process_exit (Some 1)
   else
     let* outputExists := existsSync outputPath in
     if negb outputExists then
       console_error ("Lighthouse run failed to produce a report and exited with "
                      +:+ show exitCode +:+ ". stderr to follow:") ;;
       console_error (sp_stderr runResults) ;;
       process_exit exitCode
     else ret tt) ;;
  let* json := readFileSync outputPath in
  let* lhr := match JSON_parse_lhr ext json with
              | Some lhr => ret lhr
              | None => throw "SyntaxError"
              end in
  let* artifacts := fun w => match loadArtifacts ext (fs w) artifactsDirectory with
                             | Some a => Ok a w
                             | None => Throw "loadArtifacts" w
                             end in
  (if isDebug then
     console_log ("LHR output available at:  " +:+ outputPath) ;;
     console_log ("Artifacts avaiable in:  " +:+ artifactsDirectory)
   else
     unlinkSync outputPath ;;
     rimraf_sync artifactsDirectory) ;;
  (if negb (Bool.eqb (truthy exitCode) (bool_decide (is_Some (LH.runtimeError lhr)))) then
     console_error (inconsistencyMessage exitCode lhr) ;;
     process_exit (Some 1)
   else ret tt) ;;
  ret {| r_lhr := lhr;
         r_artifacts := artifacts;
         r_stderr := normalizeStderr (sp_stderr runResults) |}.

Lemma runLighthouse_unfold ext url cfg dbg w :
  runLighthouse ext url cfg dbg w =
  match spawnLoop ext (S RETRIES) (lighthouseArgs ext url cfg (randInt ext (randoms w))) 0
                  (afterRandom w) with
  | Ok res w2 => afterSpawn ext (dbg || env_LH_SMOKE_DEBUG ext) (randInt ext (randoms w)) res w2
  | Exit c w' => Exit c w'
  | Throw e w' => Throw e w'
  | OutOfFuel => OutOfFuel
  end.
Proof. reflexivity. Qed.

(** Worlds that differ in the console only. *)
Definition sameButConsole (w w' : World) : Prop :=
  fs w' = fs w /\ spawned w' = spawned w /\ randoms w' = randoms w.

Lemma afterSpawn_timeout ext dbg r res w :
  status res = Some PROTOCOL_TIMEOUT_EXIT_CODE ->
  exists w', afterSpawn ext dbg r res w = Exit (Some 1) w' /\ sameButConsole w w'.
Proof.
  intros H. unfold afterSpawn, bind, when, console_log, console_error, process_exit, ret.
  rewrite H. rewrite bool_decide_eq_true_2 by reflexivity.
  destruct dbg; cbn; eexists; (split; [reflexivity | repeat split]).
Qed.

Lemma afterSpawn_disagree ext dbg r res w json lhr artifacts :
  status res <> Some PROTOCOL_TIMEOUT_EXIT_CODE ->
  fs w !! outputPathOf r = Some json ->
  JSON_parse_lhr ext json = Some lhr ->
  loadArtifacts ext (fs w) (artifactsDirectoryOf r) = Some artifacts ->
  truthy (status res) <> bool_decide (is_Some (LH.runtimeError lhr)) ->
  exists w', afterSpawn ext dbg r res w = Exit (Some 1) w' /\
             spawned w' = spawned w /\ randoms w' = randoms w.
Proof.
  intros H67 Hfile Hparse Hload Hdis.
  unfold afterSpawn, bind, when, console_log, console_error, process_exit, ret,
    existsSync, readFileSync, throw, unlinkSync, rimraf_sync.
  rewrite bool_decide_eq_false_2 by exact H67.
  assert (Hneq : Bool.eqb (truthy (status res)) (bool_decide (is_Some (LH.runtimeError lhr)))
                 = false) by (apply Bool.eqb_false_iff; exact Hdis).
  destruct dbg; cbn; rewrite Hfile; cbn; rewrite ?Hfile; cbn; rewrite Hparse; cbn;
    rewrite Hload; cbn; rewrite ?Hfile; cbn; rewrite Hneq; cbn;
    eexists; (split; [reflexivity | split; reflexivity]).
Qed.

Lemma afterSpawn_agree ext dbg r res w json lhr artifacts :
  status res <> Some PROTOCOL_TIMEOUT_EXIT_CODE ->
  fs w !! outputPathOf r = Some json ->
  JSON_parse_lhr ext json = Some lhr ->
  loadArtifacts ext (fs w) (artifactsDirectoryOf r) = Some artifacts ->
  truthy (status res) = bool_decide (is_Some (LH.runtimeError lhr)) ->
  exists w', afterSpawn ext dbg r res w =
               Ok {| r_lhr := lhr; r_artifacts := artifacts;
                     r_stderr := normalizeStderr (sp_stderr res) |} w' /\
             spawned w' = spawned w /\ randoms w' = randoms w.
Proof.
  intros H67 Hfile Hparse Hload Hag.
  unfold afterSpawn, bind, when, console_log, console_error, process_exit, ret,
    existsSync, readFileSync, throw, unlinkSync, rimraf_sync.
  rewrite bool_decide_eq_false_2 by exact H67.
  assert (Heq : Bool.eqb (truthy (status res)) (bool_decide (is_Some (LH.runtimeError lhr)))
                 = true) by (apply Bool.eqb_true_iff; exact Hag).
  destruct dbg; cbn; rewrite Hfile; cbn; rewrite ?Hfile; cbn; rewrite Hparse; cbn;
    rewrite Hload; cbn; rewrite ?Hfile; cbn; rewrite Heq; cbn;
    eexists; (split; [reflexivity | split; reflexivity]).
Qed.


Definition doingRun (expected : Expected) : string :=
  "Doing a run of '" +:+ e_requestedUrl (lhr expected) +:+ "'...".

Lemma processExpectation_unfold ext expected w0 :
  processExpectation ext expected w0 =
  bind (runLighthouse ext (e_requestedUrl (lhr expected)) (configPath ext) (cli_debug ext))
       (fun results =>
          (if bool_decide (is_Some (stderr expected))
           then throw "Do not set `stderr` directly." else ret tt) ;;
          let* snapshotPath := getSnapshotPath ext expected in
          let* snapshotExists := existsSync snapshotPath in
          let* expected' :=
            if snapshotExists then
              if cli_u ext then
                console_log ("Updated snapshot: " +:+ snapshotPath) ;;
                writeFileSync snapshotPath (JSON_stringify_lines (r_stderr results)) ;;
                ret (set_stderr expected (r_stderr results))
              else
                let* expectedStderrJson := readFileSync snapshotPath in
                match JSON_parse_lines ext expectedStderrJson with
                | Some lines => ret (set_stderr expected lines)
                | None => throw "SyntaxError"
                end
            else
              if cli_u ext then
                console_log ("Created snapshot: " +:+ snapshotPath) ;;
                writeFileSync snapshotPath (JSON_stringify_lines (r_stderr results)) ;;
                ret (set_stderr expected (r_stderr results))
              else
                console_log ("Missing snapshot (run with -u to create): " +:+ snapshotPath) ;;
                ret expected in
          console_log ("Asserting expected results match those found. ("
                       +:+ e_requestedUrl (lhr expected) +:+ ")") ;;
          ret (expected', report ext results expected'))
       (logged (doingRun expected) w0).
Proof. reflexivity. Qed.

Lemma processExpectation_exit ext expected w0 c w' :
  runLighthouse ext (e_requestedUrl (lhr expected)) (configPath ext) (cli_debug ext)
                (logged (doingRun expected) w0) = Exit c w' ->
  processExpectation ext expected w0 = Exit c w'.
Proof. intros H. rewrite processExpectation_unfold. unfold bind at 1. rewrite H. reflexivity. Qed.

Lemma forEach_app_exit ext before l c w' :
  forall p f w00 bs p' f' w0,
  forEach ext before p f w00 = Ok (bs, (p', f')) w0 ->
  forEach ext l p' f' w0 = Exit c w' ->
  forEach ext (before ++ l) p f w00 = Exit c w'.
Proof.
  induction before as [|e before IH]; intros p f w00 bs p' f' w0 Hb Hl.
  - cbn in Hb. unfold ret in Hb. injection Hb as <- <- <- <-. exact Hl.
  - cbn [app forEach] in *. unfold bind at 1 in Hb. unfold bind at 1.
    destruct (processExpectation ext e w00) as [r wa | | |]; try discriminate.
    unfold bind at 1 in Hb. unfold bind at 1.
    destruct (forEach ext before (p + passed r.2) (f + failed r.2) wa)
      as [[rs [p1 f1]] wb | | |] eqn:Hrec; try discriminate.
    unfold ret in Hb. cbn in Hb. injection Hb as <- <- <- <-.
    erewrite IH; [reflexivity | exact Hrec | exact Hl].
Qed.

(** An exit inside [runLighthouse] ends the whole script there: the
    expectations after the one being run play no part. *)
Lemma main_exit ext before expected more bs p f w00 w0 c w' :
  forEach ext before 0 0 w00 = Ok (bs, (p, f)) w0 ->
  runLighthouse ext (e_requestedUrl (lhr expected)) (configPath ext) (cli_debug ext)
                (logged (doingRun expected) w0) = Exit c w' ->
  main ext (before ++ expected :: more) w00 = Exit c w'.
Proof.
  intros Hb Hr. unfold main, bind at 1.
  erewrite forEach_app_exit; [reflexivity | exact Hb |].
  cbn [forEach]. unfold bind at 1.
  rewrite (processExpectation_exit _ _ _ _ _ Hr). reflexivity.
Qed.

(** C3: the tool is run again while it exits with the protocol-timeout
    code 67, at most [RETRIES] = 3 more times: the loop makes [k + 1] runs
    with [k <= 3], each of the first [k] having exited with 67, and writes
    the retry message before the command line of each run after the first.
    When the last run exits with 67 as well, four runs were made, and
    [runLighthouse] exits the process with status 1, which ends the whole
    script whatever expectations remain. *)
Theorem protocol_timeout_retried_three_times (ext : Externals) (expected : Expected)
  (w0 : World) :
  let url := e_requestedUrl (lhr expected) in
  let w := logged (doingRun expected) w0 in
  let args := lighthouseArgs ext url (configPath ext) (randInt ext (randoms w)) in
  exists k res w2,
    (k <= RETRIES)%nat /\
    spawnLoop ext (S RETRIES) args 0 (afterRandom w) = Ok res w2 /\
    res = (attempt ext args (spawned w) (fs w) k).1 /\
    spawned w2 = (spawned w + S k)%nat /\
    console w2 = console w ++ (Out, commandLine ext "node" args) :: retryLines ext args k /\
    (forall i, (i < k)%nat ->
       status (attempt ext args (spawned w) (fs w) i).1 = Some PROTOCOL_TIMEOUT_EXIT_CODE) /\
    (status res = Some PROTOCOL_TIMEOUT_EXIT_CODE ->
       k = RETRIES /\
       exists w',
         runLighthouse ext url (configPath ext) (cli_debug ext) w = Exit (Some 1) w' /\
         spawned w' = (spawned w0 + 4)%nat /\
         forall before more bs p f w00,
           forEach ext before 0 0 w00 = Ok (bs, (p, f)) w0 ->
           main ext (before ++ expected :: more) w00 = Exit (Some 1) w' /\
           exitStatus (main ext (before ++ expected :: more) w00) = Some 1).
Proof.
  intros url w args.
  destruct (spawnLoop_spec ext args (S RETRIES) 0 (afterRandom w)) as (k & Hk & Hrun & Hpre & Hlast);
    [unfold RETRIES; lia |].
  cbn zeta in Hrun, Hlast. cbn [afterRandom fs spawned console randoms] in *.
  eexists k, _, _. split; [lia |]. split; [exact Hrun |].
  split; [reflexivity |]. split; [reflexivity |]. split; [reflexivity |].
  split; [exact Hpre |]. intros H67. specialize (Hlast H67). split; [lia |].
  pose proof (runLighthouse_unfold ext url (configPath ext) (cli_debug ext) w) as Hu.
  fold args in Hu. rewrite Hrun in Hu.
  edestruct afterSpawn_timeout as (w' & Hw' & Hfs & Hsp & Hrd); [exact H67 |].
  rewrite Hw' in Hu. exists w'. split; [exact Hu |]. split.
  - rewrite Hsp. cbn. replace k with RETRIES by lia. unfold RETRIES. lia.
  - intros before more bs p f w00 Hb.
    rewrite (main_exit _ _ _ _ _ _ _ _ _ _ _ Hb Hu). split; reflexivity.
Qed.


(** C2, as stated, fails where the exit code is 67: the tool times out on
    all four runs and each time leaves a report that carries a runtime
    error, so the exit code (non-zero) and the report agree, yet
    [runLighthouse] exits the process with status 1 and nothing is
    compared. *)
Lemma agreeing_timeout_is_never_compared :
  let ext := Fixtures.externals Fixtures.alwaysTimesOut false in
  let expected := Fixtures.expectation "https://x.test/" in
  let w := logged (doingRun expected) Fixtures.world0 in
  let args := lighthouseArgs ext "https://x.test/" (configPath ext) 1 in
  exists res w2 w',
    spawnLoop ext (S RETRIES) args 0 (afterRandom w) = Ok res w2 /\
    fs w2 !! outputPathOf 1 = Some "failed" /\
    JSON_parse_lhr ext "failed" = Some Fixtures.lhrFailed /\
    loadArtifacts ext (fs w2) (artifactsDirectoryOf 1) = Some ∅ /\
    truthy (status res) = bool_decide (is_Some (LH.runtimeError Fixtures.lhrFailed)) /\
    runLighthouse ext "https://x.test/" (configPath ext) (cli_debug ext) w = Exit (Some 1) w'.
Proof.
  cbv zeta. eexists _, _, _.
  split; [vm_compute; reflexivity |].
  split; [vm_compute; reflexivity |].
  split; [reflexivity |]. split; [reflexivity |].
  split; [vm_compute; reflexivity |].
  vm_compute; reflexivity.
Qed.

(** C2, amended: let the retry loop end with result [res], the report file
    be present and parse to [lhr], and the artifacts load.  When the
    truthiness of the exit code differs from the presence of
    [lhr.runtimeError], [runLighthouse] exits the process with status 1
    without another run of the tool, which ends the whole script whatever
    expectations remain.  When they agree and the exit code is not the
    protocol-timeout code 67, [runLighthouse] returns the report, the
    artifacts and the normalized error lines to the loop body. *)
Theorem exit_code_must_agree_with_runtimeError (ext : Externals) (expected : Expected)
  (w0 : World) (res : SpawnResult) (w2 : World) (json : string) (lhr : LH.Result)
  (artifacts : gmap string string) :
  let url := e_requestedUrl (Smokehouse.lhr expected) in
  let w := logged (doingRun expected) w0 in
  let r := randInt ext (randoms w) in
  spawnLoop ext (S RETRIES) (lighthouseArgs ext url (configPath ext) r) 0 (afterRandom w)
    = Ok res w2 ->
  fs w2 !! outputPathOf r = Some json ->
  JSON_parse_lhr ext json = Some lhr ->
  loadArtifacts ext (fs w2) (artifactsDirectoryOf r) = Some artifacts ->
  (truthy (status res) <> bool_decide (is_Some (LH.runtimeError lhr)) ->
   exists w',
     runLighthouse ext url (configPath ext) (cli_debug ext) w = Exit (Some 1) w' /\
     spawned w' = spawned w2 /\
     forall before more bs p f w00,
       forEach ext before 0 0 w00 = Ok (bs, (p, f)) w0 ->
       main ext (before ++ expected :: more) w00 = Exit (Some 1) w' /\
       exitStatus (main ext (before ++ expected :: more) w00) = Some 1) /\
  (truthy (status res) = bool_decide (is_Some (LH.runtimeError lhr)) ->
   status res <> Some PROTOCOL_TIMEOUT_EXIT_CODE ->
   exists w',
     runLighthouse ext url (configPath ext) (cli_debug ext) w =
       Ok {| r_lhr := lhr; r_artifacts := artifacts;
             r_stderr := normalizeStderr (sp_stderr res) |} w' /\
     spawned w' = spawned w2).
Proof.
  intros url w r Hloop Hfile Hparse Hload.
  pose proof (runLighthouse_unfold ext url (configPath ext) (cli_debug ext) w) as Hu.
  fold r in Hu. rewrite Hloop in Hu. split.
  - intros Hdis.
    assert (Hexit : exists w', afterSpawn ext (cli_debug ext || env_LH_SMOKE_DEBUG ext) r res w2
                               = Exit (Some 1) w' /\ spawned w' = spawned w2).
    { destruct (decide (status res = Some PROTOCOL_TIMEOUT_EXIT_CODE)) as [H67 | H67].
      - edestruct afterSpawn_timeout as (w' & Hw' & _ & Hsp & _); [exact H67 |].
        exists w'. split; [exact Hw' | exact Hsp].
      - edestruct afterSpawn_disagree as (w' & Hw' & Hsp & _); eauto. }
    destruct Hexit as (w' & Hw' & Hsp). rewrite Hw' in Hu.
    exists w'. split; [exact Hu |]. split; [exact Hsp |].
    intros before more bs p f w00 Hb.
    rewrite (main_exit _ _ _ _ _ _ _ _ _ _ _ Hb Hu). split; reflexivity.
  - intros Hag H67.
    edestruct afterSpawn_agree as (w' & Hw' & Hsp & _); eauto.
    rewrite Hw' in Hu. exists w'. split; [exact Hu | exact Hsp].
Qed.

Lemma exit_code_must_agree_with_runtimeError_witness :
  let ext := Fixtures.externals Fixtures.failsWithoutError false in
  let expected := Fixtures.expectation "https://x.test/" in
  exists w',
    runLighthouse ext "https://x.test/" (configPath ext) (cli_debug ext)
                  (logged (doingRun expected) Fixtures.world0) = Exit (Some 1) w'.
Proof.
  cbv zeta.
  edestruct (exit_code_must_agree_with_runtimeError
               (Fixtures.externals Fixtures.failsWithoutError false)
               (Fixtures.expectation "https://x.test/") Fixtures.world0) as [Hdis _].
  - vm_compute. reflexivity.
  - vm_compute. reflexivity.
  - vm_compute. reflexivity.
  - vm_compute. reflexivity.
  - destruct Hdis as (w' & H & _); [vm_compute; discriminate |].
    exists w'. exact H.
Defined.

Lemma afterSpawn_fuel ext dbg r res w : afterSpawn ext dbg r res w <> OutOfFuel.
Proof.
  unfold afterSpawn, bind, when, console_log, console_error, process_exit, ret,
    existsSync, readFileSync, throw, unlinkSync, rimraf_sync.
  destruct dbg; cbn; destruct (bool_decide (status res = Some PROTOCOL_TIMEOUT_EXIT_CODE));
    try discriminate; cbn.
  all: destruct (fs w !! outputPathOf r) as [json|] eqn:Hfile; cbn;
    rewrite ?Hfile; cbn; try discriminate.
  all: destruct (JSON_parse_lhr ext json) as [lhr|]; cbn; try discriminate.
  all: destruct (loadArtifacts ext (fs w) (artifactsDirectoryOf r)) as [a|]; cbn;
    rewrite ?Hfile; cbn; try discriminate.
  all: destruct (Bool.eqb (truthy (status res)) (bool_decide (is_Some (LH.runtimeError lhr))));
    cbn; discriminate.
Qed.

(** The bound of the retry loop is never reached: [runLighthouse] returns,
    exits or throws. *)
Lemma runLighthouse_fuel ext url cfg dbg w : runLighthouse ext url cfg dbg w <> OutOfFuel.
Proof.
  rewrite runLighthouse_unfold.
  destruct (spawnLoop_spec ext (lighthouseArgs ext url cfg (randInt ext (randoms w)))
              (S RETRIES) 0 (afterRandom w)) as (k & _ & Hrun & _); [unfold RETRIES; lia |].
  cbv zeta in Hrun. rewrite Hrun. apply afterSpawn_fuel.
Qed.

(** A tool that times out on every run is run four times, with three retry
    messages, and the script exits with status 1 before the second
    expectation is touched. *)
Example four_timeouts_give_up :
  let ext := Fixtures.externals Fixtures.alwaysTimesOut false in
  exists w,
    main ext [Fixtures.expectation "https://x.test/"; Fixtures.expectation "https://y.test/"]
         Fixtures.world0 = Exit (Some 1) w /\
    spawned w = 4%nat /\
    length (filter (fun line => line = (Out, retryMessage)) (console w)) = 3%nat /\
    (Out, "Doing a run of 'https://y.test/'...") ∉ console w.
Proof.
  cbv zeta. eexists. split; [vm_compute; reflexivity |].
  split; [reflexivity |]. split; [vm_compute; reflexivity |].
  cbn [console]. intros H.
  repeat (apply elem_of_cons in H as [H | H]; [discriminate H |]).
  inversion H.
Qed.

End RunnerFacts.

(** ** Snapshots *)

Module SnapshotFacts.
Import JS Smokehouse RunnerFacts.

Lemma afterSpawn_Ok_stderr ext dbg r res w results w' :
  afterSpawn ext dbg r res w = Ok results w' ->
  r_stderr results = normalizeStderr (sp_stderr res).
Proof.
  unfold afterSpawn, bind, when, console_log, console_error, process_exit, ret,
    existsSync, readFileSync, throw, unlinkSync, rimraf_sync.
  intros H.
  destruct dbg; cbn in H; destruct (bool_decide (status res = Some PROTOCOL_TIMEOUT_EXIT_CODE));
    try discriminate H; cbn in H.
  all: destruct (fs w !! outputPathOf r) as [json|] eqn:Hfile; cbn in H;
    rewrite ?Hfile in H; cbn in H; try discriminate H.
  all: destruct (JSON_parse_lhr ext json) as [lhr|]; cbn in H; try discriminate H.
  all: destruct (loadArtifacts ext (fs w) (artifactsDirectoryOf r)) as [a|]; cbn in H;
    rewrite ?Hfile in H; cbn in H; try discriminate H.
  all: destruct (Bool.eqb (truthy (status res)) (bool_decide (is_Some (LH.runtimeError lhr))));
    cbn in H; try discriminate H.
  all: injection H as <- _; reflexivity.
Qed.

(** What [runLighthouse] returns as error lines is the normalization of the
    error stream of the last run of the tool. *)
Lemma runLighthouse_Ok_stderr ext url cfg dbg w results w' :
  runLighthouse ext url cfg dbg w = Ok results w' ->
  exists res wl,
    spawnLoop ext (S RETRIES) (lighthouseArgs ext url cfg (randInt ext (randoms w))) 0
              (afterRandom w) = Ok res wl /\
    r_stderr results = normalizeStderr (sp_stderr res).
Proof.
  rewrite runLighthouse_unfold. intros H.
  destruct (spawnLoop _ _ _ _ _) as [res wl | | |]; try discriminate.
  exists res, wl. split; [reflexivity |]. eapply afterSpawn_Ok_stderr. exact H.
Qed.

Lemma getSnapshotPath_world ext expected w path w' :
  getSnapshotPath ext expected w = Ok path w' -> w' = w.
Proof.
  unfold getSnapshotPath, ret, throw. destruct (URL_new ext _); [| discriminate].
  match goal with |- Ok ?p _ = _ -> _ => generalize p end.
  intros p H. injection H as _ <-. reflexivity.
Qed.

Definition asserting (expected : Expected) : string :=
  "Asserting expected results match those found. (" +:+ e_requestedUrl (lhr expected) +:+ ")".

(** C6: in update mode, whether or not a snapshot file was there, the body
    of the loop writes [JSON.stringify] of the error lines that
    [runLighthouse] returned, which are the normalized error stream of the
    last run of the tool, to the snapshot path and leaves every other file
    alone; the text written is that of no other sequence of lines; the
    expectation the body hands to the report step has these lines as its
    [stderr]. *)
Theorem update_mode_writes_fresh_snapshot (ext : Externals) (expected : Expected)
  (w0 : World) (results : RunnerResult) (w1 : World) (snapshotPath : string) :
  cli_u ext = true ->
  stderr expected = None ->
  runLighthouse ext (e_requestedUrl (lhr expected)) (configPath ext) (cli_debug ext)
                (logged (doingRun expected) w0) = Ok results w1 ->
  getSnapshotPath ext expected w1 = Ok snapshotPath w1 ->
  exists w2 res wl,
    let expected' := set_stderr expected (r_stderr results) in
    processExpectation ext expected w0 = Ok (expected', report ext results expected') w2 /\
    stderr expected' = Some (r_stderr results) /\
    fs w2 = <[snapshotPath := JSON_stringify_lines (r_stderr results)]> (fs w1) /\
    fs w2 !! snapshotPath = Some (JSON_stringify_lines (r_stderr results)) /\
    (forall lines, fs w2 !! snapshotPath = Some (JSON_stringify_lines lines) ->
                   lines = r_stderr results) /\
    (forall path, path <> snapshotPath -> fs w2 !! path = fs w1 !! path) /\
    spawnLoop ext (S RETRIES)
      (lighthouseArgs ext (e_requestedUrl (lhr expected)) (configPath ext)
                      (randInt ext (randoms w0)))
      0 (afterRandom (logged (doingRun expected) w0)) = Ok res wl /\
    r_stderr results = normalizeStderr (sp_stderr res).
Proof.
  intros Hu Hunset Hrun Hpath.
  destruct (runLighthouse_Ok_stderr _ _ _ _ _ _ _ Hrun) as (res & wl & Hloop & Hstderr).
  rewrite processExpectation_unfold. unfold bind at 1. rewrite Hrun.
  rewrite Hunset, Hu. unfold bind at 1. cbn [bool_decide]. 
  rewrite bool_decide_eq_false_2 by (intros [? ?]; discriminate).
  unfold ret at 1, bind at 1. rewrite Hpath. unfold bind at 1, existsSync at 1.
  destruct (bool_decide (is_Some (fs w1 !! snapshotPath)));
    eexists _, res, wl; cbv zeta;
    cbn; (split; [reflexivity |]); (split; [reflexivity |]); (split; [reflexivity |]);
    (split; [apply lookup_insert_eq |]);
    (split; [intros lines Hl; cbn [fs] in Hl; rewrite lookup_insert_eq in Hl;
             injection Hl as Hl;
             apply JSONFacts.JSON_stringify_lines_inj; symmetry; exact Hl |]);
    (split; [intros path Hne; apply lookup_insert_ne; congruence |]);
    (split; [exact Hloop | exact Hstderr]).
Qed.

(** C7: with update mode off and no snapshot file at the snapshot path, the
    body of the loop leaves the expectation's [stderr] unset, leaves the
    files as [runLighthouse] left them, prints the note that tells to run
    with [-u], and returns, so that the loop goes on with the expectations
    that remain; the counts of the report step are those of the structured
    comparison alone. *)
Theorem missing_snapshot_skips_stderr_comparison (ext : Externals) (expected : Expected)
  (w0 : World) (results : RunnerResult) (w1 : World) (snapshotPath : string) :
  cli_u ext = false ->
  stderr expected = None ->
  runLighthouse ext (e_requestedUrl (lhr expected)) (configPath ext) (cli_debug ext)
                (logged (doingRun expected) w0) = Ok results w1 ->
  getSnapshotPath ext expected w1 = Ok snapshotPath w1 ->
  fs w1 !! snapshotPath = None ->
  exists w2 counts,
    processExpectation ext expected w0 = Ok (expected, counts) w2 /\
    stderr expected = None /\
    counts = report ext results expected /\
    passed counts = passed (compareLhr ext results (lhr expected)) /\
    failed counts = failed (compareLhr ext results (lhr expected)) /\
    fs w2 = fs w1 /\
    console w2 = console w1 ++
      [(Out, "Missing snapshot (run with -u to create): " +:+ snapshotPath);
       (Out, asserting expected)] /\
    forall more p f,
      forEach ext (expected :: more) p f w0 =
      (let* rs := forEach ext more (p + passed counts)%nat (f + failed counts)%nat in
       ret (expected :: rs.1, rs.2)) w2.
Proof.
  intros Hu Hunset Hrun Hpath Hnone.
  assert (Hstep : processExpectation ext expected w0 =
                  Ok (expected, report ext results expected)
                     (logged (asserting expected)
                        (logged ("Missing snapshot (run with -u to create): " +:+ snapshotPath)
                           w1))).
  { rewrite processExpectation_unfold. unfold bind at 1. rewrite Hrun.
    rewrite Hunset, Hu. unfold bind at 1.
    rewrite bool_decide_eq_false_2 by (intros [? ?]; discriminate).
    unfold ret at 1, bind at 1. rewrite Hpath. unfold bind at 1, existsSync at 1.
    rewrite Hnone. rewrite bool_decide_eq_false_2 by (intros [? ?]; discriminate).
    reflexivity. }
  eexists _, _. split; [exact Hstep |]. split; [exact Hunset |]. split; [reflexivity |].
  unfold report, compareStderr. rewrite Hunset. cbn [passed failed].
  split; [lia |]. split; [lia |]. split; [reflexivity |].
  split; [cbn; rewrite <- app_assoc; reflexivity |].
  intros more p f. cbn [forEach]. unfold bind at 1. rewrite Hstep.
  unfold report, compareStderr. rewrite Hunset. reflexivity.
Qed.


Lemma update_mode_writes_fresh_snapshot_witness :
  exists w2 out,
    processExpectation (Fixtures.externals Fixtures.succeeds true)
      (Fixtures.expectation "https://x.test/?a=1") Fixtures.world0 = Ok out w2 /\
    stderr out.1 = Some ["  status:warn slow"] /\
    fs w2 !! "/smokehouse/snapshots/https___x_test__792c07.json" =
      Some (JSON_stringify_lines ["  status:warn slow"]).
Proof.
  edestruct (update_mode_writes_fresh_snapshot
               (Fixtures.externals Fixtures.succeeds true)
               (Fixtures.expectation "https://x.test/?a=1") Fixtures.world0)
    as (w2 & res & wl & Hstep & Hset & _ & Hfile & _).
  - reflexivity.
  - reflexivity.
  - vm_compute. reflexivity.
  - vm_compute. reflexivity.
  - eexists w2, _. split; [exact Hstep |]. split; [exact Hset | exact Hfile].
Defined.

Lemma missing_snapshot_skips_stderr_comparison_witness :
  exists w2 counts,
    processExpectation (Fixtures.externals Fixtures.succeeds false)
      (Fixtures.expectation "https://x.test/?a=1") Fixtures.world0
      = Ok (Fixtures.expectation "https://x.test/?a=1", counts) w2 /\
    failed counts = 0%nat /\
    fs w2 = ∅.
Proof.
  edestruct (missing_snapshot_skips_stderr_comparison
               (Fixtures.externals Fixtures.succeeds false)
               (Fixtures.expectation "https://x.test/?a=1") Fixtures.world0)
    as (w2 & counts & Hstep & _ & _ & _ & Hfailed & Hfs & _).
  - reflexivity.
  - reflexivity.
  - vm_compute. reflexivity.
  - vm_compute. reflexivity.
  - vm_compute. reflexivity.
  - exists w2, counts. split; [exact Hstep |]. split; [exact Hfailed | exact Hfs].
Defined.

(** Two URLs that differ in their non-empty query strings only get the same
    snapshot path. *)
Lemma getSnapshotPath_blind_to_query ext e1 e2 u1 u2 w :
  URL_new ext (e_requestedUrl (lhr e1)) = Some u1 ->
  URL_new ext (e_requestedUrl (lhr e2)) = Some u2 ->
  pre u1 = pre u2 -> fragment u1 = fragment u2 ->
  URL_search u1 <> "" -> URL_search u2 <> "" ->
  getSnapshotPath ext e1 w = getSnapshotPath ext e2 w.
Proof.
  intros H1 H2 Hpre Hfrag Hs1 Hs2. unfold getSnapshotPath. rewrite H1, H2.
  unfold URL_href, URL_clear_search. cbn [pre query fragment]. rewrite Hpre, Hfrag.
  destruct (URL_search u1); [contradiction |]. destruct (URL_search u2); [contradiction |].
  cbn [nonempty]. reflexivity.
Qed.

(** C1: the snapshot path is a function of the requested URL, but the hash
    in it is that of the fixed text [url.search], not of the query string:
    [https://x.test/?a=1] and [https://x.test/?a=2], whose query strings
    have different hashes, get one and the same path. *)
Theorem getSnapshotPath_hashes_a_fixed_text :
  let ext := Fixtures.externals Fixtures.succeeds false in
  getSnapshotPath ext (Fixtures.expectation "https://x.test/?a=1") Fixtures.world0 =
    Ok "/smokehouse/snapshots/https___x_test__792c07.json" Fixtures.world0 /\
  getSnapshotPath ext (Fixtures.expectation "https://x.test/?a=2") Fixtures.world0 =
    Ok "/smokehouse/snapshots/https___x_test__792c07.json" Fixtures.world0 /\
  take 6 (Crypto.md5_hex "url.search") = "792c07" /\
  take 6 (Crypto.md5_hex "?a=1") = "af6075" /\
  take 6 (Crypto.md5_hex "?a=2") = "c9a6b9".
Proof. cbv zeta. repeat split; vm_compute; reflexivity. Qed.

End SnapshotFacts.

(** ** The samples the summarizer collects *)

Module CollectFacts.
Import JS Timings.

(** The samples the map holds under a key. *)
Definition samples (key : string) (m : MeasuresMap) : list float :=
  default [] (Map_get key m).

(** Whether the filter lets a measurement name through. *)
Definition passes (measureFilter : option (string -> bool)) (measureName : string) : bool :=
  match measureFilter with Some test => test measureName | None => true end.

Lemma Map_get_set key key' v m :
  Map_get key (Map_set key' v m) = if String.eqb key' key then Some v else Map_get key m.
Proof.
  induction m as [|[k old] m IH]; cbn.
  - destruct (String.eqb key' key); reflexivity.
  - destruct (String.eqb k key') eqn:E; cbn.
    + apply String.eqb_eq in E. subst k. destruct (String.eqb key' key); reflexivity.
    + destruct (String.eqb k key) eqn:E'; [| exact IH].
      apply String.eqb_eq in E'. subst k. rewrite String.eqb_sym, E. reflexivity.
Qed.

Lemma Map_get_push key key' d m :
  Map_get key (Map_push key' d m) =
  if String.eqb key' key then (fun l => l ++ [d]) <$> Map_get key m else Map_get key m.
Proof.
  induction m as [|[k old] m IH]; cbn.
  - destruct (String.eqb key' key); reflexivity.
  - destruct (String.eqb k key') eqn:E; cbn.
    + apply String.eqb_eq in E. subst k. destruct (String.eqb key' key); reflexivity.
    + destruct (String.eqb k key) eqn:E'; [| exact IH].
      apply String.eqb_eq in E'. subst k. rewrite String.eqb_sym, E. reflexivity.
Qed.

(** The lookup of the entry by name finds the first entry of that name. *)
Lemma find_first_named (entries pre post : list LH.TimingEntry) (e : LH.TimingEntry) :
  entries = pre ++ e :: post ->
  Forall (fun e' => LH.name e' <> LH.name e) pre ->
  find (fun measure => String.eqb (LH.name measure) (LH.name e)) entries = Some e.
Proof.
  intros -> Hpre. induction Hpre as [|e' pre Hne _ IH]; cbn.
  - rewrite String.eqb_refl. reflexivity.
  - apply String.eqb_neq in Hne. rewrite Hne. exact IH.
Qed.

(** Every name of the entry list has a first entry. *)
Lemma first_named_exists (entries : list LH.TimingEntry) (measureName : string) :
  measureName ∈ map LH.name entries ->
  exists pre e post,
    entries = pre ++ e :: post /\ LH.name e = measureName /\
    Forall (fun e' => LH.name e' <> measureName) pre.
Proof.
  induction entries as [|e0 entries IH]; cbn; intros Hin.
  - inversion Hin.
  - destruct (decide (LH.name e0 = measureName)) as [Heq | Hne].
    + exists [], e0, entries. repeat split; [exact Heq | constructor].
    + apply elem_of_cons in Hin as [Hin | Hin]; [congruence |].
      destruct (IH Hin) as (pre & e & post & -> & Hn & Hpre).
      exists (e0 :: pre), e, post. repeat split; [exact Hn | constructor; assumption].
Qed.

Lemma measuresKeyOf_inj lhr n1 n2 : measuresKeyOf lhr n1 = measuresKeyOf lhr n2 -> n1 = n2.
Proof.
  unfold measuresKeyOf. intros H.
  apply (inj (String.app (LH.requestedUrl lhr))) in H.
  apply (inj (String.app "@@@")) in H. exact H.
Qed.

(** One turn of the inner loop, for a name whose first entry is [e]. *)
Lemma addMeasure_spec measureFilter lhr m pre e post :
  LH.timing_entries lhr = pre ++ e :: post ->
  Forall (fun e' => LH.name e' <> LH.name e) pre ->
  exists m',
    addMeasure measureFilter lhr m (LH.name e) = Some m' /\
    forall measureName,
      samples (measuresKeyOf lhr measureName) m' =
      samples (measuresKeyOf lhr measureName) m ++
      (if passes measureFilter (LH.name e) && bool_decide (LH.name e = measureName)
       then [LH.duration e] else []).
Proof.
  intros Hentries Hpre. unfold addMeasure.
  fold (passes measureFilter (LH.name e)).
  assert (Hp : match measureFilter with
               | Some test => negb (test (LH.name e)) | None => false end
               = negb (passes measureFilter (LH.name e))).
  { unfold passes. destruct measureFilter; reflexivity. }
  rewrite Hp. destruct (passes measureFilter (LH.name e)); cbn [negb andb].
  2: { exists m. split; [reflexivity |]. intros. rewrite app_nil_r. reflexivity. }
  rewrite (find_first_named _ _ _ _ Hentries Hpre).
  eexists. split; [reflexivity |]. intros measureName. unfold samples.
  rewrite Map_get_push.
  destruct (String.eqb (measuresKeyOf lhr (LH.name e)) (measuresKeyOf lhr measureName)) eqn:E.
  - apply String.eqb_eq in E. pose proof (measuresKeyOf_inj _ _ _ E) as Hn.
    subst measureName. rewrite bool_decide_eq_true_2 by reflexivity.
    destruct (Map_get (measuresKeyOf lhr (LH.name e)) m) as [old|] eqn:Hget.
    + rewrite Hget. reflexivity.
    + rewrite Map_get_set, String.eqb_refl. reflexivity.
  - apply String.eqb_neq in E.
    rewrite bool_decide_eq_false_2 by (intros Hn; apply E; rewrite Hn; reflexivity).
    rewrite app_nil_r.
    destruct (Map_get (measuresKeyOf lhr (LH.name e)) m) as [old|] eqn:Hget; [reflexivity |].
    rewrite Map_get_set. apply String.eqb_neq in E. rewrite E. reflexivity.
Qed.


(** How often a name occurs in a list of names. *)
Definition occurrences (measureName : string) (names : list string) : nat :=
  length (filter (fun n => n = measureName) names).

Lemma addNames_spec measureFilter lhr names :
  forall m,
  (forall n, n ∈ names -> n ∈ map LH.name (LH.timing_entries lhr)) ->
  exists m',
    foldl (fun acc measureName => m ← acc; addMeasure measureFilter lhr m measureName)
          (Some m) names = Some m' /\
    forall pre e post,
      LH.timing_entries lhr = pre ++ e :: post ->
      Forall (fun e' => LH.name e' <> LH.name e) pre ->
      samples (measuresKeyOf lhr (LH.name e)) m' =
      samples (measuresKeyOf lhr (LH.name e)) m ++
      (if passes measureFilter (LH.name e)
       then replicate (occurrences (LH.name e) names) (LH.duration e) else []).
Proof.
  induction names as [|n names IH]; intros m Hin.
  - exists m. split; [reflexivity |]. intros. cbn.
    destruct (passes _ _); rewrite app_nil_r; reflexivity.
  - destruct (first_named_exists (LH.timing_entries lhr) n) as (pre0 & e0 & post0 & He0 & Hn0 & Hp0).
    { apply Hin. left. }
    subst n.
    destruct (addMeasure_spec measureFilter lhr m pre0 e0 post0 He0 Hp0) as (m1 & Hm1 & Hs1).
    destruct (IH m1) as (m' & Hm' & Hs'). { intros n Hn. apply Hin. right. exact Hn. }
    exists m'. cbn [foldl]. cbn [mbind option_bind]. rewrite Hm1. split; [exact Hm' |].
    intros pre e post He Hp. rewrite (Hs' pre e post He Hp), (Hs1 (LH.name e)).
    rewrite <- app_assoc. f_equal. unfold occurrences. cbn [filter list_filter].
    destruct (decide (LH.name e0 = LH.name e)) as [Heq | Hne].
    + assert (e0 = e) as ->.
      { pose proof (find_first_named _ _ _ _ He0 Hp0) as F0.
        pose proof (find_first_named _ _ _ _ He Hp) as F.
        rewrite Heq in F0. congruence. }
      rewrite bool_decide_eq_true_2 by reflexivity. rewrite andb_true_r.
      destruct (passes measureFilter (LH.name e)); reflexivity.
    + rewrite bool_decide_eq_false_2 by exact Hne. rewrite andb_false_r. reflexivity.
Qed.

(** C10: when a result file has several timing entries of one name, each
    occurrence of the name adds the duration of the first entry of that
    name to the samples of the key; nothing else is added under the key, so
    the durations of the later entries of the name do not come in. *)
Theorem later_entries_of_a_name_add_the_first_duration
  (measureFilter : option (string -> bool)) (lhr : LH.Result) (m : MeasuresMap)
  (pre post : list LH.TimingEntry) (e : LH.TimingEntry) :
  LH.timing_entries lhr = pre ++ e :: post ->
  Forall (fun e' => LH.name e' <> LH.name e) pre ->
  exists m',
    addLhr measureFilter m lhr = Some m' /\
    samples (measuresKeyOf lhr (LH.name e)) m' =
    samples (measuresKeyOf lhr (LH.name e)) m ++
    (if passes measureFilter (LH.name e)
     then replicate (occurrences (LH.name e) (map LH.name (LH.timing_entries lhr)))
                    (LH.duration e)
     else []).
Proof.
  intros He Hp.
  destruct (addNames_spec measureFilter lhr (map LH.name (LH.timing_entries lhr)) m)
    as (m' & Hm' & Hs); [auto |].
  exists m'. split; [exact Hm' |]. exact (Hs pre e post He Hp).
Qed.

Definition entry (name : string) (duration : float) : LH.TimingEntry :=
  {| LH.name := name; LH.duration := duration |}.

Definition lhrOf (url : string) (entries : list LH.TimingEntry) : LH.Result :=
  {| LH.requestedUrl := url; LH.runtimeError := None;
     LH.timing_entries := entries; LH.rest := "" |}.

Lemma later_entries_of_a_name_add_the_first_duration_witness :
  exists m',
    addLhr None [] (lhrOf "b" [entry "x" 1; entry "y" 2; entry "x" 3]) = Some m' /\
    samples "b@@@x" m' = [1%float; 1%float].
Proof.
  destruct (later_entries_of_a_name_add_the_first_duration None
              (lhrOf "b" [entry "x" 1; entry "y" 2; entry "x" 3]) []
              [] [entry "y" 2; entry "x" 3] (entry "x" 1)) as (m' & Hm' & Hs).
  - reflexivity.
  - constructor.
  - exists m'. split; [exact Hm' | exact Hs].
Defined.

End CollectFacts.

(** ** Order of the numbers *)

Module FloatFacts.

(** The comparison of the specification floats is a lexicographic one on
    sign, exponent and mantissa; these are its order properties. *)

Ltac cmp_cases :=
  repeat match goal with
  | |- context [Z.compare ?a ?b] => destruct (Z.compare_spec a b)
  | H : context [Z.compare ?a ?b] |- _ => destruct (Z.compare_spec a b)
  | |- context [Pos.compare_cont Eq ?a ?b] =>
      change (Pos.compare_cont Eq a b) with (Pos.compare a b); destruct (Pos.compare_spec a b)
  | H : context [Pos.compare_cont Eq ?a ?b] |- _ =>
      change (Pos.compare_cont Eq a b) with (Pos.compare a b) in H; destruct (Pos.compare_spec a b)
  end.

Lemma SFcompare_refl f : f <> S754_nan -> SFcompare f f = Some Eq.
Proof.
  destruct f as [s | s | | s m e]; cbn; intros H; try congruence.
  - destruct s; reflexivity.
  - destruct s; rewrite Z.compare_refl, Pos.compare_cont_refl; reflexivity.
Qed.

Lemma SFcompare_antisym a b : SFcompare a b = CompOpp <$> SFcompare b a.
Proof.
  destruct a as [sa | sa | | sa ma ea], b as [sb | sb | | sb mb eb]; cbn;
    try reflexivity; try (destruct sa; reflexivity); try (destruct sb; reflexivity);
    try (destruct sa, sb; reflexivity).
  destruct sa, sb; cbn; try reflexivity; f_equal;
    rewrite (Z.compare_antisym ea eb);
    change (Pos.compare_cont Eq ma mb) with (Pos.compare ma mb);
    change (Pos.compare_cont Eq mb ma) with (Pos.compare mb ma);
    rewrite (Pos.compare_antisym ma mb);
    destruct (ea ?= eb); cbn; try reflexivity; destruct (ma ?= mb)%positive; reflexivity.
Qed.

Lemma SFleb_trans a b c : SFleb a b = true -> SFleb b c = true -> SFleb a c = true.
Proof.
  unfold SFleb.
  destruct a as [sa | sa | | sa ma ea], b as [sb | sb | | sb mb eb],
           c as [sc | sc | | sc mc ec]; cbn;
    repeat match goal with s : bool |- _ => destruct s end; cbn;
    try reflexivity; try discriminate; intros H1 H2;
    cmp_cases; subst; cbn in *; try reflexivity; try discriminate; try lia.
Qed.


(** The same for the numbers themselves. *)

Definition notNaN (x : float) : Prop := PrimFloat.is_nan x = false.

Lemma notNaN_spec x : notNaN x <-> Prim2SF x <> S754_nan.
Proof.
  unfold notNaN, PrimFloat.is_nan. rewrite FloatAxioms.eqb_spec. unfold SFeqb. split.
  - intros H E. rewrite E in H. discriminate H.
  - intros H. rewrite (SFcompare_refl _ H). reflexivity.
Qed.

Lemma leb_refl x : notNaN x -> (x <=? x)%float = true.
Proof.
  intros H. apply notNaN_spec in H. rewrite FloatAxioms.leb_spec. unfold SFleb.
  rewrite (SFcompare_refl _ H). reflexivity.
Qed.

Lemma leb_trans x y z :
  (x <=? y)%float = true -> (y <=? z)%float = true -> (x <=? z)%float = true.
Proof. rewrite !FloatAxioms.leb_spec. apply SFleb_trans. Qed.

Lemma ltb_leb x y : (x <? y)%float = true -> (x <=? y)%float = true.
Proof.
  rewrite FloatAxioms.ltb_spec, FloatAxioms.leb_spec. unfold SFltb, SFleb.
  destruct (SFcompare _ _) as [[| |]|]; congruence.
Qed.

Lemma eqb_leb x y : (x =? y)%float = true -> (x <=? y)%float = true.
Proof.
  rewrite FloatAxioms.eqb_spec, FloatAxioms.leb_spec. unfold SFeqb, SFleb.
  destruct (SFcompare _ _) as [[| |]|]; congruence.
Qed.

Lemma eqb_geb x y : (x =? y)%float = true -> (y <=? x)%float = true.
Proof.
  rewrite FloatAxioms.eqb_spec, FloatAxioms.leb_spec. unfold SFeqb, SFleb. rewrite (SFcompare_antisym (Prim2SF y)).
  destruct (SFcompare _ _) as [[| |]|]; cbn; congruence.
Qed.

Lemma SFcompare_total a b : a <> S754_nan -> b <> S754_nan -> is_Some (SFcompare a b).
Proof.
  destruct a as [sa | sa | | sa ma ea], b as [sb | sb | | sb mb eb]; cbn;
    intros Ha Hb; try congruence; eauto.
Qed.

(** Two numbers that are not NaN are comparable. *)
Lemma not_ltb_leb x y : notNaN x -> notNaN y -> (x <? y)%float = false -> (y <=? x)%float = true.
Proof.
  intros Hx Hy. apply notNaN_spec in Hx, Hy.
  rewrite FloatAxioms.ltb_spec, FloatAxioms.leb_spec. unfold SFltb, SFleb. rewrite (SFcompare_antisym (Prim2SF y)).
  destruct (SFcompare_total _ _ Hx Hy) as [c Hc]. rewrite Hc.
  destruct c; cbn; congruence.
Qed.

Lemma notNaN_infinity : notNaN PrimFloat.infinity.
Proof. reflexivity. Qed.

Lemma notNaN_neg_infinity : notNaN PrimFloat.neg_infinity.
Proof. reflexivity. Qed.

Lemma infinity_leb x : (PrimFloat.infinity <=? x)%float = true -> x = PrimFloat.infinity.
Proof.
  rewrite FloatAxioms.leb_spec. intros H. rewrite <- (SF2Prim_Prim2SF x).
  change (Prim2SF PrimFloat.infinity) with (S754_infinity false) in H.
  destruct (Prim2SF x) as [s | [|] | | s m e]; cbn in H; try discriminate H; reflexivity.
Qed.

Lemma leb_neg_infinity x : (x <=? PrimFloat.neg_infinity)%float = true -> x = PrimFloat.neg_infinity.
Proof.
  rewrite FloatAxioms.leb_spec. intros H. rewrite <- (SF2Prim_Prim2SF x).
  change (Prim2SF PrimFloat.neg_infinity) with (S754_infinity true) in H.
  destruct (Prim2SF x) as [s | [|] | | s m e]; cbn in H; try discriminate H; reflexivity.
Qed.

End FloatFacts.

(** ** The statistics of a row *)

Module StatisticsFacts.
Import JS Timings FloatFacts.

Lemma min2_spec lowest x :
  notNaN lowest -> notNaN x ->
  (min2 lowest x = lowest \/ min2 lowest x = x) /\
  (min2 lowest x <=? lowest)%float = true /\ (min2 lowest x <=? x)%float = true.
Proof.
  intros Hl Hx. unfold min2. rewrite Hl, Hx. cbn [orb].
  destruct (x <? lowest)%float eqn:Hlt.
  - split; [right; reflexivity |]. split; [apply ltb_leb; exact Hlt | apply leb_refl; exact Hx].
  - destruct ((x =? lowest)%float && PrimFloat.get_sign x) eqn:Heq.
    + apply andb_true_iff in Heq as [Heq _].
      split; [right; reflexivity |]. split; [apply eqb_leb; exact Heq | apply leb_refl; exact Hx].
    + split; [left; reflexivity |].
      split; [apply leb_refl; exact Hl | apply not_ltb_leb; assumption].
Qed.

Lemma max2_spec highest x :
  notNaN highest -> notNaN x ->
  (max2 highest x = highest \/ max2 highest x = x) /\
  (highest <=? max2 highest x)%float = true /\ (x <=? max2 highest x)%float = true.
Proof.
  intros Hh Hx. unfold max2. rewrite Hh, Hx. cbn [orb].
  destruct (highest <? x)%float eqn:Hlt.
  - split; [right; reflexivity |]. split; [apply ltb_leb; exact Hlt | apply leb_refl; exact Hx].
  - destruct ((x =? highest)%float && negb (PrimFloat.get_sign x)) eqn:Heq.
    + apply andb_true_iff in Heq as [Heq _].
      split; [right; reflexivity |]. split; [apply eqb_geb; exact Heq | apply leb_refl; exact Hx].
    + split; [left; reflexivity |].
      split; [apply leb_refl; exact Hh | apply not_ltb_leb; assumption].
Qed.

Lemma fold_min2_spec values : forall lowest,
  notNaN lowest -> Forall notNaN values ->
  let r := fold_left min2 values lowest in
  notNaN r /\ (r = lowest \/ r ∈ values) /\
  (r <=? lowest)%float = true /\ Forall (fun x => (r <=? x)%float = true) values.
Proof.
  induction values as [|x values IH]; intros lowest Hl Hv; cbn.
  - repeat split; [exact Hl | left; reflexivity | apply leb_refl; exact Hl | constructor].
  - inversion Hv as [|? ? Hx Hv']; subst.
    destruct (min2_spec lowest x Hl Hx) as (Hor & Hle1 & Hle2).
    assert (Hn : notNaN (min2 lowest x)) by (destruct Hor as [-> | ->]; assumption).
    destruct (IH (min2 lowest x) Hn Hv') as (Hr & Hin & Hle & Hall).
    split; [exact Hr |]. split; [| split].
    + destruct Hin as [Hin | Hin]; [| right; right; exact Hin].
      rewrite Hin. destruct Hor as [-> | ->]; [left; reflexivity | right; left].
    + eapply leb_trans; eassumption.
    + constructor; [eapply leb_trans; eassumption | exact Hall].
Qed.

Lemma fold_max2_spec values : forall highest,
  notNaN highest -> Forall notNaN values ->
  let r := fold_left max2 values highest in
  notNaN r /\ (r = highest \/ r ∈ values) /\
  (highest <=? r)%float = true /\ Forall (fun x => (x <=? r)%float = true) values.
Proof.
  induction values as [|x values IH]; intros highest Hh Hv; cbn.
  - repeat split; [exact Hh | left; reflexivity | apply leb_refl; exact Hh | constructor].
  - inversion Hv as [|? ? Hx Hv']; subst.
    destruct (max2_spec highest x Hh Hx) as (Hor & Hle1 & Hle2).
    assert (Hn : notNaN (max2 highest x)) by (destruct Hor as [-> | ->]; assumption).
    destruct (IH (max2 highest x) Hn Hv') as (Hr & Hin & Hle & Hall).
    split; [exact Hr |]. split; [| split].
    + destruct Hin as [Hin | Hin]; [| right; right; exact Hin].
      rewrite Hin. destruct Hor as [-> | ->]; [left; reflexivity | right; left].
    + eapply leb_trans; eassumption.
    + constructor; [eapply leb_trans; eassumption | exact Hall].
Qed.

(** [Math.min] of numbers, none of them NaN, is one of them and is below or
    equal to each. *)
Lemma Math_min_is_minimum first more :
  Forall notNaN (first :: more) ->
  Math_min (first :: more) ∈ first :: more /\
  Forall (fun x => (Math_min (first :: more) <=? x)%float = true) (first :: more).
Proof.
  intros Hv. destruct (fold_min2_spec _ _ notNaN_infinity Hv) as (_ & Hin & _ & Hall).
  split; [| exact Hall]. destruct Hin as [Hin | Hin]; [| exact Hin].
  unfold Math_min. inversion Hall as [|? ? Hle _]; subst. rewrite Hin in Hle.
  apply infinity_leb in Hle. rewrite Hin, <- Hle. left.
Qed.

Lemma Math_max_is_maximum first more :
  Forall notNaN (first :: more) ->
  Math_max (first :: more) ∈ first :: more /\
  Forall (fun x => (x <=? Math_max (first :: more))%float = true) (first :: more).
Proof.
  intros Hv. destruct (fold_max2_spec _ _ notNaN_neg_infinity Hv) as (_ & Hin & _ & Hall).
  split; [| exact Hall]. destruct Hin as [Hin | Hin]; [| exact Hin].
  unfold Math_max. inversion Hall as [|? ? Hle _]; subst. rewrite Hin in Hle.
  apply leb_neg_infinity in Hle. rewrite Hin, <- Hle. left.
Qed.

(** The row a key gets: its numbers in terms of the samples. *)
Definition statistics (roundExtremes : bool) (measuresKey : string) (first : float)
  (more : list float) : Row :=
  let samples := first :: more in
  let count := of_nat (length samples) in
  let mean := (fold_left PrimFloat.add more first / count)%float in
  let squares := map (fun sample => square (sample - mean)) more in
  let variance := (fold_left PrimFloat.add squares (square (first - mean)) / count)%float in
  {| measure := (splitKey measuresKey).2;
     url := (splitKey measuresKey).1;
     n := length samples;
     mean := round mean;
     stdev := round (PrimFloat.sqrt variance);
     min := if roundExtremes then round (Math_min samples) else Math_min samples;
     max := if roundExtremes then round (Math_max samples) else Math_max samples |}.

Lemma rowOf_statistics measuresKey first more :
  rowOf (measuresKey, first :: more) = Some (statistics true measuresKey first more).
Proof.
  unfold rowOf, statistics, variance, average, reduce_sum.
  destruct (splitKey measuresKey). cbn [map mbind option_bind fst snd length].
  rewrite length_map. reflexivity.
Qed.

Lemma rowOf_script_statistics measuresKey first more :
  rowOf_script (measuresKey, first :: more) = Some (statistics false measuresKey first more).
Proof.
  unfold rowOf_script, statistics, variance, average, reduce_sum.
  destruct (splitKey measuresKey). cbn [map mbind option_bind fst snd length].
  rewrite length_map. reflexivity.
Qed.

Definition tenths (k : float) : float := (k / 10)%float.

(** C8, as stated, fails for [summarize()]: of the single sample 100.26 it
    reports 100.3 as the minimum and as the maximum. *)
Lemma summarize_rounds_minimum_and_maximum :
  let sample := (10026 / 100)%float in
  exists row,
    rowOf ("https://x.test/@@@script-evaluation", [sample]) = Some row /\
    Math_min [sample] = sample /\ min row = tenths 1003 /\ min row <> sample /\
    Math_max [sample] = sample /\ max row = tenths 1003 /\ max row <> sample.
Proof.
  cbv zeta. eexists. split; [vm_compute; reflexivity |].
  cbn [min max].
  assert (Hne : tenths 1003 <> (10026 / 100)%float).
  { intros H. apply (f_equal (fun x => (x <? tenths 1003)%float)) in H.
    vm_compute in H. discriminate H. }
  repeat split; try (vm_compute; reflexivity); vm_compute; exact Hne.
Qed.

(** C8, amended: for a key with samples [first :: more], of count [n], both
    revisions report the count, the mean (the sum from left to right,
    divided by [n]) and the standard deviation (the square root of the sum
    of squared deviations from that mean, divided by [n], not [n - 1]),
    each rounded to the tenth by [Math.round(10 x) / 10].  The script-level
    revision reports [Math.min] and [Math.max] of the samples, which are
    the least and the greatest sample when none is NaN; [summarize()]
    reports these two rounded to the tenth as well.  For the samples
    100, 200, 300 both report mean 200, standard deviation 81.6, minimum
    100 and maximum 300. *)
Theorem summary_row_statistics (measuresKey : string) (first : float) (more : list float) :
  let samples := first :: more in
  rowOf (measuresKey, samples) = Some (statistics true measuresKey first more) /\
  rowOf_script (measuresKey, samples) = Some (statistics false measuresKey first more) /\
  (Forall notNaN samples ->
   Math_min samples ∈ samples /\
   Forall (fun x => (Math_min samples <=? x)%float = true) samples /\
   Math_max samples ∈ samples /\
   Forall (fun x => (x <=? Math_max samples)%float = true) samples) /\
  let scenario := {| measure := "script-evaluation"; url := "https://x.test/"; n := 3;
                     mean := 200; stdev := tenths 816; min := 100; max := 300 |} in
  rowOf ("https://x.test/@@@script-evaluation", [100; 200; 300]%float) = Some scenario /\
  rowOf_script ("https://x.test/@@@script-evaluation", [100; 200; 300]%float) = Some scenario.
Proof.
  cbv zeta. split; [apply rowOf_statistics |]. split; [apply rowOf_script_statistics |].
  split.
  - intros Hv. destruct (Math_min_is_minimum _ _ Hv) as [H1 H2].
    destruct (Math_max_is_maximum _ _ Hv) as [H3 H4]. auto.
  - split; vm_compute; reflexivity.
Qed.

End StatisticsFacts.

(** ** Sorting *)

Module SortFacts.
Import Timings.

(** A comparison function that orders consistently: swapping the arguments
    flips the sign, and "not after" is transitive. *)
Record Consistent {A} (compare : A -> A -> comparison) : Prop := {
  flips : forall a b, compare b a = CompOpp (compare a b);
  chains : forall a b c, compare a b <> Gt -> compare b c <> Gt -> compare a c <> Gt;
}.

Lemma StronglySorted_weaken {A} (R S : A -> A -> Prop) (l : list A) :
  (forall a b, R a b -> S a b) -> StronglySorted R l -> StronglySorted S l.
Proof.
  intros HRS. induction 1 as [|a l Hl IH Ha]; constructor; [exact IH |].
  eapply Forall_impl; [exact Ha | intros b; apply HRS].
Qed.

Section Sort.
Context {A : Type} (compare : A -> A -> comparison) (ok : Consistent compare).

Definition notAfter (a b : A) : Prop := compare a b <> Gt.

Lemma notAfter_total a b : notAfter a b \/ notAfter b a.
Proof.
  unfold notAfter. rewrite (flips _ ok a b).
  destruct (compare a b); cbn; [left | left | right]; discriminate.
Qed.

Lemma notAfter_trans a b c : notAfter a b -> notAfter b c -> notAfter a c.
Proof. apply (chains _ ok). Qed.

Lemma insert_perm x l : insert compare x l ≡ₚ x :: l.
Proof.
  induction l as [|y l IH]; cbn; [reflexivity |].
  destruct (compare x y); try reflexivity.
  rewrite IH. apply Permutation_swap.
Qed.

Lemma sort_cons x l : sort compare (x :: l) = insert compare x (sort compare l).
Proof. reflexivity. Qed.

Lemma sort_perm l : sort compare l ≡ₚ l.
Proof.
  induction l as [|x l IH]; [reflexivity |].
  rewrite sort_cons, insert_perm, IH. reflexivity.
Qed.

Lemma insert_sorted x l : Sorted notAfter l -> Sorted notAfter (insert compare x l).
Proof.
  induction 1 as [|y l Hs IH Hd]; cbn.
  - repeat constructor.
  - destruct (compare x y) eqn:E.
    + constructor; [constructor; assumption |]. constructor. unfold notAfter. congruence.
    + constructor; [constructor; assumption |]. constructor. unfold notAfter. congruence.
    + constructor; [exact IH |].
      assert (Hyx : notAfter y x).
      { unfold notAfter. rewrite (flips _ ok x y), E. discriminate. }
      destruct l as [|z l]; cbn.
      * constructor. exact Hyx.
      * inversion Hd; subst. destruct (compare x z); constructor; assumption.
Qed.

Lemma sort_sorted l : StronglySorted notAfter (sort compare l).
Proof.
  apply Sorted_StronglySorted; [intros a b c; apply notAfter_trans |].
  induction l as [|x l IH]; [constructor | rewrite sort_cons; apply insert_sorted; exact IH].
Qed.

(** The sort is stable: the elements that compare equal to a given one keep
    their order. *)
Lemma insert_filter_tied x0 x l :
  filter (fun y => compare x0 y = Eq) (insert compare x l) =
  filter (fun y => compare x0 y = Eq) (x :: l).
Proof.
  induction l as [|y l IH]; cbn; [reflexivity |].
  destruct (compare x y) eqn:E; try reflexivity.
  rewrite filter_cons, IH. rewrite !filter_cons.
  destruct (decide (compare x0 y = Eq)) as [Hy | Hy];
    destruct (decide (compare x0 x = Eq)) as [Hx | Hx]; try reflexivity.
  exfalso. assert (H : notAfter x y).
  { apply notAfter_trans with x0; unfold notAfter.
    - rewrite (flips _ ok x0 x), Hx. discriminate.
    - rewrite Hy. discriminate. }
  apply H. exact E.
Qed.

Lemma sort_stable x0 l :
  filter (fun y => compare x0 y = Eq) (sort compare l) =
  filter (fun y => compare x0 y = Eq) l.
Proof.
  induction l as [|x l IH]; [reflexivity |].
  rewrite sort_cons, insert_filter_tied, !filter_cons, IH. reflexivity.
Qed.

(** Sorted lists with the same elements are equal when nothing ties. *)
Lemma sorted_perm_eq l1 : forall l2,
  StronglySorted notAfter l1 -> StronglySorted notAfter l2 -> l1 ≡ₚ l2 ->
  (forall a b, a ∈ l1 -> b ∈ l1 -> compare a b = Eq -> a = b) ->
  l1 = l2.
Proof.
  induction l1 as [|a l1 IH]; intros l2 S1 S2 P Hties.
  - apply Permutation_nil in P. congruence.
  - destruct l2 as [|b l2]; [apply Permutation_sym, Permutation_nil in P; discriminate |].
    inversion S1 as [|? ? S1' F1]; inversion S2 as [|? ? S2' F2]; subst.
    assert (Hab : a = b).
    { assert (Ha : a ∈ b :: l2) by (rewrite <- P; left).
      assert (Hb : b ∈ a :: l1) by (rewrite P; left).
      apply elem_of_cons in Ha as [Ha | Ha]; [exact Ha |].
      apply elem_of_cons in Hb as [Hb | Hb]; [congruence |].
      rewrite Forall_forall in F1, F2.
      pose proof (F1 b Hb) as Hle1.
      pose proof (F2 a Ha) as Hle2.
      apply Hties; [left | right; exact Hb |].
      unfold notAfter in *. rewrite (flips _ ok a b) in Hle2.
      destruct (compare a b); cbn in *; congruence. }
    subst b. f_equal. apply IH; try assumption.
    + eapply Permutation_cons_inv. exact P.
    + intros x y Hx Hy. apply Hties; right; assumption.
Qed.

Lemma sort_order_independent l1 l2 :
  l1 ≡ₚ l2 ->
  (forall a b, a ∈ l1 -> b ∈ l1 -> compare a b = Eq -> a = b) ->
  sort compare l1 = sort compare l2.
Proof.
  intros P Hties. apply sorted_perm_eq; try apply sort_sorted.
  - rewrite !sort_perm. exact P.
  - intros a b Ha Hb. rewrite sort_perm in Ha, Hb. apply Hties; assumption.
Qed.

End Sort.
End SortFacts.

(** ** The summary *)

Module SummarizeFacts.
Import JS Timings CollectFacts StatisticsFacts SortFacts.

(** Every key of the map has at least one sample. *)
Definition Populated (m : MeasuresMap) : Prop := Forall (fun kv => kv.2 <> []) m.

Lemma push_populated key d m :
  Populated m ->
  Populated (Map_push key d
               match Map_get key m with Some _ => m | None => Map_set key [] m end).
Proof.
  induction 1 as [|[k old] m Hold Hm IH]; cbn.
  - rewrite String.eqb_refl. repeat constructor. discriminate.
  - destruct (String.eqb k key) eqn:E; cbn.
    + rewrite E. constructor; [| exact Hm]. cbn in *. destruct old; discriminate.
    + destruct (Map_get key m) eqn:G; cbn; rewrite E; (constructor; [exact Hold | exact IH]).
Qed.

Lemma addMeasure_populated measureFilter lhr m measureName m' :
  Populated m -> addMeasure measureFilter lhr m measureName = Some m' -> Populated m'.
Proof.
  unfold addMeasure. intros Hm.
  destruct (match measureFilter with Some test => negb (test measureName) | None => false end).
  - intros [= <-]. exact Hm.
  - destruct (find _ _); [| discriminate]. intros [= <-]. apply push_populated. exact Hm.
Qed.

Lemma foldl_None {B} (f : MeasuresMap -> B -> option MeasuresMap) (l : list B) :
  foldl (fun acc b => m ← acc; f m b) None l = None.
Proof. induction l; [reflexivity | exact IHl]. Qed.

Lemma addLhr_populated measureFilter lhr m m' :
  Populated m -> addLhr measureFilter m lhr = Some m' -> Populated m'.
Proof.
  unfold addLhr. generalize (map LH.name (LH.timing_entries lhr)). intros names.
  revert m. induction names as [|n names IH]; intros m Hm; cbn [foldl].
  - intros [= <-]. exact Hm.
  - cbn [mbind option_bind].
    destruct (addMeasure measureFilter lhr m n) as [m1|] eqn:E.
    + apply IH. eapply addMeasure_populated; eassumption.
    + rewrite foldl_None. discriminate.
Qed.

(** The lookup by name never fails: a result file is always taken in. *)
Lemma addLhr_total measureFilter lhr m : is_Some (addLhr measureFilter m lhr).
Proof.
  destruct (addNames_spec measureFilter lhr (map LH.name (LH.timing_entries lhr)) m)
    as (m' & Hm' & _); [auto |].
  exists m'. exact Hm'.
Qed.

Lemma collect_from measureFilter lhrs : forall m,
  Populated m ->
  exists m',
    foldl (fun acc lhr => m ← acc; addLhr measureFilter m lhr) (Some m) lhrs = Some m' /\
    Populated m'.
Proof.
  induction lhrs as [|lhr lhrs IH]; intros m Hm; cbn [foldl].
  - exists m. split; [reflexivity | exact Hm].
  - cbn [mbind option_bind]. destruct (addLhr_total measureFilter lhr m) as [m1 H1].
    rewrite H1. apply IH. eapply addLhr_populated; eassumption.
Qed.

Lemma collectMeasures_total measureFilter lhrs :
  exists m, collectMeasures measureFilter lhrs = Some m /\ Populated m.
Proof. apply collect_from. constructor. Qed.

Lemma rows_total (rowFor : string * list float -> option Row) (m : MeasuresMap) :
  (forall key first more, is_Some (rowFor (key, first :: more))) ->
  Populated m -> is_Some (mapM rowFor m).
Proof.
  intros Hrow Hm. apply mapM_is_Some. eapply Forall_impl; [exact Hm |].
  intros [key [|first more]] Hne; [contradiction | apply Hrow].
Qed.

Section Locale.
Variable localeCompare : string -> string -> comparison.
Hypothesis locale_ok : Consistent localeCompare.

(** [a] comes no later than [b] by measure name, then by URL. *)
Definition ByMeasureThenUrl (a b : Row) : Prop :=
  localeCompare (measure a) (measure b) = Lt \/
  (localeCompare (measure a) (measure b) = Eq /\ localeCompare (url a) (url b) <> Gt).

(** [a] comes no later than [b] by measure name. *)
Definition ByMeasure (a b : Row) : Prop := localeCompare (measure a) (measure b) <> Gt.

Lemma ByMeasureThenUrl_iff a b : ByMeasureThenUrl a b <-> notAfter (compareRows localeCompare) a b.
Proof.
  unfold ByMeasureThenUrl, notAfter, compareRows.
  destruct (localeCompare (measure a) (measure b)); intuition congruence.
Qed.

Lemma Eq_trans a b c :
  localeCompare a b = Eq -> localeCompare b c = Eq -> localeCompare a c = Eq.
Proof.
  intros H1 H2.
  assert (localeCompare a c <> Gt) by (apply (chains _ locale_ok a b c); congruence).
  assert (localeCompare c a <> Gt).
  { apply (chains _ locale_ok c b a); rewrite (flips _ locale_ok); [rewrite H2 | rewrite H1];
      discriminate. }
  rewrite (flips _ locale_ok a c) in *. destruct (localeCompare a c); cbn in *; congruence.
Qed.

Lemma compareRows_consistent : Consistent (compareRows localeCompare).
Proof.
  split.
  - intros a b. unfold compareRows.
    rewrite (flips _ locale_ok (measure a) (measure b)),
            (flips _ locale_ok (url a) (url b)).
    destruct (localeCompare (measure a) (measure b)); reflexivity.
  - intros a b c. unfold compareRows.
    pose proof (chains _ locale_ok (measure a) (measure b) (measure c)) as Tm.
    pose proof (chains _ locale_ok (url a) (url b) (url c)) as Tu.
    pose proof (chains _ locale_ok (measure c) (measure a) (measure b)) as Tm1.
    pose proof (chains _ locale_ok (measure b) (measure c) (measure a)) as Tm2.
    rewrite (flips _ locale_ok (measure a) (measure c)) in Tm1, Tm2.
    rewrite (flips _ locale_ok (measure a) (measure b)) in Tm2.
    rewrite (flips _ locale_ok (measure b) (measure c)) in Tm1.
    destruct (localeCompare (measure a) (measure b)) eqn:E1;
      destruct (localeCompare (measure b) (measure c)) eqn:E2;
      destruct (localeCompare (measure a) (measure c)) eqn:E3; cbn in *;
      intros H1 H2; try congruence; try (exfalso; intuition congruence); auto.
Qed.

Lemma compareRows_script_consistent : Consistent (compareRows_script localeCompare).
Proof.
  split; intros; unfold compareRows_script in *.
  - apply (flips _ locale_ok).
  - eapply (chains _ locale_ok); eassumption.
Qed.

(** C9, amended: [summarize()] always returns rows, and they are the rows of
    the keys sorted by measure name and then by URL under [localeCompare],
    which orders the rows totally up to ties; when no two rows tie, the
    order of the rows does not depend on the order in which the keys were
    met.  The script-level revision always returns rows as well, sorted by
    measure name only: rows of one measure name stay in the order in which
    their keys were met. *)
Theorem summary_rows_sorted_by_measure (measureFilter : option (string -> bool))
  (lhrs : list LH.Result) :
  exists measuresMap results results',
    collectMeasures measureFilter lhrs = Some measuresMap /\
    mapM rowOf measuresMap = Some results /\
    mapM rowOf_script measuresMap = Some results' /\
    (let rows := sort (compareRows localeCompare) results in
     summarize localeCompare measureFilter lhrs = Some rows /\
     rows ≡ₚ results /\
     StronglySorted ByMeasureThenUrl rows /\
     (forall a b, ByMeasureThenUrl a b \/ ByMeasureThenUrl b a) /\
     (forall a b c, ByMeasureThenUrl a b -> ByMeasureThenUrl b c -> ByMeasureThenUrl a c) /\
     (forall others,
        others ≡ₚ results ->
        (forall a b, a ∈ results -> b ∈ results ->
                     compareRows localeCompare a b = Eq -> a = b) ->
        sort (compareRows localeCompare) others = rows)) /\
    (let rows := sort (compareRows_script localeCompare) results' in
     summarize_script localeCompare measureFilter lhrs = Some rows /\
     rows ≡ₚ results' /\
     StronglySorted ByMeasure rows /\
     (forall r, filter (fun y => localeCompare (measure r) (measure y) = Eq) rows =
                filter (fun y => localeCompare (measure r) (measure y) = Eq) results')).
Proof.
  destruct (collectMeasures_total measureFilter lhrs) as (m & Hm & Hp).
  destruct (rows_total rowOf m) as [results Hr];
    [intros; rewrite rowOf_statistics; eauto | exact Hp |].
  destruct (rows_total rowOf_script m) as [results' Hr'];
    [intros; rewrite rowOf_script_statistics; eauto | exact Hp |].
  exists m, results, results'. split; [exact Hm |]. split; [exact Hr |]. split; [exact Hr' |].
  pose proof compareRows_consistent as C1. pose proof compareRows_script_consistent as C2.
  split; cbv zeta.
  - split; [unfold summarize; rewrite Hm; cbn [mbind option_bind]; rewrite Hr; reflexivity |].
    split; [apply sort_perm |]. split; [| split; [| split]].
    + eapply StronglySorted_weaken; [| apply (sort_sorted _ C1)].
      intros a b. apply ByMeasureThenUrl_iff.
    + intros a b. rewrite !ByMeasureThenUrl_iff. apply (notAfter_total _ C1).
    + intros a b c. rewrite !ByMeasureThenUrl_iff. apply (notAfter_trans _ C1).
    + intros others P Hties. apply (sort_order_independent _ C1); [exact P |].
      intros a b Ha Hb. rewrite P in Ha, Hb. apply Hties; assumption.
  - split; [unfold summarize_script; rewrite Hm; cbn [mbind option_bind]; rewrite Hr';
            reflexivity |].
    split; [apply sort_perm |]. split.
    + apply (sort_sorted _ C2).
    + intros r. apply (sort_stable _ C2 r).
Qed.

End Locale.


(** The comparison by code units, which is what [localeCompare] gives for
    the plain lower-case names used in the examples. *)
Lemma codeUnits_consistent : Consistent String.compare.
Proof.
  assert (Hle : forall a b, String.compare a b <> Gt <-> String.le a b).
  { intros a b. unfold String.le, String.leb. destruct (String.compare a b); cbn; intuition congruence. }
  split.
  - intros a b. apply String.compare_antisym.
  - intros a b c. rewrite !Hle. intros H1 H2. etransitivity; eassumption.
Qed.

Lemma summary_rows_sorted_by_measure_witness :
  exists rows,
    summarize String.compare None
      [lhrOf "b" [entry "x" 1; entry "y" 2]; lhrOf "a" [entry "x" 5]] = Some rows /\
    StronglySorted (ByMeasureThenUrl String.compare) rows.
Proof.
  destruct (summary_rows_sorted_by_measure String.compare codeUnits_consistent None
              [lhrOf "b" [entry "x" 1; entry "y" 2]; lhrOf "a" [entry "x" 5]])
    as (m & results & results' & _ & _ & _ & (H1 & _ & H3 & _) & _).
  eexists. split; [exact H1 | exact H3].
Defined.

(** C9, as stated, fails for the script-level revision: of two result files
    for the URLs [b] and [a], read in this order, each with a measure [x],
    it puts the row of [b] before the row of [a]. *)
Lemma script_revision_does_not_sort_by_url :
  exists rowB rowA,
    summarize_script String.compare None [lhrOf "b" [entry "x" 1]; lhrOf "a" [entry "x" 5]]
      = Some [rowB; rowA] /\
    measure rowB = "x" /\ url rowB = "b" /\ measure rowA = "x" /\ url rowA = "a" /\
    String.compare "b" "a" = Gt /\
    ~ StronglySorted (ByMeasureThenUrl String.compare) [rowB; rowA].
Proof.
  eexists _, _. split; [vm_compute; reflexivity |].
  repeat (split; [reflexivity |]).
  intros H. inversion H as [|? ? _ F]; subst. inversion F as [|? ? Hab _]; subst.
  destruct Hab as [Hab | [_ Hab]]; [discriminate Hab | apply Hab; reflexivity].
Qed.

End SummarizeFacts.

(** ** The loop over the expectations *)

Module LoopFacts.
Import JS Smokehouse RunnerFacts.

Lemma forEach_app_throw ext before l e w' :
  forall p f w00 bs p' f' w0,
  forEach ext before p f w00 = Ok (bs, (p', f')) w0 ->
  forEach ext l p' f' w0 = Throw e w' ->
  forEach ext (before ++ l) p f w00 = Throw e w'.
Proof.
  induction before as [|x before IH]; intros p f w00 bs p' f' w0 Hb Hl.
  - cbn in Hb. unfold ret in Hb. injection Hb as <- <- <- <-. exact Hl.
  - cbn [app forEach] in *. unfold bind at 1 in Hb. unfold bind at 1.
    destruct (processExpectation ext x w00) as [r wa | | |]; try discriminate.
    unfold bind at 1 in Hb. unfold bind at 1.
    destruct (forEach ext before (p + passed r.2) (f + failed r.2) wa)
      as [[rs [p1 f1]] wb | | |] eqn:Hrec; try discriminate.
    unfold ret in Hb. cbn in Hb. injection Hb as <- <- <- <-.
    erewrite IH; [reflexivity | exact Hrec | exact Hl].
Qed.

(** An error thrown in the body of the loop ends the script there. *)
Lemma main_throw ext before expected more bs p f w00 w0 error w' :
  forEach ext before 0 0 w00 = Ok (bs, (p, f)) w0 ->
  processExpectation ext expected w0 = Throw error w' ->
  main ext (before ++ expected :: more) w00 = Throw error w'.
Proof.
  intros Hb Hstep. unfold main, bind at 1.
  erewrite forEach_app_throw; [reflexivity | exact Hb |].
  cbn [forEach]. unfold bind at 1. rewrite Hstep. reflexivity.
Qed.

Lemma forEach_app_Ok ext before l : forall p f w00 bs p1 f1 w0 ms p' f' w2,
  forEach ext before p f w00 = Ok (bs, (p1, f1)) w0 ->
  forEach ext l p1 f1 w0 = Ok (ms, (p', f')) w2 ->
  forEach ext (before ++ l) p f w00 = Ok (bs ++ ms, (p', f')) w2.
Proof.
  induction before as [|x before IH]; intros p f w00 bs p1 f1 w0 ms p' f' w2 Hb Hl.
  - cbn in Hb. unfold ret in Hb. injection Hb as <- <- <- <-. exact Hl.
  - cbn [app forEach] in *. unfold bind at 1 in Hb. unfold bind at 1.
    destruct (processExpectation ext x w00) as [r wa | | |]; try discriminate.
    unfold bind at 1 in Hb. unfold bind at 1.
    destruct (forEach ext before (p + passed r.2) (f + failed r.2) wa)
      as [[rs [p2 f2]] wb | | |] eqn:Hrec; try discriminate.
    unfold ret in Hb. cbn in Hb. injection Hb as <- <- <- <-.
    erewrite IH; [reflexivity | exact Hrec | exact Hl].
Qed.

Lemma forEach_counts_grow ext l : forall p f w es p' f' w',
  forEach ext l p f w = Ok (es, (p', f')) w' -> (p <= p')%nat /\ (f <= f')%nat.
Proof.
  induction l as [|x l IH]; intros p f w es p' f' w' H.
  - cbn in H. unfold ret in H. injection H as _ <- <- _. lia.
  - cbn [forEach] in H. unfold bind at 1 in H.
    destruct (processExpectation ext x w) as [r wa | | |]; try discriminate.
    unfold bind at 1 in H.
    destruct (forEach ext l (p + passed r.2) (f + failed r.2) wa)
      as [[rs [p1 f1]] wb | | |] eqn:Hrec; try discriminate.
    unfold ret in H. cbn in H. injection H as _ <- <- _.
    apply IH in Hrec. lia.
Qed.

End LoopFacts.

(** ** The runner at its edges *)

Module RunnerEdgeFacts.
Import JS JSFacts Smokehouse RunnerFacts SnapshotFacts LoopFacts.

(** The lines debug mode prints after the retry loop. *)
Definition debugStreams (isDebug : bool) (res : SpawnResult) : list (Stream * string) :=
  if isDebug
  then [(Out, "STDOUT: " +:+ stdout res); (Err, "STDERR: " +:+ sp_stderr res)]
  else [].

Lemma afterSpawn_missing ext dbg r res w :
  status res <> Some PROTOCOL_TIMEOUT_EXIT_CODE ->
  fs w !! outputPathOf r = None ->
  afterSpawn ext dbg r res w =
  Exit (status res)
       {| fs := fs w;
          console := console w ++ debugStreams dbg res ++
            [(Err, "Lighthouse run failed to produce a report and exited with "
                   +:+ show (status res) +:+ ". stderr to follow:");
             (Err, sp_stderr res)];
          spawned := spawned w; randoms := randoms w |}.
Proof.
  intros H67 Hfile.
  unfold afterSpawn, bind, when, console_log, console_error, process_exit, ret, existsSync.
  rewrite bool_decide_eq_false_2 by exact H67.
  destruct dbg; cbn; rewrite Hfile; cbn; rewrite <- ?app_assoc; reflexivity.
Qed.

(** X1: when the last run of the tool leaves no report and did not exit with
    the protocol-timeout code, [runLighthouse] writes the tool's error
    stream to the error stream and exits the process with the tool's own
    exit code; no file is touched, and the script ends there whatever
    expectations remain. *)
Theorem missing_report_exits_with_the_tool_code (ext : Externals) (expected : Expected)
  (w0 : World) (res : SpawnResult) (w2 : World) :
  let url := e_requestedUrl (lhr expected) in
  let w := logged (doingRun expected) w0 in
  let r := randInt ext (randoms w) in
  let isDebug := cli_debug ext || env_LH_SMOKE_DEBUG ext in
  spawnLoop ext (S RETRIES) (lighthouseArgs ext url (configPath ext) r) 0 (afterRandom w)
    = Ok res w2 ->
  status res <> Some PROTOCOL_TIMEOUT_EXIT_CODE ->
  fs w2 !! outputPathOf r = None ->
  exists w',
    runLighthouse ext url (configPath ext) (cli_debug ext) w = Exit (status res) w' /\
    fs w' = fs w2 /\ spawned w' = spawned w2 /\
    console w' = console w2 ++ debugStreams isDebug res ++
      [(Err, "Lighthouse run failed to produce a report and exited with "
             +:+ show (status res) +:+ ". stderr to follow:");
       (Err, sp_stderr res)] /\
    forall before more bs p f w00,
      forEach ext before 0 0 w00 = Ok (bs, (p, f)) w0 ->
      main ext (before ++ expected :: more) w00 = Exit (status res) w'.
Proof.
  intros url w r isDebug Hloop H67 Hfile.
  pose proof (runLighthouse_unfold ext url (configPath ext) (cli_debug ext) w) as Hu.
  fold r in Hu. rewrite Hloop in Hu. fold isDebug in Hu.
  rewrite (afterSpawn_missing _ _ _ _ _ H67 Hfile) in Hu.
  eexists. split; [exact Hu |]. repeat split.
  intros before more bs p f w00 Hb. exact (main_exit _ _ _ _ _ _ _ _ _ _ _ Hb Hu).
Qed.

(** The tool crashes with status 2 and leaves nothing. *)
Definition crashes (n : nat) : option Z * string * option string :=
  (Some 2, "Unable to connect", None).

Lemma missing_report_exits_with_the_tool_code_witness :
  exists w',
    main (Fixtures.externals crashes false)
         [Fixtures.expectation "https://x.test/"; Fixtures.expectation "https://y.test/"]
         Fixtures.world0 = Exit (Some 2) w' /\
    spawned w' = 1%nat.
Proof.
  edestruct (missing_report_exits_with_the_tool_code
               (Fixtures.externals crashes false)
               (Fixtures.expectation "https://x.test/") Fixtures.world0)
    as (w' & _ & _ & Hsp & _ & Hmain).
  - vm_compute. reflexivity.
  - vm_compute. discriminate.
  - vm_compute. reflexivity.
  - exists w'. split; [| exact Hsp].
    apply (Hmain [] [Fixtures.expectation "https://y.test/"] [] 0%nat 0%nat Fixtures.world0).
    reflexivity.
Defined.

(** After a run that returns, the files are those the tool left, except,
    outside debug mode, the report and what lies in the artifacts
    directory. *)
Lemma afterSpawn_Ok_files ext dbg r res w results w' :
  afterSpawn ext dbg r res w = Ok results w' ->
  spawned w' = spawned w /\ randoms w' = randoms w /\
  is_Some (fs w !! outputPathOf r) /\
  Some (r_artifacts results) = loadArtifacts ext (fs w) (artifactsDirectoryOf r) /\
  fs w' =
    if dbg then fs w
    else filter (fun kv => startsWith (artifactsDirectoryOf r +:+ "/") kv.1 = false
                           /\ kv.1 <> artifactsDirectoryOf r)
                (delete (outputPathOf r) (fs w)).
Proof.
  unfold afterSpawn, bind, when, console_log, console_error, process_exit, ret,
    existsSync, readFileSync, throw, unlinkSync, rimraf_sync.
  intros H.
  destruct dbg; cbn in H; destruct (bool_decide (status res = Some PROTOCOL_TIMEOUT_EXIT_CODE));
    try discriminate H; cbn in H.
  all: destruct (fs w !! outputPathOf r) as [json|] eqn:Hfile; cbn in H;
    rewrite ?Hfile in H; cbn in H; try discriminate H.
  all: destruct (JSON_parse_lhr ext json) as [lhr|]; cbn in H; try discriminate H.
  all: destruct (loadArtifacts ext (fs w) (artifactsDirectoryOf r)) as [a|]; cbn in H;
    rewrite ?Hfile in H; cbn in H; try discriminate H.
  all: destruct (Bool.eqb (truthy (status res)) (bool_decide (is_Some (LH.runtimeError lhr))));
    cbn in H; try discriminate H.
  all: injection H as <- <-; cbn; repeat split; eauto.
Qed.


(** X2: outside debug mode a run that returns has removed the report and
    everything in its artifacts directory, after loading the artifacts, and
    has left every other file as the tool left it; in debug mode (the flag
    or [LH_SMOKE_DEBUG]) it leaves all files. *)
Theorem runLighthouse_removes_its_files_unless_debugging (ext : Externals)
  (url cfg : string) (dbg : bool) (w : World) (res : SpawnResult) (w2 : World)
  (results : RunnerResult) (w' : World) :
  let r := randInt ext (randoms w) in
  let dir := artifactsDirectoryOf r in
  spawnLoop ext (S RETRIES) (lighthouseArgs ext url cfg r) 0 (afterRandom w) = Ok res w2 ->
  runLighthouse ext url cfg dbg w = Ok results w' ->
  is_Some (fs w2 !! outputPathOf r) /\
  Some (r_artifacts results) = loadArtifacts ext (fs w2) dir /\
  if dbg || env_LH_SMOKE_DEBUG ext then fs w' = fs w2
  else
    fs w' !! outputPathOf r = None /\
    (forall path, startsWith (dir +:+ "/") path = true \/ path = dir -> fs w' !! path = None) /\
    (forall path, path <> outputPathOf r -> startsWith (dir +:+ "/") path = false ->
                  path <> dir -> fs w' !! path = fs w2 !! path).
Proof.
  intros r dir Hloop Hrun. rewrite runLighthouse_unfold in Hrun. fold r in Hrun.
  rewrite Hloop in Hrun.
  destruct (afterSpawn_Ok_files _ _ _ _ _ _ _ Hrun) as (_ & _ & Hfile & Hart & Hfs).
  split; [exact Hfile |]. split; [exact Hart |].
  destruct (dbg || env_LH_SMOKE_DEBUG ext); [exact Hfs |]. rewrite Hfs. fold dir.
  split; [| split].
  - apply map_lookup_filter_None. left. apply lookup_delete_eq.
  - intros path Hp. apply map_lookup_filter_None. right. intros x _ [H1 H2]. cbn in *.
    destruct Hp as [Hp | Hp]; congruence.
  - intros path H1 H2 H3.
    destruct (fs w2 !! path) as [x|] eqn:E.
    + apply map_lookup_filter_Some. split; [rewrite lookup_delete_ne by congruence; exact E |].
      split; assumption.
    + apply map_lookup_filter_None. left. rewrite lookup_delete_ne by congruence. exact E.
Qed.

(** The tool succeeds and leaves a report, an artifact and a file of its
    own. *)
Definition leavesFiles (n : nat) (command : string) (args : list string)
  (files : gmap string string) : SpawnResult * gmap string string :=
  ({| status := Some 0; stdout := ""; sp_stderr := "" |},
   <["smokehouse-1.report.json" := "ok"]>
     (<["./.tmp/smokehouse-artifacts-1/artifacts.json" := "{}"]>
        (<["chrome.log" := "launched"]> files))).

Definition leavingFiles : Externals :=
  {| spawnSync := leavesFiles;
     randInt := randInt (Fixtures.externals Fixtures.succeeds false);
     URL_new := Fixtures.parseURL;
     JSON_parse_lhr := Fixtures.parseReport;
     JSON_parse_lines := fun _ => None;
     loadArtifacts := fun _ _ => Some ∅;
     compareLhr := fun _ _ => {| passed := 1; failed := 0 |};
     log_dim := ""; log_reset := "";
     greenify := fun s => s; redify := fun s => s;
     dirname := "/smokehouse";
     configPath := "/smokehouse/config.js";
     cli_u := false; cli_debug := false;
     env_LH_SMOKE_DEBUG := false; env_APPVEYOR := false |}.

Lemma runLighthouse_removes_its_files_unless_debugging_witness :
  exists results w',
    runLighthouse leavingFiles "https://x.test/" "cfg" false Fixtures.world0 = Ok results w' /\
    fs w' !! "smokehouse-1.report.json" = None /\
    fs w' !! "./.tmp/smokehouse-artifacts-1/artifacts.json" = None /\
    fs w' !! "chrome.log" = Some "launched".
Proof.
  assert (Hrun : exists results w',
            runLighthouse leavingFiles "https://x.test/" "cfg" false Fixtures.world0
            = Ok results w') by (eexists _, _; vm_compute; reflexivity).
  destruct Hrun as (results & w' & Hrun). exists results, w'. split; [exact Hrun |].
  edestruct (runLighthouse_removes_its_files_unless_debugging leavingFiles
               "https://x.test/" "cfg" false Fixtures.world0) as (_ & _ & Hfs).
  - vm_compute. reflexivity.
  - exact Hrun.
  - cbn in Hfs. destruct Hfs as (H1 & H2 & H3). split; [exact H1 |]. split.
    + apply H2. left. reflexivity.
    + rewrite H3; [vm_compute; reflexivity | discriminate | reflexivity | discriminate].
Defined.


(** The error that ends the reading of the report: that of [JSON.parse], or,
    the report parsed, that of [loadArtifacts]. *)
Definition readError (parsed : option LH.Result) : string :=
  match parsed with Some _ => "loadArtifacts" | None => "SyntaxError" end.

Lemma afterSpawn_unreadable ext dbg r res w json :
  status res <> Some PROTOCOL_TIMEOUT_EXIT_CODE ->
  fs w !! outputPathOf r = Some json ->
  let w' := {| fs := fs w; console := console w ++ debugStreams dbg res;
               spawned := spawned w; randoms := randoms w |} in
  match JSON_parse_lhr ext json with
  | None => afterSpawn ext dbg r res w = Throw "SyntaxError" w'
  | Some _ =>
      loadArtifacts ext (fs w) (artifactsDirectoryOf r) = None ->
      afterSpawn ext dbg r res w = Throw "loadArtifacts" w'
  end.
Proof.
  intros H67 Hfile. destruct w as [files lines sp rn]. cbn [fs] in Hfile.
  unfold afterSpawn, bind, when, console_log, console_error, process_exit, ret,
    existsSync, readFileSync, throw.
  rewrite bool_decide_eq_false_2 by exact H67.
  destruct dbg; cbn; rewrite Hfile; cbn; rewrite ?Hfile.
  all: destruct (JSON_parse_lhr ext json); cbn; [intros Hart; rewrite Hart |];
    rewrite <- ?app_assoc, ?app_nil_r; reflexivity.
Qed.

(** X3: a report that [JSON.parse] rejects, or artifacts that cannot be loaded,
    end [runLighthouse] with an uncaught error before the clean-up: the
    report and the artifacts stay where the tool left them, in debug mode or
    not, and the script ends with status 1. *)
Theorem unreadable_report_is_left_behind (ext : Externals) (expected : Expected)
  (w0 : World) (res : SpawnResult) (w2 : World) (json : string) :
  let url := e_requestedUrl (lhr expected) in
  let w := logged (doingRun expected) w0 in
  let r := randInt ext (randoms w) in
  spawnLoop ext (S RETRIES) (lighthouseArgs ext url (configPath ext) r) 0 (afterRandom w)
    = Ok res w2 ->
  status res <> Some PROTOCOL_TIMEOUT_EXIT_CODE ->
  fs w2 !! outputPathOf r = Some json ->
  JSON_parse_lhr ext json = None \/
    loadArtifacts ext (fs w2) (artifactsDirectoryOf r) = None ->
  exists error w',
    runLighthouse ext url (configPath ext) (cli_debug ext) w = Throw error w' /\
    error = readError (JSON_parse_lhr ext json) /\
    fs w' = fs w2 /\
    forall before more bs p f w00,
      forEach ext before 0 0 w00 = Ok (bs, (p, f)) w0 ->
      exitStatus (main ext (before ++ expected :: more) w00) = Some 1.
Proof.
  intros url w r Hloop H67 Hfile Hbad.
  pose proof (afterSpawn_unreadable ext (cli_debug ext || env_LH_SMOKE_DEBUG ext)
                r res w2 json H67 Hfile) as Hafter.
  cbv zeta in Hafter.
  assert (Hrun : exists w',
             runLighthouse ext url (configPath ext) (cli_debug ext) w
             = Throw (readError (JSON_parse_lhr ext json)) w'
             /\ fs w' = fs w2).
  { rewrite runLighthouse_unfold. fold r. rewrite Hloop.
    destruct (JSON_parse_lhr ext json) as [lhr|].
    - destruct Hbad as [Hbad | Hbad]; [discriminate |].
      rewrite (Hafter Hbad). eexists. split; reflexivity.
    - rewrite Hafter. eexists. split; reflexivity. }
  destruct Hrun as (w' & Hrun & Hfs).
  exists (readError (JSON_parse_lhr ext json)), w'.
  split; [exact Hrun |]. split; [reflexivity |]. split; [exact Hfs |].
  intros before more bs p f w00 Hb.
  assert (Hstep : processExpectation ext expected w0
                  = Throw (readError (JSON_parse_lhr ext json)) w').
  { rewrite processExpectation_unfold. unfold bind at 1. fold url. fold w.
    rewrite Hrun. reflexivity. }
  rewrite (main_throw _ _ _ _ _ _ _ _ _ _ _ Hb Hstep). reflexivity.
Qed.

Definition garbles (n : nat) : option Z * string * option string :=
  (Some 0, "", Some "<html>").

Lemma unreadable_report_is_left_behind_witness :
  exists w',
    runLighthouse (Fixtures.externals garbles false) "https://x.test/"
      "/smokehouse/config.js" false
      (logged (doingRun (Fixtures.expectation "https://x.test/")) Fixtures.world0)
    = Throw "SyntaxError" w' /\
    fs w' !! "smokehouse-1.report.json" = Some "<html>".
Proof.
  edestruct unreadable_report_is_left_behind
    with (ext := Fixtures.externals garbles false)
         (expected := Fixtures.expectation "https://x.test/")
         (w0 := Fixtures.world0) as (error & w' & Hrun & -> & Hfs & _).
  - vm_compute. reflexivity.
  - vm_compute. discriminate.
  - vm_compute. reflexivity.
  - left. vm_compute. reflexivity.
  - exists w'. split; [exact Hrun |]. rewrite Hfs. vm_compute. reflexivity.
Defined.

End RunnerEdgeFacts.

(** ** The script *)

Module ScriptFacts.
Import JS JSFacts Smokehouse RunnerFacts SnapshotFacts LoopFacts RunnerEdgeFacts.

(** Every code unit of the string is a letter, a digit or an underscore. *)
Fixpoint plain (s : string) : Prop :=
  match s with
  | EmptyString => True
  | String c s' => (is_alnum c = true \/ c = "_"%char) /\ plain s'
  end.

Lemma plain_app s t : plain s -> plain t -> plain (s +:+ t).
Proof.
  induction s as [|c s IH]; [intros _ H; exact H |].
  intros [Hc Hs] Ht. rewrite app_String. split; [exact Hc | apply IH; assumption].
Qed.

Lemma plain_escape s : plain (escape_non_alnum s).
Proof.
  induction s as [|c s IH]; [exact I |]. cbn [escape_non_alnum plain].
  split; [| exact IH]. destruct (is_alnum c) eqn:E; [left; exact E | right; reflexivity].
Qed.

Lemma hash_prefix : take 6 (Crypto.md5_hex "url.search") = "792c07".
Proof. vm_compute. reflexivity. Qed.

(** X4: the file name of a snapshot is made of letters, digits and underscores
    only, whatever the URL, followed by [.json], and lies in the
    [snapshots] directory beside the script; the name is one code unit
    longer than the URL without its query, and seven longer when the URL has
    a query. *)
Theorem snapshot_file_name_is_plain (ext : Externals) (expected : Expected) (w : World)
  (path : string) (w' : World) :
  getSnapshotPath ext expected w = Ok path w' ->
  exists url name,
    URL_new ext (e_requestedUrl (lhr expected)) = Some url /\
    path = dirname ext +:+ "/snapshots/" +:+ name +:+ ".json" /\
    plain name /\
    String.length name =
      (String.length (URL_href (URL_clear_search url)) + 1
       + (if nonempty (URL_search url) then 6 else 0))%nat /\
    w' = w.
Proof.
  unfold getSnapshotPath. destruct (URL_new ext _) as [url|]; [| discriminate].
  rewrite hash_prefix. unfold ret.
  set (hash := if nonempty (URL_search url) then "792c07" else URL_search url).
  assert (Hhash : (if nonempty hash then hash else "")
                  = if nonempty (URL_search url) then "792c07" else "").
  { subst hash. destruct (URL_search url); reflexivity. }
  rewrite Hhash. intros H. injection H as <- <-.
  exists url, (escape_non_alnum (URL_href (URL_clear_search url)) +:+ "_"
               +:+ (if nonempty (URL_search url) then "792c07" else "")).
  split; [reflexivity |]. split; [rewrite !app_assoc'; reflexivity |]. split; [| split].
  - apply plain_app; [apply plain_escape |].
    destruct (nonempty (URL_search url)); cbv; intuition reflexivity.
  - rewrite !length_app.
    assert (Hlen : forall s, String.length (escape_non_alnum s) = String.length s).
    { induction s as [|c s IH]; [reflexivity | cbn; rewrite IH; reflexivity]. }
    rewrite Hlen. destruct (nonempty (URL_search url)); cbn; lia.
  - reflexivity.
Qed.

Lemma snapshot_file_name_is_plain_witness :
  exists name,
    getSnapshotPath (Fixtures.externals Fixtures.succeeds false)
      (Fixtures.expectation "https://x.test/a-b/?q=<>#top") Fixtures.world0
    = Ok ("/smokehouse/snapshots/" +:+ name +:+ ".json") Fixtures.world0 /\
    plain name.
Proof.
  edestruct (snapshot_file_name_is_plain (Fixtures.externals Fixtures.succeeds false)
               (Fixtures.expectation "https://x.test/a-b/?q=<>#top") Fixtures.world0)
    as (url & name & _ & Hpath & Hplain & _ & _).
  - vm_compute. reflexivity.
  - exists name. split; [| exact Hplain].
    cbn [dirname Fixtures.externals] in Hpath.
    apply (inj (String.app "/smokehouse/snapshots/")) in Hpath.
    rewrite <- Hpath. vm_compute. reflexivity.
Defined.


Lemma runLighthouse_spawns ext url cfg dbg w results w' :
  runLighthouse ext url cfg dbg w = Ok results w' -> (spawned w < spawned w')%nat.
Proof.
  rewrite runLighthouse_unfold.
  destruct (spawnLoop_spec ext (lighthouseArgs ext url cfg (randInt ext (randoms w)))
              (S RETRIES) 0 (afterRandom w)) as (k & _ & Hrun & _); [unfold RETRIES; lia |].
  cbv zeta in Hrun. rewrite Hrun. intros H.
  destruct (afterSpawn_Ok_files _ _ _ _ _ _ _ H) as (Hsp & _). rewrite Hsp. cbn. lia.
Qed.


(** X5: the loop is over at the first expectation whose body exits the process
    or throws: the script ends with that exit or that error, in the state
    the body left, and the expectations after it are not looked at. *)
Theorem script_stops_at_the_first_abort (ext : Externals)
  (before : list Expected) (expected : Expected) (bs : list Expected) (p f : nat)
  (w00 w0 : World) :
  forEach ext before 0 0 w00 = Ok (bs, (p, f)) w0 ->
  (forall code w', processExpectation ext expected w0 = Exit code w' ->
     forall more, main ext (before ++ expected :: more) w00 = Exit code w') /\
  (forall error w', processExpectation ext expected w0 = Throw error w' ->
     forall more, main ext (before ++ expected :: more) w00 = Throw error w' /\
                  exitStatus (main ext (before ++ expected :: more) w00) = Some 1).
Proof.
  intros Hb. split.
  - intros code w' He more. unfold main, bind at 1.
    erewrite forEach_app_exit; [reflexivity | exact Hb |].
    cbn [forEach]. unfold bind at 1. rewrite He. reflexivity.
  - intros error w' He more.
    assert (Hm : main ext (before ++ expected :: more) w00 = Throw error w').
    { unfold main, bind at 1.
      erewrite forEach_app_throw; [reflexivity | exact Hb |].
      cbn [forEach]. unfold bind at 1. rewrite He. reflexivity. }
    rewrite Hm. split; reflexivity.
Qed.

Lemma script_stops_at_the_first_abort_witness :
  exists w',
    main (Fixtures.externals crashes false)
         [Fixtures.expectation "https://x.test/"; Fixtures.expectation "https://y.test/"]
         Fixtures.world0 = Exit (Some 2) w'.
Proof.
  destruct (script_stops_at_the_first_abort (Fixtures.externals crashes false)
              [] (Fixtures.expectation "https://x.test/") [] 0 0
              Fixtures.world0 Fixtures.world0) as [Hexit _]; [reflexivity |].
  eexists. apply (Hexit (Some 2)). vm_compute. reflexivity.
Defined.

(** X6: an expectation that comes with [stderr] set, be it to the empty array,
    is refused with an error, but only after the tool has been run for it;
    no snapshot is read or written, and the script ends with status 1. *)
Theorem preset_stderr_is_refused_after_the_run (ext : Externals) (expected : Expected)
  (lines : list string) (w0 : World) (results : RunnerResult) (w1 : World) :
  stderr expected = Some lines ->
  runLighthouse ext (e_requestedUrl (lhr expected)) (configPath ext) (cli_debug ext)
                (logged (doingRun expected) w0) = Ok results w1 ->
  processExpectation ext expected w0 = Throw "Do not set `stderr` directly." w1 /\
  (spawned w0 < spawned w1)%nat /\
  forall before more bs p f w00,
    forEach ext before 0 0 w00 = Ok (bs, (p, f)) w0 ->
    exitStatus (main ext (before ++ expected :: more) w00) = Some 1.
Proof.
  intros Hset Hrun.
  assert (Hstep : processExpectation ext expected w0
                  = Throw "Do not set `stderr` directly." w1).
  { rewrite processExpectation_unfold. unfold bind at 1. rewrite Hrun.
    rewrite Hset. unfold bind at 1.
    rewrite bool_decide_eq_true_2 by eauto. reflexivity. }
  split; [exact Hstep |]. split.
  - apply runLighthouse_spawns in Hrun. exact Hrun.
  - intros before more bs p f w00 Hb. unfold main, bind at 1.
    erewrite forEach_app_throw; [reflexivity | exact Hb |].
    cbn [forEach]. unfold bind at 1. rewrite Hstep. reflexivity.
Qed.

Lemma preset_stderr_is_refused_after_the_run_witness :
  exists w1,
    processExpectation (Fixtures.externals Fixtures.succeeds true)
      {| lhr := {| e_requestedUrl := "https://x.test/"; e_rest := "" |}; stderr := Some [] |}
      Fixtures.world0 = Throw "Do not set `stderr` directly." w1 /\
    spawned w1 = 1%nat /\ fs w1 = ∅.
Proof.
  edestruct (preset_stderr_is_refused_after_the_run
               (Fixtures.externals Fixtures.succeeds true)
               {| lhr := {| e_requestedUrl := "https://x.test/"; e_rest := "" |};
                  stderr := Some [] |} [] Fixtures.world0) as (Hstep & _ & _).
  - reflexivity.
  - vm_compute. reflexivity.
  - eexists. split; [exact Hstep |]. split; vm_compute; reflexivity.
Defined.

End ScriptFacts.

(** ** The baseline of the comparison *)

Module BaselineFacts.
Import JS JSFacts Smokehouse RunnerFacts SnapshotFacts LoopFacts RunnerEdgeFacts ScriptFacts.

Lemma getSnapshotPath_any_world ext expected w path w' :
  getSnapshotPath ext expected w = Ok path w' ->
  forall v, getSnapshotPath ext expected v = Ok path v.
Proof.
  unfold getSnapshotPath, ret, throw. destruct (URL_new ext _); [| discriminate].
  match goal with |- Ok ?p _ = _ -> _ => generalize p end.
  intros p H v. injection H as -> _. reflexivity.
Qed.

(** The body of the loop in normal mode, from the reading of a snapshot
    that is there. *)
Lemma processExpectation_reads ext expected w0 results w1 snapshotPath text :
  cli_u ext = false ->
  stderr expected = None ->
  runLighthouse ext (e_requestedUrl (lhr expected)) (configPath ext) (cli_debug ext)
                (logged (doingRun expected) w0) = Ok results w1 ->
  getSnapshotPath ext expected w1 = Ok snapshotPath w1 ->
  fs w1 !! snapshotPath = Some text ->
  processExpectation ext expected w0 =
  match JSON_parse_lines ext text with
  | Some lines =>
      Ok (set_stderr expected lines, report ext results (set_stderr expected lines))
         (logged (asserting expected) w1)
  | None => Throw "SyntaxError" w1
  end.
Proof.
  intros Hu Hunset Hrun Hpath Hfile.
  rewrite processExpectation_unfold. unfold bind at 1. rewrite Hrun.
  rewrite Hunset, Hu. unfold bind at 1.
  rewrite bool_decide_eq_false_2 by (intros [? ?]; discriminate).
  unfold ret at 1, bind at 1. rewrite Hpath. unfold bind at 1, existsSync at 1.
  rewrite Hfile. rewrite bool_decide_eq_true_2 by eauto.
  unfold bind at 1, bind at 1, readFileSync. rewrite Hfile.
  destruct (JSON_parse_lines ext text); reflexivity.
Qed.

(** X7: with update mode off and a file at the snapshot path, the body of the
    loop takes [JSON.parse] of the file as the expectation's [stderr] and
    writes no file; a file that does not parse ends the script with an
    uncaught [SyntaxError], after the tool has run and before the note
    about asserting is printed. *)
Theorem existing_snapshot_is_the_baseline (ext : Externals) (expected : Expected)
  (w0 : World) (results : RunnerResult) (w1 : World) (snapshotPath text : string) :
  cli_u ext = false ->
  stderr expected = None ->
  runLighthouse ext (e_requestedUrl (lhr expected)) (configPath ext) (cli_debug ext)
                (logged (doingRun expected) w0) = Ok results w1 ->
  getSnapshotPath ext expected w1 = Ok snapshotPath w1 ->
  fs w1 !! snapshotPath = Some text ->
  (forall lines, JSON_parse_lines ext text = Some lines ->
     exists counts w2,
       processExpectation ext expected w0 = Ok (set_stderr expected lines, counts) w2 /\
       stderr (set_stderr expected lines) = Some lines /\
       fs w2 = fs w1 /\
       console w2 = console w1 ++ [(Out, asserting expected)]) /\
  (JSON_parse_lines ext text = None ->
     processExpectation ext expected w0 = Throw "SyntaxError" w1 /\
     forall before more bs p f w00,
       forEach ext before 0 0 w00 = Ok (bs, (p, f)) w0 ->
       main ext (before ++ expected :: more) w00 = Throw "SyntaxError" w1).
Proof.
  intros Hu Hunset Hrun Hpath Hfile.
  pose proof (processExpectation_reads _ _ _ _ _ _ _ Hu Hunset Hrun Hpath Hfile) as Hstep.
  split.
  - intros lines Hparse. rewrite Hparse in Hstep. eexists _, _. split; [exact Hstep |].
    split; [reflexivity |]. split; reflexivity.
  - intros Hparse. rewrite Hparse in Hstep. split; [exact Hstep |].
    intros before more bs p f w00 Hb. unfold main, bind at 1.
    erewrite forEach_app_throw; [reflexivity | exact Hb |].
    cbn [forEach]. unfold bind at 1. rewrite Hstep. reflexivity.
Qed.

(** The externals with the update flag set to [u]. *)
Definition updating (u : bool) (ext : Externals) : Externals :=
  {| spawnSync := spawnSync ext;
     randInt := randInt ext;
     URL_new := URL_new ext;
     JSON_parse_lhr := JSON_parse_lhr ext;
     JSON_parse_lines := JSON_parse_lines ext;
     loadArtifacts := loadArtifacts ext;
     compareLhr := compareLhr ext;
     log_dim := log_dim ext; log_reset := log_reset ext;
     greenify := greenify ext; redify := redify ext;
     dirname := dirname ext;
     configPath := configPath ext;
     cli_u := u;
     cli_debug := cli_debug ext;
     env_LH_SMOKE_DEBUG := env_LH_SMOKE_DEBUG ext;
     env_APPVEYOR := env_APPVEYOR ext |}.

(** The externals whose [JSON.parse] reads snapshots with [parse]. *)
Definition parsing (parse : string -> option (list string)) (ext : Externals) : Externals :=
  {| spawnSync := spawnSync ext;
     randInt := randInt ext;
     URL_new := URL_new ext;
     JSON_parse_lhr := JSON_parse_lhr ext;
     JSON_parse_lines := parse;
     loadArtifacts := loadArtifacts ext;
     compareLhr := compareLhr ext;
     log_dim := log_dim ext; log_reset := log_reset ext;
     greenify := greenify ext; redify := redify ext;
     dirname := dirname ext;
     configPath := configPath ext;
     cli_u := cli_u ext;
     cli_debug := cli_debug ext;
     env_LH_SMOKE_DEBUG := env_LH_SMOKE_DEBUG ext;
     env_APPVEYOR := env_APPVEYOR ext |}.

(** A [JSON.parse] that knows the text of one array. *)
Definition parseOnly (lines : list string) (text : string) : option (list string) :=
  if String.eqb text (JSON_stringify_lines lines) then Some lines else None.

Definition snapshotOf (path : string) (lines : list string) : World :=
  {| fs := {[ path := JSON_stringify_lines lines ]}; console := [];
     spawned := 0; randoms := 0 |}.

Lemma existing_snapshot_is_the_baseline_witness :
  let ext := parsing (parseOnly ["  status:warn slow"])
               (Fixtures.externals Fixtures.succeeds false) in
  exists w2 counts,
    processExpectation ext (Fixtures.expectation "https://x.test/")
      (snapshotOf "/smokehouse/snapshots/https___x_test__.json" ["  status:warn slow"])
    = Ok (set_stderr (Fixtures.expectation "https://x.test/") ["  status:warn slow"], counts) w2.
Proof.
  cbv zeta.
  edestruct (existing_snapshot_is_the_baseline
               (parsing (parseOnly ["  status:warn slow"])
                  (Fixtures.externals Fixtures.succeeds false))
               (Fixtures.expectation "https://x.test/")
               (snapshotOf "/smokehouse/snapshots/https___x_test__.json"
                  ["  status:warn slow"])) as [Hparsed _].
  - reflexivity.
  - reflexivity.
  - vm_compute. reflexivity.
  - vm_compute. reflexivity.
  - vm_compute. reflexivity.
  - destruct (Hparsed ["  status:warn slow"]) as (counts & w2 & Hstep & _).
    + vm_compute. reflexivity.
    + exists w2, counts. exact Hstep.
Defined.


(** The externals whose structured comparison is [compare]. *)
Definition judging (compare : RunnerResult -> ExpectedLhr -> Counts) (ext : Externals)
  : Externals :=
  {| spawnSync := spawnSync ext;
     randInt := randInt ext;
     URL_new := URL_new ext;
     JSON_parse_lhr := JSON_parse_lhr ext;
     JSON_parse_lines := JSON_parse_lines ext;
     loadArtifacts := loadArtifacts ext;
     compareLhr := compare;
     log_dim := log_dim ext; log_reset := log_reset ext;
     greenify := greenify ext; redify := redify ext;
     dirname := dirname ext;
     configPath := configPath ext;
     cli_u := cli_u ext;
     cli_debug := cli_debug ext;
     env_LH_SMOKE_DEBUG := env_LH_SMOKE_DEBUG ext;
     env_APPVEYOR := env_APPVEYOR ext |}.

(** What a returning turn of the loop in update mode has done. *)
Lemma processExpectation_update_inv ext expected w0 e1 c1 w2 :
  cli_u ext = true ->
  stderr expected = None ->
  processExpectation ext expected w0 = Ok (e1, c1) w2 ->
  exists results w1 snapshotPath,
    runLighthouse ext (e_requestedUrl (lhr expected)) (configPath ext) (cli_debug ext)
                  (logged (doingRun expected) w0) = Ok results w1 /\
    getSnapshotPath ext expected w1 = Ok snapshotPath w1 /\
    e1 = set_stderr expected (r_stderr results) /\
    fs w2 = <[snapshotPath := JSON_stringify_lines (r_stderr results)]> (fs w1).
Proof.
  intros Hu Hunset. rewrite processExpectation_unfold. unfold bind at 1.
  destruct (runLighthouse _ _ _ _ _) as [results w1 | | |]; try discriminate.
  rewrite Hunset, Hu. unfold bind at 1.
  rewrite bool_decide_eq_false_2 by (intros [? ?]; discriminate).
  unfold ret at 1, bind at 1.
  destruct (getSnapshotPath ext expected w1) as [path w1' | | |] eqn:Hpath; try discriminate.
  pose proof (getSnapshotPath_world _ _ _ _ _ Hpath) as ->.
  unfold bind at 1, existsSync at 1.
  intros H. exists results, w1, path. split; [reflexivity |]. split; [exact Hpath |].
  destruct (bool_decide (is_Some (fs w1 !! path))); cbn in H;
    injection H as <- _ <-; split; reflexivity.
Qed.

(** X8: what a run with [-u] saves is what a later run without [-u] compares
    with: when the script in update mode has dealt with an expectation, and
    the script is then run in normal mode for the same expectation, with a
    tool that leaves the snapshot file alone and a [JSON.parse] that reads
    back what [JSON.stringify] wrote, the expectation handed to the report
    step is the one the update run ended with; the normal run writes
    nothing. *)
Theorem saved_snapshot_is_the_later_baseline (ext : Externals) (expected e1 : Expected)
  (c1 : Counts) (w0 w2 wB : World) (results : RunnerResult) (w3 : World) :
  stderr expected = None ->
  processExpectation (updating true ext) expected w0 = Ok (e1, c1) w2 ->
  runLighthouse (updating false ext) (e_requestedUrl (lhr expected)) (configPath ext)
                (cli_debug ext) (logged (doingRun expected) wB) = Ok results w3 ->
  (forall path, getSnapshotPath ext expected w3 = Ok path w3 ->
                fs w3 !! path = fs w2 !! path) ->
  (forall lines, stderr e1 = Some lines ->
                 JSON_parse_lines ext (JSON_stringify_lines lines) = Some lines) ->
  exists counts w4,
    processExpectation (updating false ext) expected wB = Ok (e1, counts) w4 /\
    fs w4 = fs w3.
Proof.
  intros Hunset Hstep1 Hrun Hkept Hparse.
  destruct (processExpectation_update_inv _ _ _ _ _ _ (eq_refl : cli_u (updating true ext) = true)
              Hunset Hstep1) as (resultsU & w1 & path & _ & Hpath & -> & Hfs).
  change (getSnapshotPath (updating true ext) expected w1)
    with (getSnapshotPath (updating false ext) expected w1) in Hpath.
  pose proof (getSnapshotPath_any_world _ _ _ _ _ Hpath w3) as Hpath3.
  assert (Hfile : fs w3 !! path = Some (JSON_stringify_lines (r_stderr resultsU))).
  { rewrite (Hkept path Hpath3), Hfs. apply lookup_insert_eq. }
  pose proof (processExpectation_reads (updating false ext) expected wB results w3 path _
                eq_refl Hunset Hrun Hpath3 Hfile) as Hstep.
  change (JSON_parse_lines (updating false ext)) with (JSON_parse_lines ext) in Hstep.
  rewrite (Hparse (r_stderr resultsU) eq_refl) in Hstep.
  eexists _, _. split; [exact Hstep | reflexivity].
Qed.

Lemma saved_snapshot_is_the_later_baseline_witness :
  let ext := parsing (parseOnly ["  status:warn slow"])
               (Fixtures.externals Fixtures.succeeds false) in
  let e := Fixtures.expectation "https://x.test/" in
  exists w4 counts,
    processExpectation (updating false ext) e
      (snapshotOf "/smokehouse/snapshots/https___x_test__.json" ["  status:warn slow"])
    = Ok (set_stderr e ["  status:warn slow"], counts) w4.
Proof.
  cbv zeta.
  edestruct saved_snapshot_is_the_later_baseline
    with (ext := parsing (parseOnly ["  status:warn slow"])
                   (Fixtures.externals Fixtures.succeeds false))
         (expected := Fixtures.expectation "https://x.test/")
         (w0 := Fixtures.world0)
         (wB := snapshotOf "/smokehouse/snapshots/https___x_test__.json"
                  ["  status:warn slow"]) as (counts & w4 & Hstep & _).
  - reflexivity.
  - vm_compute. reflexivity.
  - vm_compute. reflexivity.
  - intros path Hp. vm_compute in Hp. injection Hp as <-. vm_compute. reflexivity.
  - intros lines Hl. vm_compute in Hl. injection Hl as <-. vm_compute. reflexivity.
  - exists w4, counts. exact Hstep.
Defined.



(** The lines the script prints after the loop. *)
Definition totals (ext : Externals) (passingCount failingCount : nat) : list (Stream * string) :=
  (if (0 <? passingCount)%nat
   then [(Out, greenify ext (pretty passingCount +:+ " passing"))] else []) ++
  (if (0 <? failingCount)%nat
   then [(Out, redify ext (pretty failingCount +:+ " failing"))] else []).

(** X9: a failed check is not forgotten: when the report of one expectation
    counts a failure and the loop runs to its end, the script prints the
    totals, the failing count among them being at least that of this
    report, and exits with status 1, whatever the other expectations gave;
    no file is touched after the loop. *)
Theorem a_failed_check_fails_the_script (ext : Externals)
  (before more bs ms : list Expected) (expected e' : Expected) (c : Counts)
  (p f p' f' : nat) (w00 w0 w1 w2 : World) :
  forEach ext before 0 0 w00 = Ok (bs, (p, f)) w0 ->
  processExpectation ext expected w0 = Ok (e', c) w1 ->
  forEach ext more (p + passed c) (f + failed c) w1 = Ok (ms, (p', f')) w2 ->
  (0 < failed c)%nat ->
  exists w3,
    main ext (before ++ expected :: more) w00 = Exit (Some 1) w3 /\
    (f + failed c <= f')%nat /\
    fs w3 = fs w2 /\
    console w3 = console w2 ++ totals ext p' f'.
Proof.
  intros Hb Hstep Hrest Hfail.
  destruct (forEach_counts_grow _ _ _ _ _ _ _ _ _ Hrest) as [_ Hf].
  assert (Hloop : forEach ext (before ++ expected :: more) 0 0 w00
                  = Ok (bs ++ e' :: ms, (p', f')) w2).
  { eapply forEach_app_Ok; [exact Hb |]. cbn [forEach]. unfold bind at 1. rewrite Hstep.
    unfold bind at 1. cbn [fst snd]. rewrite Hrest. reflexivity. }
  unfold main, bind at 1. rewrite Hloop. cbn [fst snd]. unfold totals.
  assert (Hpos : (0 <? f')%nat = true) by (apply Nat.ltb_lt; lia).
  rewrite Hpos. unfold bind, when, console_log, process_exit, ret.
  destruct (0 <? p')%nat; eexists; (split; [reflexivity |]); (split; [exact Hf |]);
    (split; [reflexivity |]); cbn; rewrite <- ?app_assoc; reflexivity.
Qed.

Definition strict (results : RunnerResult) (expected : ExpectedLhr) : Counts :=
  {| passed := 2; failed := 1 |}.

Lemma a_failed_check_fails_the_script_witness :
  let ext := judging strict (Fixtures.externals Fixtures.succeeds false) in
  exists w3,
    main ext [Fixtures.expectation "https://x.test/"; Fixtures.expectation "https://y.test/"]
         Fixtures.world0 = Exit (Some 1) w3 /\
    last (console w3) = Some (Out, "2 failing").
Proof.
  cbv zeta.
  edestruct a_failed_check_fails_the_script
    with (ext := judging strict (Fixtures.externals Fixtures.succeeds false))
         (before := @nil Expected) (more := [Fixtures.expectation "https://y.test/"])
         (expected := Fixtures.expectation "https://x.test/")
         (w00 := Fixtures.world0) as (w3 & Hmain & _ & _ & Hcon).
  - reflexivity.
  - vm_compute. reflexivity.
  - vm_compute. reflexivity.
  - vm_compute. lia.
  - exists w3. split; [exact Hmain |]. rewrite Hcon. vm_compute. reflexivity.
Defined.

End BaselineFacts.

(** ** The keys and the rows *)

Module KeysFacts.
Import JS JSFacts Timings CollectFacts KeyFacts StatisticsFacts SortFacts SummarizeFacts.

(** The keys of the map, in insertion order, and the number of samples it
    holds. *)
Definition keys (m : MeasuresMap) : list string := map fst m.
Definition sampleCount (m : MeasuresMap) : nat := sum_list (map (fun kv => length kv.2) m).

(** The names of a result file that the filter lets through. *)
Definition letThrough (measureFilter : option (string -> bool)) (lhr : LH.Result)
  : list string :=
  filter (fun measureName => passes measureFilter measureName = true)
         (map LH.name (LH.timing_entries lhr)).

Lemma Map_get_None key m : Map_get key m = None <-> key ∉ keys m.
Proof.
  induction m as [|[k v] m IH]; cbn.
  - split; [intros _; apply not_elem_of_nil | reflexivity].
  - destruct (String.eqb k key) eqn:E.
    + apply String.eqb_eq in E. subst k. split; [discriminate |].
      intros H. exfalso. apply H. left.
    + apply String.eqb_neq in E. rewrite IH, not_elem_of_cons. intuition congruence.
Qed.

Lemma Map_push_keys key d m : keys (Map_push key d m) = keys m.
Proof.
  induction m as [|[k v] m IH]; [reflexivity |]. cbn.
  destruct (String.eqb k key); cbn; [reflexivity |]. f_equal. exact IH.
Qed.

Lemma Map_set_keys key v m : key ∉ keys m -> keys (Map_set key v m) = keys m ++ [key].
Proof.
  induction m as [|[k old] m IH]; intros Hk; [reflexivity |]. cbn.
  apply not_elem_of_cons in Hk as [Hne Hk].
  destruct (String.eqb k key) eqn:E.
  - apply String.eqb_eq in E. exfalso. apply Hne. symmetry. exact E.
  - cbn. f_equal. apply IH. exact Hk.
Qed.

Lemma Map_push_count key d m :
  key ∈ keys m -> sampleCount (Map_push key d m) = S (sampleCount m).
Proof.
  unfold sampleCount. induction m as [|[k v] m IH]; intros Hk; [inversion Hk |]. cbn.
  destruct (String.eqb k key) eqn:E; cbn.
  - rewrite List.length_app. cbn. lia.
  - apply String.eqb_neq in E. apply elem_of_cons in Hk as [Hk | Hk]; [cbn in Hk; congruence |].
    rewrite (IH Hk). lia.
Qed.

Lemma Map_set_count key m : key ∉ keys m -> sampleCount (Map_set key [] m) = sampleCount m.
Proof.
  unfold sampleCount. induction m as [|[k v] m IH]; intros Hk; [reflexivity |]. cbn.
  apply not_elem_of_cons in Hk as [Hne Hk].
  destruct (String.eqb k key) eqn:E.
  - apply String.eqb_eq in E. exfalso. apply Hne. symmetry. exact E.
  - cbn. rewrite (IH Hk). reflexivity.
Qed.

(** One turn of the inner loop: the key of a name that passes the filter is
    added at the end when it is new, and one sample comes in. *)
Lemma addMeasure_keys measureFilter lhr m measureName :
  measureName ∈ map LH.name (LH.timing_entries lhr) ->
  exists m',
    addMeasure measureFilter lhr m measureName = Some m' /\
    keys m' = keys m ++
      (if passes measureFilter measureName
          && bool_decide (measuresKeyOf lhr measureName ∉ keys m)
       then [measuresKeyOf lhr measureName] else []) /\
    sampleCount m' = (sampleCount m + if passes measureFilter measureName then 1 else 0)%nat.
Proof.
  intros Hin. destruct (first_named_exists _ _ Hin) as (pre & e & post & He & <- & Hpre).
  unfold addMeasure. fold (passes measureFilter (LH.name e)).
  assert (Hp : match measureFilter with
               | Some test => negb (test (LH.name e)) | None => false end
               = negb (passes measureFilter (LH.name e))).
  { unfold passes. destruct measureFilter; reflexivity. }
  rewrite Hp. destruct (passes measureFilter (LH.name e)); cbn [negb andb].
  2: { exists m. rewrite app_nil_r, Nat.add_0_r. auto. }
  rewrite (find_first_named _ _ _ _ He Hpre).
  eexists. split; [reflexivity |]. rewrite Map_push_keys.
  destruct (Map_get (measuresKeyOf lhr (LH.name e)) m) as [old|] eqn:G.
  - assert (Hk : measuresKeyOf lhr (LH.name e) ∈ keys m).
    { destruct (decide (measuresKeyOf lhr (LH.name e) ∈ keys m)) as [Hk | Hk]; [exact Hk |].
      apply Map_get_None in Hk. congruence. }
    rewrite bool_decide_eq_false_2 by (intros Hn; exact (Hn Hk)).
    rewrite app_nil_r, (Map_push_count _ _ _ Hk). split; [reflexivity | lia].
  - apply Map_get_None in G. rewrite bool_decide_eq_true_2 by exact G.
    rewrite (Map_set_keys _ _ _ G). split; [reflexivity |].
    rewrite Map_push_count, (Map_set_count _ _ G); [lia |].
    rewrite (Map_set_keys _ _ _ G). apply elem_of_app. right. left.
Qed.

(** The keys are never repeated, old keys stay, and a new key is that of a
    name let through. *)
Definition Grown (measureFilter : option (string -> bool)) (lhr : LH.Result)
  (names : list string) (m m' : MeasuresMap) : Prop :=
  (NoDup (keys m) -> NoDup (keys m')) /\
  (forall key, key ∈ keys m' <->
     key ∈ keys m \/
     exists measureName, measureName ∈ names /\ passes measureFilter measureName = true /\
                         key = measuresKeyOf lhr measureName) /\
  sampleCount m' =
    (sampleCount m + length (filter (fun n => passes measureFilter n = true) names))%nat.

Lemma addNames_keys measureFilter lhr names : forall m,
  (forall n, n ∈ names -> n ∈ map LH.name (LH.timing_entries lhr)) ->
  exists m',
    foldl (fun acc measureName => m ← acc; addMeasure measureFilter lhr m measureName)
          (Some m) names = Some m' /\
    Grown measureFilter lhr names m m'.
Proof.
  induction names as [|n names IH]; intros m Hin.
  - exists m. split; [reflexivity |]. split; [auto |]. split.
    + intros key. split; [auto |]. intros [H | (x & Hx & _)]; [exact H | inversion Hx].
    + cbn. lia.
  - destruct (addMeasure_keys measureFilter lhr m n) as (m1 & H1 & Hk1 & Hc1).
    { apply Hin. left. }
    destruct (IH m1) as (m' & Hm' & Hnd & Hk & Hc). { intros x Hx. apply Hin. right. exact Hx. }
    exists m'. cbn [foldl mbind option_bind]. rewrite H1. split; [exact Hm' |].
    split; [| split].
    + intros Hm. apply Hnd. rewrite Hk1.
      destruct (passes measureFilter n && bool_decide (measuresKeyOf lhr n ∉ keys m)) eqn:E.
      * apply andb_true_iff in E as [_ E]. apply bool_decide_eq_true in E.
        apply NoDup_app. split; [exact Hm |]. split.
        -- intros x Hx Hx'. apply list_elem_of_singleton in Hx'. subst x. exact (E Hx).
        -- apply NoDup_singleton.
      * rewrite app_nil_r. exact Hm.
    + intros key. rewrite Hk, Hk1. split.
      * intros [H | (x & Hx & Hp & ->)].
        -- apply elem_of_app in H as [H | H]; [left; exact H |].
           destruct (passes measureFilter n) eqn:Hp; cbn [andb] in H; [| inversion H].
           destruct (bool_decide _); [| inversion H].
           apply list_elem_of_singleton in H. right. exists n. split; [left | auto].
        -- right. exists x. split; [right; exact Hx | auto].
      * intros [H | (x & Hx & Hp & ->)].
        -- left. apply elem_of_app. left. exact H.
        -- apply elem_of_cons in Hx as [-> | Hx].
           ++ left. apply elem_of_app. rewrite Hp. cbn [andb].
              destruct (decide (measuresKeyOf lhr n ∈ keys m)) as [Hk0 | Hk0].
              ** left. exact Hk0.
              ** right. rewrite bool_decide_eq_true_2 by exact Hk0. left.
           ++ right. exists x. auto.
    + rewrite Hc, Hc1, filter_cons. destruct (passes measureFilter n); cbn.
      * rewrite decide_True by reflexivity. cbn. lia.
      * rewrite decide_False by discriminate. lia.
Qed.

Lemma collect_keys measureFilter lhrs : forall m,
  exists m',
    foldl (fun acc lhr => m ← acc; addLhr measureFilter m lhr) (Some m) lhrs = Some m' /\
    (NoDup (keys m) -> NoDup (keys m')) /\
    (forall key, key ∈ keys m' <->
       key ∈ keys m \/
       exists lhr measureName,
         lhr ∈ lhrs /\ measureName ∈ letThrough measureFilter lhr /\
         key = measuresKeyOf lhr measureName) /\
    sampleCount m' =
      (sampleCount m + sum_list (map (fun lhr => length (letThrough measureFilter lhr)) lhrs))%nat.
Proof.
  induction lhrs as [|lhr lhrs IH]; intros m.
  - exists m. split; [reflexivity |]. split; [auto |]. split.
    + intros key. split; [auto |]. intros [H | (x & ? & Hx & _)]; [exact H | inversion Hx].
    + cbn. lia.
  - destruct (addNames_keys measureFilter lhr (map LH.name (LH.timing_entries lhr)) m)
      as (m1 & H1 & Hnd1 & Hk1 & Hc1); [auto |].
    destruct (IH m1) as (m' & Hm' & Hnd & Hk & Hc).
    exists m'. cbn [foldl mbind option_bind]. unfold addLhr at 2. rewrite H1.
    split; [exact Hm' |]. split; [auto |]. split.
    + intros key. rewrite Hk, Hk1. unfold letThrough. split.
      * intros [[H | (x & Hx & Hp & ->)] | (l & x & Hl & Hx & ->)].
        -- left. exact H.
        -- right. exists lhr, x. split; [left |]. split; [| reflexivity].
           apply list_elem_of_filter. auto.
        -- right. exists l, x. split; [right; exact Hl | auto].
      * intros [H | (l & x & Hl & Hx & ->)]; [auto |].
        apply elem_of_cons in Hl as [-> | Hl].
        -- left. right. apply list_elem_of_filter in Hx as [Hp Hx]. exists x. auto.
        -- right. exists l, x. auto.
    + rewrite Hc, Hc1. cbn. unfold letThrough. lia.
Qed.



(** The pair a row is about. *)
Definition rowKey (r : Row) : string * string := (url r, measure r).

Lemma rows_of_map (roundExtremes : bool) (rowFor : string * list float -> option Row) :
  (forall key first more,
     rowFor (key, first :: more) = Some (statistics roundExtremes key first more)) ->
  forall m results,
  Populated m -> mapM rowFor m = Some results ->
  map rowKey results = map splitKey (keys m) /\
  map n results = map (fun kv => length kv.2) m.
Proof.
  intros Hrow m results Hm Hr. apply mapM_Some in Hr. revert Hm.
  induction Hr as [|[key samples] r m results Hx _ IH]; intros Hm; [split; reflexivity |].
  inversion Hm as [|? ? Hne Hm']; subst. destruct (IH Hm') as [IH1 IH2].
  destruct samples as [|first more]; [contradiction |].
  rewrite Hrow in Hx. injection Hx as <-.
  cbn [map keys fst snd]. unfold keys in IH1. rewrite IH1, IH2.
  split; [| reflexivity]. unfold rowKey at 1. cbn [url measure statistics].
  destruct (splitKey key); reflexivity.
Qed.

Lemma sum_list_perm (l1 l2 : list nat) : l1 ≡ₚ l2 -> sum_list l1 = sum_list l2.
Proof. induction 1; cbn; lia. Qed.

(** The rows are about the pairs of a requested URL and a measure name let
    through that the result files show, one row for each pair, and their
    counts add up to the number of timing entries let through. *)
Definition Tabulates (measureFilter : option (string -> bool)) (lhrs : list LH.Result)
  (rows : list Row) : Prop :=
  NoDup (map rowKey rows) /\
  (forall requestedUrl measureName,
     (requestedUrl, measureName) ∈ map rowKey rows <->
     exists lhr,
       lhr ∈ lhrs /\ LH.requestedUrl lhr = requestedUrl /\
       measureName ∈ map LH.name (LH.timing_entries lhr) /\
       passes measureFilter measureName = true) /\
  sum_list (map n rows) =
    sum_list (map (fun lhr => length (letThrough measureFilter lhr)) lhrs).

Lemma tabulates_sorted (compare : Row -> Row -> comparison) measureFilter lhrs m results :
  (forall lhr measureName,
     lhr ∈ lhrs -> measureName ∈ map LH.name (LH.timing_entries lhr) ->
     lacks "@" (LH.requestedUrl lhr) /\ ~ Occurs "@@@" measureName) ->
  collectMeasures measureFilter lhrs = Some m ->
  map rowKey results = map splitKey (keys m) ->
  map n results = map (fun kv => length kv.2) m ->
  Tabulates measureFilter lhrs (sort compare results).
Proof.
  intros Hplain Hm Hkeys Hn.
  destruct (collect_keys measureFilter lhrs []) as (m' & Hm' & Hnd & Hk & Hc).
  change (collectMeasures measureFilter lhrs = Some m') in Hm'.
  rewrite Hm in Hm'. injection Hm' as <-.
  assert (Hsplit : forall key, key ∈ keys m ->
            exists lhr measureName,
              lhr ∈ lhrs /\ measureName ∈ map LH.name (LH.timing_entries lhr) /\
              passes measureFilter measureName = true /\
              key = measuresKeyOf lhr measureName /\
              splitKey key = (LH.requestedUrl lhr, measureName)).
  { intros key Hkey. apply Hk in Hkey as [Hkey | (lhr & x & Hl & Hx & ->)]; [inversion Hkey |].
    apply list_elem_of_filter in Hx as [Hp Hx]. exists lhr, x.
    destruct (Hplain lhr x Hl Hx) as [Hu Hname].
    repeat (split; [assumption || reflexivity |]).
    apply splitKey_measuresKeyOf; assumption. }
  pose proof (sort_perm compare results) as Hperm.
  split; [| split].
  - rewrite Hperm, Hkeys. apply NoDup_fmap_2_strong; [| apply Hnd; constructor].
    intros k1 k2 H1 H2 Heq.
    destruct (Hsplit k1 H1) as (l1 & x1 & _ & _ & _ & -> & E1).
    destruct (Hsplit k2 H2) as (l2 & x2 & _ & _ & _ & -> & E2).
    rewrite E1, E2 in Heq. injection Heq as Hu Hx. unfold measuresKeyOf. congruence.
  - intros u x. rewrite Hperm, Hkeys. split.
    + intros Hin. apply list_elem_of_fmap in Hin as (key & Heq & Hkey).
      destruct (Hsplit key Hkey) as (lhr & y & Hl & Hy & Hp & -> & E).
      rewrite E in Heq. injection Heq as -> ->. exists lhr. auto.
    + intros (lhr & Hl & <- & Hx & Hp).
      apply list_elem_of_fmap. exists (measuresKeyOf lhr x).
      destruct (Hplain lhr x Hl Hx) as [Hu Hname]. split.
      * symmetry. apply splitKey_measuresKeyOf; assumption.
      * apply Hk. right. exists lhr, x. split; [exact Hl |]. split; [| reflexivity].
        apply list_elem_of_filter. auto.
  - rewrite (sum_list_perm _ _ (Permutation_map n Hperm)), Hn. exact Hc.
Qed.

(** X11: when no requested URL holds an [@] and no measure name holds the
    separator [@@@], both revisions give exactly one row for each pair of a
    requested URL and a measure name let through by the filter that some
    result file shows, with that URL and that name in the row, and the
    counts of the rows add up to the number of timing entries whose names
    pass the filter. *)
Theorem summary_has_one_row_per_url_and_measure
  (localeCompare : string -> string -> comparison)
  (measureFilter : option (string -> bool)) (lhrs : list LH.Result) :
  (forall lhr measureName,
     lhr ∈ lhrs -> measureName ∈ map LH.name (LH.timing_entries lhr) ->
     lacks "@" (LH.requestedUrl lhr) /\ ~ Occurs "@@@" measureName) ->
  exists rows rows',
    summarize localeCompare measureFilter lhrs = Some rows /\
    summarize_script localeCompare measureFilter lhrs = Some rows' /\
    Tabulates measureFilter lhrs rows /\
    Tabulates measureFilter lhrs rows'.
Proof.
  intros Hplain.
  destruct (collectMeasures_total measureFilter lhrs) as (m & Hm & Hp).
  destruct (rows_total rowOf m) as [results Hr];
    [intros; rewrite rowOf_statistics; eauto | exact Hp |].
  destruct (rows_total rowOf_script m) as [results' Hr'];
    [intros; rewrite rowOf_script_statistics; eauto | exact Hp |].
  destruct (rows_of_map true rowOf rowOf_statistics m results Hp Hr) as [K1 N1].
  destruct (rows_of_map false rowOf_script rowOf_script_statistics m results' Hp Hr')
    as [K2 N2].
  exists (sort (compareRows localeCompare) results),
         (sort (compareRows_script localeCompare) results').
  unfold summarize, summarize_script. rewrite Hm. cbn [mbind option_bind].
  rewrite Hr, Hr'. cbn [mbind option_bind].
  split; [reflexivity |]. split; [reflexivity |].
  split; eapply tabulates_sorted; eassumption.
Qed.

Lemma summary_has_one_row_per_url_and_measure_witness :
  exists rows,
    summarize String.compare None
      [lhrOf "https://x.test/" [entry "load" 1; entry "parse" 2];
       lhrOf "https://x.test/" [entry "load" 3]] = Some rows /\
    NoDup (map rowKey rows) /\
    sum_list (map n rows) = 3%nat.
Proof.
  destruct (summary_has_one_row_per_url_and_measure String.compare None
              [lhrOf "https://x.test/" [entry "load" 1; entry "parse" 2];
               lhrOf "https://x.test/" [entry "load" 3]])
    as (rows & rows' & Hrows & _ & (Hnd & _ & Hsum) & _).
  - intros lhr x Hl Hx.
    repeat (apply elem_of_cons in Hl as [-> | Hl]); [| | inversion Hl];
      cbn in Hx; repeat (apply elem_of_cons in Hx as [-> | Hx]); try (inversion Hx; fail);
      (split; [cbn; repeat split; discriminate
              | apply includes_false; vm_compute; reflexivity]).
  - exists rows. split; [exact Hrows |]. split; [exact Hnd | exact Hsum].
Defined.

End KeysFacts.

(** ** The collection *)

Module CollectionFacts.
Import JS JSFacts KeyFacts Collection.

Section Script.
Variable dirname : string.
Variable exec : nat -> string -> gset string -> bool * gset string.
Variable argv : Argv.

(** The commands of a collection, in the order in which they are run. *)
Definition commandsFor (url : string) : list string :=
  map (command dirname argv url) (seq 0 (runs argv)).

Definition plan (us : list string) : list string := flat_map commandsFor us.

(** Running commands one after the other until one fails. *)
Fixpoint execAll (cmds : list string) (w : Disk) : Run :=
  match cmds with
  | [] => Finished w
  | cmd :: more => andThen (execSync exec cmd w) (execAll more)
  end.

Lemma execAll_app cmds1 cmds2 w :
  execAll (cmds1 ++ cmds2) w = andThen (execAll cmds1 w) (execAll cmds2).
Proof.
  revert w. induction cmds1 as [|cmd cmds1 IH]; intros w; [reflexivity |].
  cbn [app execAll]. destruct (execSync exec cmd w) as [w1 | e w1]; cbn [andThen];
    [apply IH | reflexivity].
Qed.

Lemma forRuns_execAll url todo : forall i w,
  forRuns dirname exec argv url todo i w
  = execAll (map (command dirname argv url) (seq i todo)) w.
Proof.
  induction todo as [|todo IH]; intros i w; [reflexivity |].
  cbn [forRuns seq map execAll].
  destruct (execSync exec _ w) as [w1 | e w1]; cbn [andThen]; [apply IH | reflexivity].
Qed.

Lemma forUrls_execAll us : forall w, forUrls dirname exec argv us w = execAll (plan us) w.
Proof.
  induction us as [|url us IH]; intros w; [reflexivity |].
  cbn [forUrls plan flat_map]. rewrite execAll_app, forRuns_execAll.
  fold (commandsFor url). destruct (execAll (commandsFor url) w); cbn [andThen];
    [apply IH | reflexivity].
Qed.

(** What has run when a list of commands has been gone through. *)
Definition Went (cmds : list string) (w : Disk) (r : Run) : Prop :=
  match r with
  | Finished w' => ran w' = ran w ++ cmds
  | Thrown error w' =>
      exists before cmd after,
        cmds = before ++ cmd :: after /\
        ran w' = ran w ++ before ++ [cmd] /\
        error = "Command failed: " +:+ cmd /\
        exists seen, (exec (length (ran w ++ before)) cmd seen).1 = false
  end.

Lemma execAll_went cmds : forall w, Went cmds w (execAll cmds w).
Proof.
  induction cmds as [|cmd cmds IH]; intros w.
  - cbn. rewrite app_nil_r. reflexivity.
  - cbn [execAll]. unfold execSync.
    destruct (exec (length (ran w)) cmd (paths w)) as [ok files] eqn:E.
    destruct ok; cbn [andThen].
    + specialize (IH {| paths := files; ran := ran w ++ [cmd] |}).
      destruct (execAll cmds _) as [w' | error w']; cbn in *.
      * rewrite IH, <- app_assoc. reflexivity.
      * destruct IH as (before & c & after & -> & Hran & -> & seen & Hseen).
        exists (cmd :: before), c, after. split; [reflexivity |].
        split; [rewrite Hran, <- !app_assoc; reflexivity |]. split; [reflexivity |].
        exists seen. rewrite <- app_assoc in Hseen. exact Hseen.
    + cbn. exists [], cmd, cmds. split; [reflexivity |]. split; [reflexivity |].
      split; [reflexivity |]. exists (paths w). rewrite app_nil_r, E. reflexivity.
Qed.

Lemma length_plan us : length (plan us) = (length us * runs argv)%nat.
Proof.
  induction us as [|url us IH]; [reflexivity |].
  cbn [plan flat_map]. rewrite List.length_app. fold (plan us). rewrite IH.
  unfold commandsFor. rewrite length_map, length_seq. cbn. lia.
Qed.


Lemma startsWith_length p s : startsWith p s = true -> (String.length p <= String.length s)%nat.
Proof. intros H. apply startsWith_spec in H as [r ->]. rewrite length_app. lia. Qed.

(** The root of the collections is not inside a collection. *)
Lemma root_outside : within (outputDir dirname argv) (ROOT_OUTPUT_DIR dirname) = false.
Proof.
  unfold within, outputDir. apply orb_false_iff. split.
  - apply String.eqb_neq. intros H. apply (f_equal String.length) in H.
    rewrite !length_app in H. cbn in H. lia.
  - destruct (startsWith _ _) eqn:E; [| reflexivity].
    apply startsWith_length in E. rewrite !length_app in E. cbn in E. lia.
Qed.

Lemma within_refl dir : within dir dir = true.
Proof. unfold within. rewrite String.eqb_refl. reflexivity. Qed.

(** The disk without the folder of the collection and what lies in it. *)
Definition cleared (w : Disk) : Disk :=
  {| paths := filter (fun path => within (outputDir dirname argv) path = false) (paths w);
     ran := ran w |}.

Lemma ensureRoot_spec w :
  ensureRoot dirname w
  = Finished {| paths := {[ ROOT_OUTPUT_DIR dirname ]} ∪ paths w; ran := ran w |}.
Proof.
  unfold ensureRoot, mkdirSync, existsSync.
  destruct (decide (ROOT_OUTPUT_DIR dirname ∈ paths w)) as [Hin | Hout].
  - rewrite bool_decide_eq_true_2 by exact Hin. cbn [negb]. f_equal.
    destruct w as [ps r]. cbn in *. f_equal. apply set_eq. intros x.
    rewrite elem_of_union, elem_of_singleton. split; [auto | intros [-> | H]; auto].
  - rewrite !bool_decide_eq_false_2 by exact Hout. reflexivity.
Qed.

(** X12: with the folder of the collection there, [collect()] throws before any
    command is run and removes nothing, whereas the script-level revision
    removes the folder with all that lies in it and then does what
    [collect()] does on a disk without the folder. *)
Theorem existing_folder_is_refused_or_cleared (w : Disk) :
  outputDir dirname argv ∈ paths w ->
  (exists w',
     collect dirname exec argv w
       = Thrown ("folder already exists: " +:+ outputDir dirname argv) w' /\
     ran w' = ran w /\
     paths w' = {[ ROOT_OUTPUT_DIR dirname ]} ∪ paths w) /\
  collect_script dirname exec argv w = collect dirname exec argv (cleared w) /\
  (forall path, path ∈ paths (cleared w) <->
                path ∈ paths w /\ within (outputDir dirname argv) path = false).
Proof.
  intros Hdir. split; [| split].
  - unfold collect. rewrite ensureRoot_spec. cbn [andThen]. unfold existsSync. cbn [paths].
    rewrite bool_decide_eq_true_2 by set_solver. eexists. split; [reflexivity |].
    split; reflexivity.
  - unfold collect_script, collect. rewrite !ensureRoot_spec. cbn [andThen].
    unfold existsSync at 1. cbn [paths]. rewrite bool_decide_eq_true_2 by set_solver.
    unfold rimraf_sync. cbn [andThen paths ran].
    assert (Hgone : forall X : gset string,
              outputDir dirname argv ∉
                filter (fun path => within (outputDir dirname argv) path = false) X).
    { intros X H. apply elem_of_filter in H as [H _]. rewrite within_refl in H. discriminate. }
    assert (Hsame : filter (fun path => within (outputDir dirname argv) path = false)
                           ({[ ROOT_OUTPUT_DIR dirname ]} ∪ paths w)
                    = {[ ROOT_OUTPUT_DIR dirname ]} ∪ paths (cleared w)).
    { unfold cleared. cbn [paths]. apply set_eq. intros x.
      rewrite elem_of_filter, !elem_of_union, elem_of_filter, elem_of_singleton.
      split.
      - intros [Hx [-> | H]]; auto.
      - intros [-> | [Hx H]]; auto using root_outside. }
    rewrite Hsame. unfold mkdirSync, existsSync. cbn [paths ran].
    rewrite !bool_decide_eq_false_2 by (rewrite <- Hsame; apply Hgone). reflexivity.
  - intros path. unfold cleared. cbn [paths]. rewrite elem_of_filter. tauto.
Qed.

(** X13: with no folder of the collection there, both revisions make the folder
    and run the tool [argv.n] times for every URL, in the order of the URLs
    and, for one URL, of the run numbers, until a run fails: the error of
    the failing run ends the script, and no further command is run.
    Without URLs the loop throws, the folder having been made. *)
Theorem collect_runs_the_tool_for_every_url (w : Disk) :
  outputDir dirname argv ∉ paths w ->
  collect_script dirname exec argv w = collect dirname exec argv w /\
  match urls argv with
  | Some us =>
      Went (plan us) w (collect dirname exec argv w) /\
      length (plan us) = (length us * runs argv)%nat
  | None =>
      exists w',
        collect dirname exec argv w = Thrown "TypeError" w' /\
        ran w' = ran w /\
        paths w' = {[ outputDir dirname argv ]} ∪ ({[ ROOT_OUTPUT_DIR dirname ]} ∪ paths w)
  end.
Proof.
  intros Hdir.
  assert (Hdir' : outputDir dirname argv ∉ {[ ROOT_OUTPUT_DIR dirname ]} ∪ paths w).
  { intros H. apply elem_of_union in H as [H | H]; [| exact (Hdir H)].
    apply elem_of_singleton in H. pose proof root_outside as Hr.
    rewrite <- H, within_refl in Hr. discriminate. }
  assert (Hcollect : collect dirname exec argv w
            = loops dirname exec argv
                {| paths := {[ outputDir dirname argv ]} ∪ ({[ ROOT_OUTPUT_DIR dirname ]} ∪ paths w);
                   ran := ran w |}).
  { unfold collect. rewrite ensureRoot_spec. cbn [andThen]. unfold mkdirSync, existsSync.
    cbn [paths ran]. rewrite !bool_decide_eq_false_2 by exact Hdir'. reflexivity. }
  split.
  - rewrite Hcollect. unfold collect_script. rewrite ensureRoot_spec. cbn [andThen].
    unfold mkdirSync, existsSync. cbn [paths ran].
    rewrite !bool_decide_eq_false_2 by exact Hdir'. cbn [andThen paths ran].
    rewrite !bool_decide_eq_false_2 by exact Hdir'. reflexivity.
  - rewrite Hcollect. unfold loops. destruct (urls argv) as [us|].
    + split; [| apply length_plan]. rewrite forUrls_execAll.
      pose proof (execAll_went (plan us)
                    {| paths := {[ outputDir dirname argv ]}
                                  ∪ ({[ ROOT_OUTPUT_DIR dirname ]} ∪ paths w);
                       ran := ran w |}) as H.
      destruct (execAll _ _); exact H.
    + eexists. split; [reflexivity |]. split; reflexivity.
Qed.


(** *** The files of the reports *)

Lemma escape_lacks_hyphen s : lacks "-" (escape_non_alnum s).
Proof.
  induction s as [|c s IH]; [exact I |]. cbn [escape_non_alnum lacks]. split; [| exact IH].
  destruct c as [[] [] [] [] [] [] [] []]; vm_compute; discriminate.
Qed.

(** Text is cut at its first hyphen in one way only. *)
Lemma cut_at_hyphen s1 : forall s2 t1 t2,
  lacks "-" s1 -> lacks "-" s2 ->
  s1 +:+ "-" +:+ t1 = s2 +:+ "-" +:+ t2 -> s1 = s2 /\ t1 = t2.
Proof.
  induction s1 as [|a s1 IH]; intros [|b s2] t1 t2 H1 H2 H.
  - cbn in H. injection H as H. auto.
  - cbn in H. injection H as Hb _. destruct H2 as [H2 _]. congruence.
  - cbn in H. injection H as Ha _. destruct H1 as [H1 _]. congruence.
  - cbn in H. injection H as -> H.
    destruct H1 as [_ H1], H2 as [_ H2]. destruct (IH _ _ _ H1 H2 H) as [-> ->]. auto.
Qed.

Lemma app_inv_tail' t s1 : forall s2, s1 +:+ t = s2 +:+ t -> s1 = s2.
Proof.
  induction s1 as [|a s1 IH]; intros [|b s2] H.
  - reflexivity.
  - apply (f_equal String.length) in H. rewrite !length_app in H. cbn in H. lia.
  - apply (f_equal String.length) in H. rewrite !length_app in H. cbn in H. lia.
  - rewrite !app_String in H. injection H as -> H. f_equal. apply IH. exact H.
Qed.

(** The files a collection asks the tool to write. *)
Definition reports (us : list string) : list string :=
  flat_map (fun url => map (reportPath dirname argv url) (seq 0 (runs argv))) us.

Lemma reportPath_inj url1 i1 url2 i2 :
  reportPath dirname argv url1 i1 = reportPath dirname argv url2 i2 ->
  escape_non_alnum url1 = escape_non_alnum url2 /\ i1 = i2.
Proof.
  unfold reportPath. intros H.
  apply (inj (String.app (outputDir dirname argv))) in H.
  apply (inj (String.app "/lhr-")) in H.
  apply cut_at_hyphen in H as [He Hi]; [| apply escape_lacks_hyphen ..].
  split; [exact He |]. apply app_inv_tail' in Hi. apply (inj pretty) in Hi. exact Hi.
Qed.

Lemma elem_of_reports path us :
  path ∈ reports us <->
  exists url i, url ∈ us /\ (i < runs argv)%nat /\ path = reportPath dirname argv url i.
Proof.
  unfold reports. rewrite list_elem_of_In, in_flat_map. split.
  - intros (url & Hu & Hp). apply in_map_iff in Hp as (i & <- & Hi).
    apply in_seq in Hi. exists url, i. rewrite list_elem_of_In. split; [exact Hu |].
    split; [lia | reflexivity].
  - intros (url & i & Hu & Hi & ->). exists url. rewrite <- list_elem_of_In.
    split; [exact Hu |]. apply in_map. apply in_seq. lia.
Qed.

(** X14: two runs are asked to write to the same file exactly when they have the
    same run number and their URLs are the same once every code unit that
    is not a letter or a digit is replaced by an underscore; so the runs of
    a collection all write to different files when the URLs remain
    different after that replacement, and the runs of two URLs that do not
    remain different write to the same files. *)
Theorem reports_differ_as_the_escaped_urls_do :
  (forall url1 i1 url2 i2,
     reportPath dirname argv url1 i1 = reportPath dirname argv url2 i2 <->
     escape_non_alnum url1 = escape_non_alnum url2 /\ i1 = i2) /\
  (forall us, NoDup (map escape_non_alnum us) ->
              NoDup (reports us) /\ length (reports us) = length (plan us)) /\
  (forall url1 url2,
     escape_non_alnum url1 = escape_non_alnum url2 ->
     reports [url1] = reports [url2]).
Proof.
  split; [| split].
  - intros url1 i1 url2 i2. split; [apply reportPath_inj |].
    intros [He ->]. unfold reportPath. rewrite He. reflexivity.
  - intros us Hus. split.
    + induction us as [|url us IH]; [constructor |].
      cbn [map] in Hus. apply NoDup_cons in Hus as [Hurl Hus].
      change (reports (url :: us))
        with (map (reportPath dirname argv url) (seq 0 (runs argv)) ++ reports us).
      apply NoDup_app. split; [| split].
      * apply NoDup_fmap_2_strong; [| apply NoDup_seq].
        intros i j _ _ H. apply reportPath_inj in H as [_ H]. exact H.
      * intros path Hp Hq. apply list_elem_of_fmap in Hp as (i & -> & _).
        apply elem_of_reports in Hq as (url' & j & Hu & _ & H).
        apply reportPath_inj in H as [He _]. apply Hurl. rewrite He.
        apply list_elem_of_fmap. exists url'. auto.
      * apply IH. exact Hus.
    + unfold reports, plan, commandsFor. clear Hus.
      induction us as [|url us IH]; [reflexivity |].
      cbn [flat_map]. rewrite !List.length_app, IH, !length_map. reflexivity.
  - intros url1 url2 He. unfold reports. cbn [flat_map]. f_equal.
    apply map_ext. intros i. unfold reportPath. rewrite He. reflexivity.
Qed.

End Script.

(** The second command fails. *)
Definition secondFails (k : nat) (cmd : string) (files : gset string) : bool * gset string :=
  (negb (k =? 1)%nat, files).

Definition twice : Argv :=
  {| name := "c"; urls := Some ["https://x.test/"; "https://y.test/"]; runs := 2;
     lhFlags := "" |}.

Definition emptyDisk : Disk := {| paths := ∅; ran := [] |}.

Lemma existing_folder_is_refused_or_cleared_witness :
  exists w',
    collect "/lh/core/scripts" secondFails twice
      {| paths := {[ "/lh/core/scripts/../../timings-data/c" ]}; ran := [] |}
    = Thrown "folder already exists: /lh/core/scripts/../../timings-data/c" w' /\
    ran w' = [].
Proof.
  destruct (existing_folder_is_refused_or_cleared "/lh/core/scripts" secondFails twice
              {| paths := {[ "/lh/core/scripts/../../timings-data/c" ]}; ran := [] |})
    as ((w' & Hrun & Hran & _) & _).
  - vm_compute. reflexivity.
  - exists w'. split; [exact Hrun | exact Hran].
Defined.

Lemma collect_runs_the_tool_for_every_url_witness :
  Went secondFails (plan "/lh/core/scripts" twice ["https://x.test/"; "https://y.test/"])
       emptyDisk (collect "/lh/core/scripts" secondFails twice emptyDisk) /\
  length (plan "/lh/core/scripts" twice ["https://x.test/"; "https://y.test/"]) = 4%nat.
Proof.
  destruct (collect_runs_the_tool_for_every_url "/lh/core/scripts" secondFails twice emptyDisk)
    as [_ H].
  - apply not_elem_of_empty.
  - exact H.
Defined.

End CollectionFacts.
